(** * A deconvnet in PyTorch: [models/layers.py] and [models/cnn.py]

    The development embeds the two source files of the repository:
    the convolutional stage and its mirror ([ConvLayer], [DeconvLayer]),
    the network ([SimpleCNN]) with its forward pass, the filter
    normaliser, the deconvnet visualisation and the lenient parameter
    loader.

    Python objects live in a store: tensors are cells addressed by
    natural numbers (two stores, one per dtype: floating point and
    int64), and [ConvLayer] module objects are cells of a third store, so
    that aliasing (a [DeconvLayer] holding its [ConvLayer], a layer state
    sharing a tensor) is visible in the model.  Code that can raise is
    written in a state-and-exception monad whose failures keep the store
    reached when the exception was raised.

    The element type of floating tensors is a parameter ([Scalar]), with
    two instances: IEEE-754 binary32 (the dtype PyTorch gives the
    parameters of the source) and the real numbers, the exact arithmetic
    in which the source's comments reason.  The numeric kernels of the
    library whose values no statement depends on (convolution, batch
    normalisation, the linear map, transposed convolution, the random
    initialiser) are parameters as well ([Kernels]); their shapes and
    their checks are modelled. *)

From Stdlib Require Import ZArith Rbase Rfunctions R_sqrt Lra Lia Floats.SpecFloat.
From stdpp Require Import base option list gmap strings pretty.

(** ** Scalars *)

Class Scalar (F : Type) := {
  fzero : F;
  fone : F;
  fadd : F → F → F;
  fmul : F → F → F;
  fdiv : F → F → F;
  fsqrt : F → F;
  fgt : F → F → bool;
  fisnan : F → bool;
  (** the number of elements reduced over, as [torch.mean] divides by it *)
  fcount : nat → F;
  (** the Python literal [1e-1] converted to the element type *)
  f1e_1 : F
}.

(** IEEE-754 binary32: 24 bits of precision, exponents below 128; every
    operation, the square root included, is correctly rounded, to nearest
    even. *)
Module Binary32.
Definition prec : Z := 24.
Definition emax : Z := 128.
Definition of_Z (m e : Z) : spec_float := binary_normalize prec emax m e false.
Definition is_nan (x : spec_float) : bool :=
  match x with S754_nan => true | _ => false end.
(** [x > y] is false as soon as one side is NaN *)
Definition gt (x y : spec_float) : bool := SFltb y x.
(** the binary32 nearest to one tenth, [0x3DCCCCCD] *)
Definition tenth : spec_float := S754_finite false 13421773 (-27).
End Binary32.

#[export] Instance binary32_scalar : Scalar spec_float := {
  fzero := S754_zero false;
  fone := Binary32.of_Z 1 0;
  fadd := SFadd Binary32.prec Binary32.emax;
  fmul := SFmul Binary32.prec Binary32.emax;
  fdiv := SFdiv Binary32.prec Binary32.emax;
  fsqrt := SFsqrt Binary32.prec Binary32.emax;
  fgt := Binary32.gt;
  fisnan := Binary32.is_nan;
  fcount := λ n, Binary32.of_Z (Z.of_nat n) 0;
  f1e_1 := Binary32.tenth
}.

#[export] Instance real_scalar : Scalar R := {
  fzero := 0%R;
  fone := 1%R;
  fadd := Rplus;
  fmul := Rmult;
  fdiv := Rdiv;
  fsqrt := sqrt;
  fgt := λ x y, if Rlt_dec y x then true else false;
  fisnan := λ _, false;
  fcount := INR;
  f1e_1 := (1 / 10)%R
}.

(** ** Tensors *)

(** A tensor is its shape and its elements in row-major order. *)
Record tensor (A : Type) := Tensor { shape : list nat; data : list A }.
Arguments Tensor {A} _ _.
Arguments shape {A} _.
Arguments data {A} _.

Definition numel (s : list nat) : nat := foldr Nat.mul 1 s.

Definition tabulate {A} (n : nat) (f : nat → A) : list A := f <$> seq 0 n.
Arguments tabulate : simpl never.

(** [chunks n m l]: the [n] consecutive blocks of [m] elements of [l]. *)
Definition chunks {A} (n m : nat) (l : list A) : list (list A) :=
  tabulate n (λ i, take m (drop (i * m) l)).

(** ** Library kernels left abstract *)

Class Kernels (F : Type) := {
  conv2d_at : tensor F → tensor F → tensor F → nat * nat → nat * nat → nat → F;
  batch_norm_at : tensor F → tensor F → tensor F → tensor F → tensor F → bool → nat → F;
  running_mean_at : tensor F → tensor F → nat → F;
  running_var_at : tensor F → tensor F → nat → F;
  linear_at : tensor F → tensor F → tensor F → nat → F;
  conv_transpose2d_at :
    tensor F → tensor F → option (tensor F) → nat * nat → nat * nat → nat * nat → nat → F;
  (** the random initialiser, by the address of the cell it fills *)
  init_at : nat → list nat → nat → F;
  (** dtype conversions of [Tensor.copy_] *)
  cast_float : Z → F;
  cast_long : F → Z
}.

(** ** Module objects *)

Record Conv2d := {
  weight : nat;
  bias : nat;
  in_channels : nat;
  out_channels : nat;
  kernel_size : nat * nat;
  stride : nat * nat;
  padding : nat * nat
}.

Record BatchNorm2d := {
  num_features : nat;
  bn_weight : nat;
  bn_bias : nat;
  running_mean : nat;
  running_var : nat;
  num_batches_tracked : nat;
  training : bool
}.

Record MaxPool2d := { pool_kernel_size : nat }.

Record MaxUnpool2d := { unpool_kernel_size : nat; unpool_stride : nat }.

Record Linear := {
  in_features : nat;
  out_features : nat;
  fc_weight : nat;
  fc_bias : nat
}.

Record ConvLayer := { conv : Conv2d; bn : BatchNorm2d; pool : MaxPool2d }.

(** [conv_layer] is the address of a [ConvLayer] cell: the object the
    constructor was given, not a copy of it. *)
Record DeconvLayer := { conv_layer : nat; unpool : MaxUnpool2d }.

(** ** The store and the monad *)

Inductive exn :=
  | ValueError (msg : string)
  | RuntimeError (msg : string)
  | IndexError
  | AttributeError
  | TypeError.

Section Store.
Context {F : Type}.

Record state := State {
  floats : list (tensor F);
  longs : list (tensor Z);
  modules : list ConvLayer
}.

Inductive outcome (A : Type) :=
  | Ok (a : A) (σ : state)
  | Raise (e : exn) (σ : state).
Arguments Ok {A} _ _.
Arguments Raise {A} _ _.

Definition M (A : Type) : Type := state → outcome A.

Definition ret {A} (a : A) : M A := λ σ, Ok a σ.

Definition bind {A B} (m : M A) (k : A → M B) : M B :=
  λ σ, match m σ with
       | Ok a σ' => k a σ'
       | Raise e σ' => Raise e σ'
       end.

Definition raise {A} (e : exn) : M A := λ σ, Raise e σ.

Definition final_state {A} (o : outcome A) : state :=
  match o with Ok _ σ => σ | Raise _ σ => σ end.

Definition alloc_float (t : tensor F) : M nat :=
  λ σ, Ok (length (floats σ))
          (State (floats σ ++ [t]) (longs σ) (modules σ)).

Definition alloc_long (t : tensor Z) : M nat :=
  λ σ, Ok (length (longs σ))
          (State (floats σ) (longs σ ++ [t]) (modules σ)).

Definition alloc_module (c : ConvLayer) : M nat :=
  λ σ, Ok (length (modules σ))
          (State (floats σ) (longs σ) (modules σ ++ [c])).

Definition read_float (r : nat) : M (tensor F) :=
  λ σ, match floats σ !! r with
       | Some t => Ok t σ
       | None => Raise (RuntimeError "dangling tensor") σ
       end.

Definition read_long (r : nat) : M (tensor Z) :=
  λ σ, match longs σ !! r with
       | Some t => Ok t σ
       | None => Raise (RuntimeError "dangling tensor") σ
       end.

Definition read_module (r : nat) : M ConvLayer :=
  λ σ, match modules σ !! r with
       | Some c => Ok c σ
       | None => Raise (RuntimeError "dangling module") σ
       end.

(** in-place overwrite of a tensor's storage *)
Definition write_float (r : nat) (t : tensor F) : M unit :=
  λ σ, Ok tt (State (<[r := t]> (floats σ)) (longs σ) (modules σ)).

Definition write_long (r : nat) (t : tensor Z) : M unit :=
  λ σ, Ok tt (State (floats σ) (<[r := t]> (longs σ)) (modules σ)).
End Store.

Arguments state : clear implicits.
Arguments outcome : clear implicits.
Arguments M : clear implicits.
Arguments Ok {F A} _ _.
Arguments Raise {F A} _ _.

Notation "'let!' x ':=' c 'in' k" := (bind c (λ x, k))
  (at level 10, x pattern, c at level 100, k at level 200).

(** ** Python sequence indexing *)

(** [l[i]] with Python's negative indices; [None] is an [IndexError]. *)
Definition py_index {A} (l : list A) (i : Z) : option A :=
  if (0 <=? i)%Z then l !! Z.to_nat i
  else if (- Z.of_nat (length l) <=? i)%Z then l !! Z.to_nat (Z.of_nat (length l) + i)
  else None.

(** [l[start:]] with Python's clipping of the start. *)
Definition py_slice_from {A} (l : list A) (start : Z) : list A :=
  if (0 <=? start)%Z then drop (Z.to_nat start) l
  else drop (Z.to_nat (Z.max 0 (Z.of_nat (length l) + start))) l.

(** ** The library operations the source calls *)

Section Torch.
Context {F : Type} `{Scalar F} `{Kernels F}.

Definition at_ (l : list F) (i : nat) : F := default fzero (l !! i).

(** output extent of a convolution along one axis *)
Definition conv_out (h k s p : nat) : nat := (h + 2 * p - k) / s + 1.

Definition conv2d (c : Conv2d) (x : nat) : M F nat :=
  let! xt := read_float x in
  let! wt := read_float (weight c) in
  let! bt := read_float (bias c) in
  match shape xt, shape wt with
  | [n; ci; h; w], [co; ci'; kh; kw] =>
    if negb (ci =? ci') then raise (RuntimeError "input channels")
    else if (fst (stride c) =? 0) || (snd (stride c) =? 0)
    then raise (RuntimeError "non-positive stride")
    else if (h + 2 * fst (padding c) <? kh) || (w + 2 * snd (padding c) <? kw)
    then raise (RuntimeError "kernel size greater than padded input")
    else
      let ho := conv_out h kh (fst (stride c)) (fst (padding c)) in
      let wo := conv_out w kw (snd (stride c)) (snd (padding c)) in
      alloc_float (Tensor [n; co; ho; wo]
        (tabulate (n * co * ho * wo) (conv2d_at xt wt bt (stride c) (padding c))))
  | [ci; h; w], [co; ci'; kh; kw] =>
    (** an unbatched image: the result is 3-D as well *)
    if negb (ci =? ci') then raise (RuntimeError "input channels")
    else if (fst (stride c) =? 0) || (snd (stride c) =? 0)
    then raise (RuntimeError "non-positive stride")
    else if (h + 2 * fst (padding c) <? kh) || (w + 2 * snd (padding c) <? kw)
    then raise (RuntimeError "kernel size greater than padded input")
    else
      let ho := conv_out h kh (fst (stride c)) (fst (padding c)) in
      let wo := conv_out w kw (snd (stride c)) (snd (padding c)) in
      alloc_float (Tensor [co; ho; wo]
        (tabulate (co * ho * wo) (conv2d_at xt wt bt (stride c) (padding c))))
  | _, _ => raise (RuntimeError "expected 3-D or 4-D input and 4-D weight")
  end.

(** [nn.BatchNorm2d.forward]: in training mode the batch counter is
    incremented, the batch must give more than one value per channel,
    and the running statistics are overwritten in place. *)
Definition batch_norm (b : BatchNorm2d) (x : nat) : M F nat :=
  let! xt := read_float x in
  match shape xt with
  | [n; c; h; w] =>
    let! _ :=
      if training b then
        let! t := read_long (num_batches_tracked b) in
        write_long (num_batches_tracked b) (Tensor (shape t) ((λ z, z + 1)%Z <$> data t))
      else ret tt in
    if training b && (n * h * w =? 1)
    then raise (ValueError "Expected more than 1 value per channel when training")
    else if negb (c =? num_features b) then raise (RuntimeError "running_mean size")
    else
      let! wt := read_float (bn_weight b) in
      let! bt := read_float (bn_bias b) in
      let! mt := read_float (running_mean b) in
      let! vt := read_float (running_var b) in
      let! _ :=
        if training b then
          let! _ := write_float (running_mean b)
                      (Tensor (shape mt) (tabulate c (running_mean_at xt mt))) in
          write_float (running_var b)
                      (Tensor (shape vt) (tabulate c (running_var_at xt vt)))
        else ret tt in
      alloc_float (Tensor [n; c; h; w]
        (tabulate (n * c * h * w) (batch_norm_at xt wt bt mt vt (training b))))
  | _ => raise (ValueError "expected 4D input")
  end.

(** [F.relu] on one element: an element below zero becomes zero; every
    other one, NaN and the negative zero included, is returned as it is *)
Definition relu1 (v : F) : F :=
  if fgt fzero v then fzero else v.

Definition relu (x : nat) : M F nat :=
  let! xt := read_float x in
  alloc_float (Tensor (shape xt) (relu1 <$> data xt)).

(** the flat positions, in one [h]x[w] plane, of the [k]x[k] window of
    output location [(i, j)], in the order the kernel scans them *)
Definition window (k w i j : nat) : list nat :=
  flat_map (λ a, (λ b, (k * i + a) * w + (k * j + b)) <$> seq 0 k) (seq 0 k).

(** the kernel keeps the first position unless a later one is greater
    or NaN *)
Definition pool_argmax (plane : nat → F) (ps : list nat) : nat :=
  match ps with
  | [] => 0
  | p0 :: rest =>
    foldl (λ best p, if fgt (plane p) (plane best) || fisnan (plane p) then p else best)
          p0 rest
  end.

Definition pool_out (h k : nat) : nat := if h <? k then 0 else (h - k) / k + 1.

(** the selected plane-relative position for flat output index [q] *)
Definition pool_pick (k h w ho wo : nat) (d : list F) (q : nat) : nat :=
  let pl := q / (ho * wo) in
  let i := (q `mod` (ho * wo)) / wo in
  let j := (q `mod` (ho * wo)) `mod` wo in
  pool_argmax (λ p, at_ d (pl * (h * w) + p)) (window k w i j).

(** the pooled values and the recorded positions of an [n;c;h;w] tensor *)
Definition pool_values (k n c h w : nat) (d : list F) : tensor F :=
  let ho := pool_out h k in
  let wo := pool_out w k in
  Tensor [n; c; ho; wo]
    (tabulate (n * c * ho * wo)
       (λ q, at_ d (q / (ho * wo) * (h * w) + pool_pick k h w ho wo d q))).

Definition pool_positions (k n c h w : nat) (d : list F) : tensor Z :=
  let ho := pool_out h k in
  let wo := pool_out w k in
  Tensor [n; c; ho; wo]
    (tabulate (n * c * ho * wo) (λ q, Z.of_nat (pool_pick k h w ho wo d q))).

(** [nn.MaxPool2d(k, return_indices=True)]: stride [k], no padding *)
Definition max_pool2d (p : MaxPool2d) (x : nat) : M F (nat * nat) :=
  let! xt := read_float x in
  let k := pool_kernel_size p in
  match shape xt with
  | [n; c; h; w] =>
    if k =? 0 then raise (RuntimeError "stride should not be zero")
    else if (pool_out h k =? 0) || (pool_out w k =? 0)
    then raise (RuntimeError "Output size is too small")
    else
      let! o := alloc_float (pool_values k n c h w (data xt)) in
      let! ix := alloc_long (pool_positions k n c h w (data xt)) in
      ret (o, ix)
  | _ => raise (RuntimeError "expected 4-D input")
  end.

(** one plane of the unpooling kernel: a zero plane of [hw] elements in
    which every input value is written at its index, in input order;
    [None] when an index is outside the plane *)
Definition unpool_plane (hw : nat) (vals : list F) (inds : list Z) : option (list F) :=
  foldl (λ acc vi,
           out ← acc;
           if (0 <=? vi.2)%Z && (vi.2 <? Z.of_nat hw)%Z
           then Some (<[Z.to_nat vi.2 := vi.1]> out) else None)
        (Some (replicate hw fzero)) (zip vals inds).

(** [_unpool_output_size]: the requested size along one axis must lie
    strictly within one stride of the default size *)
Definition unpool_size_ok (u : MaxUnpool2d) (inp out : nat) : bool :=
  let dflt := ((Z.of_nat inp - 1) * Z.of_nat (unpool_stride u)
               + Z.of_nat (unpool_kernel_size u))%Z in
  (dflt - Z.of_nat (unpool_stride u) <? Z.of_nat out)%Z
  && (Z.of_nat out <? dflt + Z.of_nat (unpool_stride u))%Z.

Definition max_unpool2d (u : MaxUnpool2d) (x indices : nat) (output_size : list nat)
    : M F nat :=
  let! xt := read_float x in
  let! it := read_long indices in
  match shape xt with
  | [n; c; h; w] =>
    let size := if length output_size =? 4 then drop 2 output_size else output_size in
    match size with
    | [oh; ow] =>
      if negb (unpool_size_ok u h oh && unpool_size_ok u w ow)
      then raise (ValueError "invalid output size")
      else if negb (bool_decide (shape it = shape xt))
      then raise (RuntimeError "shape of indices")
      else
        match mapM (λ vi, unpool_plane (oh * ow) vi.1 vi.2)
                   (zip (chunks (n * c) (h * w) (data xt))
                        (chunks (n * c) (h * w) (data it))) with
        | Some planes => alloc_float (Tensor [n; c; oh; ow] (concat planes))
        | None => raise (RuntimeError "Found an invalid max index")
        end
    | _ => raise (ValueError "output_size should be a sequence of 2 or 4 integers")
    end
  | _ => raise (RuntimeError "expected 4-D input")
  end.

(** [Tensor.flip([2, 3])] of a 4-D tensor: a new tensor whose element
    [(o, i, a, b)] is the element [(o, i, d2-1-a, d3-1-b)] of the
    argument *)
Definition flip_2_3 (x : nat) : M F nat :=
  let! xt := read_float x in
  match shape xt with
  | [d0; d1; d2; d3] =>
    alloc_float (Tensor [d0; d1; d2; d3]
      (tabulate (d0 * d1 * d2 * d3)
         (λ q, let b := q `mod` d3 in
               let a := (q / d3) `mod` d2 in
               let pl := q / (d2 * d3) in
               at_ (data xt) ((pl * d2 + (d2 - 1 - a)) * d3 + (d3 - 1 - b)))))
  | _ => raise IndexError
  end.

(** output extent of a transposed convolution along one axis *)
Definition conv_transpose_out (h k s p op : nat) : Z :=
  ((Z.of_nat h - 1) * Z.of_nat s - 2 * Z.of_nat p + (Z.of_nat k - 1) + Z.of_nat op + 1)%Z.

(** [F.conv_transpose2d(x, weight, bias, stride, padding, output_padding)];
    an output extent of zero gives an empty tensor *)
Definition conv_transpose2d (x w : nat) (b : option nat)
    (strd pad opad : nat * nat) : M F nat :=
  let! xt := read_float x in
  let! wt := read_float w in
  let! bt := match b with
             | Some r => let! t := read_float r in ret (Some t)
             | None => ret None
             end in
  match shape xt, shape wt with
  | [n; ci; h; w_], [ci'; co; kh; kw] =>
    let ho := conv_transpose_out h kh (fst strd) (fst pad) (fst opad) in
    let wo := conv_transpose_out w_ kw (snd strd) (snd pad) (snd opad) in
    if negb (ci =? ci') then raise (RuntimeError "input channels")
    else if (fst strd =? 0) || (snd strd =? 0) then raise (RuntimeError "non-positive stride")
    else if negb ((fst opad <? Nat.max (fst strd) 1) && (snd opad <? Nat.max (snd strd) 1))
    then raise (RuntimeError "output padding must be smaller than either stride or dilation")
    else if (ho <? 0)%Z || (wo <? 0)%Z then raise (RuntimeError "negative output size")
    else
      alloc_float (Tensor [n; co; Z.to_nat ho; Z.to_nat wo]
        (tabulate (n * co * Z.to_nat ho * Z.to_nat wo)
           (conv_transpose2d_at xt wt bt strd pad opad)))
  | _, _ => raise (RuntimeError "expected 4-D input and weight")
  end.

Definition linear (l : Linear) (x : nat) : M F nat :=
  let! xt := read_float x in
  let! wt := read_float (fc_weight l) in
  let! bt := read_float (fc_bias l) in
  match shape xt, shape wt with
  | [n; f], [o; i] =>
    if negb (f =? i) then raise (RuntimeError "mat1 and mat2 shapes cannot be multiplied")
    else alloc_float (Tensor [n; o] (tabulate (n * o) (linear_at xt wt bt)))
  | _, _ => raise (RuntimeError "expected 2-D input and weight")
  end.

(** [x.view(x.size(0), -1)]: a new tensor object over the same elements;
    the [-1] cannot be inferred when the first extent is zero *)
Definition view_flat (x : nat) : M F nat :=
  let! xt := read_float x in
  match shape xt with
  | n :: rest =>
    if n =? 0 then raise (RuntimeError "cannot reshape tensor of 0 elements")
    else alloc_float (Tensor [n; numel rest] (data xt))
  | [] => raise IndexError
  end.

Definition clone (x : nat) : M F nat :=
  let! xt := read_float x in
  alloc_float xt.
End Torch.

(** * layers.py *)

(** Container for a layer's intermediate state during a forward pass;
    the fields hold addresses of tensor cells. *)
Record LayerState := {
  output : nat;
  pre_pool : option nat;
  pool_indices : option nat
}.

Section Layers.
Context {F : Type} `{Scalar F} `{Kernels F}.

(** a parameter the library fills with random values *)
Definition alloc_init (s : list nat) : M F nat :=
  λ σ, alloc_float (Tensor s (tabulate (numel s) (init_at (length (floats σ)) s))) σ.

Definition alloc_const (s : list nat) (v : F) : M F nat :=
  alloc_float (Tensor s (replicate (numel s) v)).

Definition Conv2d_init (in_c out_c k s p : nat) : M F Conv2d :=
  let! w := alloc_init [out_c; in_c; k; k] in
  let! b := alloc_init [out_c] in
  ret {| weight := w; bias := b; in_channels := in_c; out_channels := out_c;
         kernel_size := (k, k); stride := (s, s); padding := (p, p) |}.

Definition BatchNorm2d_init (c : nat) : M F BatchNorm2d :=
  let! w := alloc_const [c] fone in
  let! b := alloc_const [c] fzero in
  let! m := alloc_const [c] fzero in
  let! v := alloc_const [c] fone in
  let! t := alloc_long (Tensor [] [0%Z]) in
  ret {| num_features := c; bn_weight := w; bn_bias := b; running_mean := m;
         running_var := v; num_batches_tracked := t; training := true |}.

(** [ConvLayer.__init__]; the result is the address of the new object.
    The padding is computed in natural numbers, which is Python's integer
    arithmetic for a stride and a kernel size of at least one. *)
Definition ConvLayer_init (in_channels out_channels kernel_size stride : nat) : M F nat :=
  let padding := ((stride - 1) + kernel_size - 1) / 2 in
  let! conv := Conv2d_init in_channels out_channels kernel_size stride padding in
  let! bn := BatchNorm2d_init out_channels in
  let pool := {| pool_kernel_size := 2 |} in
  alloc_module {| conv := conv; bn := bn; pool := pool |}.

(** [ConvLayer.forward] *)
Definition ConvLayer_forward (self : nat) (x : nat) : M F LayerState :=
  let! self := read_module self in
  let! x := conv2d (conv self) x in
  let! x := batch_norm (bn self) x in
  let! x := relu x in
  let pre_pool := x in
  let! (x, indices) := max_pool2d (pool self) x in
  ret {| output := x; pre_pool := Some pre_pool; pool_indices := Some indices |}.

(** [DeconvLayer.__init__] *)
Definition DeconvLayer_init (conv_layer : nat) : DeconvLayer :=
  {| conv_layer := conv_layer;
     unpool := {| unpool_kernel_size := 2; unpool_stride := 2 |} |}.

(** [DeconvLayer.forward] *)
Definition DeconvLayer_forward (self : DeconvLayer) (x : nat) (max_indices : option nat)
    (pre_pool_size : list nat) : M F nat :=
  let! x := match max_indices with
            | Some ix => max_unpool2d (unpool self) x ix pre_pool_size
            | None => raise TypeError
            end in
  let! layer := read_module (conv_layer self) in
  let! weight := flip_2_3 (weight (conv layer)) in
  let stride := stride (conv layer) in
  let padding := padding (conv layer) in
  let output_padding := if 1 <? fst stride then 1 else 0 in
  conv_transpose2d x weight None stride padding (output_padding, output_padding).
End Layers.

(** * cnn.py *)

Record ModelState := {
  logits : nat;
  layer_states : list LayerState;
  features : option nat
}.

(** [ModelState.final_features]; [None] is the [IndexError] of [[-1]] on
    an empty list *)
Definition final_features (self : ModelState) : option nat :=
  match features self with
  | Some f => Some f
  | None => output <$> py_index (layer_states self) (-1)
  end.

Record Config := {
  conv1_channels : nat;
  conv2_channels : nat;
  conv3_channels : nat;
  conv4_channels : nat;
  config_kernel_size : nat;
  fc_units : nat
}.

Record SimpleCNN (F : Type) := {
  conv_layers : list nat;
  deconv_layers : list DeconvLayer;
  fc : Linear;
  filter_radius : F
}.
Arguments conv_layers {F} _.
Arguments deconv_layers {F} _.
Arguments fc {F} _.
Arguments filter_radius {F} _.

(** a persisted parameter: a floating or an int64 tensor *)
Inductive entry (F : Type) :=
  | FloatT (t : tensor F)
  | LongT (t : tensor Z).
Arguments FloatT {F} _.
Arguments LongT {F} _.

Inductive param := PFloat (r : nat) | PLong (r : nat).

Section Cnn.
Context {F : Type} `{Scalar F} `{Kernels F}.

Definition getitem {A} (l : list A) (i : Z) : M F A :=
  match py_index l i with
  | Some a => ret a
  | None => raise IndexError
  end.

Definition Linear_init (i o : nat) : M F Linear :=
  let! w := alloc_init [o; i] in
  let! b := alloc_init [o] in
  ret {| in_features := i; out_features := o; fc_weight := w; fc_bias := b |}.

(** [SimpleCNN.__init__] *)
Definition SimpleCNN_init (config : Config) : M F (SimpleCNN F) :=
  let! c1 := ConvLayer_init 3 (conv1_channels config) (config_kernel_size config) 2 in
  let! c2 := ConvLayer_init (conv1_channels config) (conv2_channels config)
               (config_kernel_size config) 1 in
  let! c3 := ConvLayer_init (conv2_channels config) (conv3_channels config)
               (config_kernel_size config) 1 in
  let! c4 := ConvLayer_init (conv3_channels config) (conv4_channels config)
               (config_kernel_size config) 1 in
  let conv_layers := [c1; c2; c3; c4] in
  let! d3 := getitem conv_layers 3 in
  let! d2 := getitem conv_layers 2 in
  let! d1 := getitem conv_layers 1 in
  let! d0 := getitem conv_layers 0 in
  let deconv_layers := [DeconvLayer_init d3; DeconvLayer_init d2;
                        DeconvLayer_init d1; DeconvLayer_init d0] in
  let! fc := Linear_init (conv4_channels config * 7 * 7) (fc_units config) in
  ret {| conv_layers := conv_layers; deconv_layers := deconv_layers; fc := fc;
         filter_radius := f1e_1 |}.

(** ** [normalize_filters] *)

(** [torch.sqrt(torch.mean(w.pow(2), dim=(1,2,3)))] for one filter of
    [m] elements.  The sum is written over the elements in storage order;
    the library does not fix the order of its reduction, which matters in
    floating point for a filter of several elements only: the binary32
    runs below are on filters of one element, and over the real numbers
    every order gives the same sum. *)
Definition rms (m : nat) (f : list F) : F :=
  fsqrt (fdiv (foldl fadd fzero ((λ v, fmul v v) <$> f)) (fcount m)).

(** one element of [scale]: [torch.ones_like(rms)], overwritten where
    [exceeded] by [self.filter_radius / rms[exceeded]].  The left operand
    is a Python float, so the quotient is [Tensor.__rtruediv__], which the
    library computes as [rms.reciprocal() * self.filter_radius]: two
    roundings in floating point. *)
Definition scale_of (radius r : F) : F :=
  if fgt r radius then fmul (fdiv fone r) radius else fone.

Definition scale_filter (f : list F) (s : F) : list F := (λ v, fmul v s) <$> f.

(** the body of the loop for one weight of [d0] filters of [m] elements:
    the new contents of the weight and the entry of
    [normalization_info], when some filter exceeds the radius *)
Definition normalize_weight (radius : F) (d0 m : nat) (w : list F)
    : option (list F * (list bool * list F)) :=
  let fs := chunks d0 m w in
  let rmss : list F := rms m <$> fs in
  let exceeded : list bool := (λ r, fgt r radius) <$> rmss in
  if existsb (λ e, e) exceeded then
    let scale : list F := scale_of radius <$> rmss in
    Some (concat (zip_with scale_filter fs scale), (exceeded, scale))
  else None.

Fixpoint normalize_loop (radius : F) (i : nat) (layers : list nat)
    (info : list (nat * (list bool * list F)))
    : M F (list (nat * (list bool * list F))) :=
  match layers with
  | [] => ret info
  | layer :: rest =>
    let! l := read_module layer in
    let! w := read_float (weight (conv l)) in
    match shape w with
    | [d0; d1; d2; d3] =>
      match normalize_weight radius d0 (d1 * d2 * d3) (data w) with
      | Some (w', entry) =>
        let! _ := write_float (weight (conv l)) (Tensor (shape w) w') in
        normalize_loop radius (S i) rest (info ++ [(i, entry)])
      | None => normalize_loop radius (S i) rest info
      end
    | _ => raise IndexError
    end
  end.

Definition normalize_filters (self : SimpleCNN F) : M F (list (nat * (list bool * list F))) :=
  normalize_loop (filter_radius self) 0 (conv_layers self) [].

(** ** [forward] *)

Definition _collect_layer_state (self : SimpleCNN F) (layer_idx : nat) (st : LayerState)
    : M F LayerState :=
  if layer_idx =? length (conv_layers self) then
    let! o := clone (output st) in
    ret {| output := o; pre_pool := pre_pool st; pool_indices := pool_indices st |}
  else ret st.

Fixpoint forward_loop (self : SimpleCNN F) (i : nat) (layers : list nat) (x : nat)
    (layer_states : list LayerState) : M F (nat * list LayerState) :=
  match layers with
  | [] => ret (x, layer_states)
  | layer :: rest =>
    let! layer_output := ConvLayer_forward layer x in
    let! layer_state := _collect_layer_state self i layer_output in
    forward_loop self (S i) rest (output layer_output) (layer_states ++ [layer_state])
  end.

Definition SimpleCNN_forward (self : SimpleCNN F) (x : nat) : M F ModelState :=
  let! (x, layer_states) := forward_loop self 1 (conv_layers self) x [] in
  let! v := view_flat x in
  let! logits := linear (fc self) v in
  ret {| logits := logits; layer_states := layer_states; features := Some x |}.

(** ** [deconv_visualization] *)

Fixpoint deconv_loop (self : SimpleCNN F) (model_state : ModelState) (i : Z)
    (ds : list DeconvLayer) (x : nat) : M F nat :=
  match ds with
  | [] => ret x
  | deconv_layer :: rest =>
    let layer_num := (Z.of_nat (length (conv_layers self)) - i + 1)%Z in
    let! layer_state := getitem (layer_states model_state) (layer_num - 1) in
    let! size := match pre_pool layer_state with
                 | Some p => let! t := read_float p in ret (shape t)
                 | None => raise AttributeError
                 end in
    let! x := DeconvLayer_forward deconv_layer x (pool_indices layer_state) size in
    deconv_loop self model_state (i + 1) rest x
  end.

Definition deconv_visualization (self : SimpleCNN F) (feature_maps : nat)
    (model_state : ModelState) (layer : Z) : M F nat :=
  if negb ((1 <=? layer)%Z && (layer <=? Z.of_nat (length (conv_layers self)))%Z)
  then raise (ValueError ("Layer " +:+ pretty layer +:+ " not supported for visualization"))
  else
    let x := feature_maps in
    let start_idx := (Z.of_nat (length (deconv_layers self)) - layer)%Z in
    deconv_loop self model_state (start_idx + 1)
      (py_slice_from (deconv_layers self) start_idx) x.

(** ** [load_state_dict] *)

Fixpoint mapM_ {A B} (f : A → M F B) (l : list A) : M F (list B) :=
  match l with
  | [] => ret []
  | a :: l => let! b := f a in let! bs := mapM_ f l in ret (b :: bs)
  end.

(** the parameters and persistent buffers of a [ConvLayer] under a
    name prefix *)
Definition ConvLayer_params (prefix : string) (l : ConvLayer) : list (string * param) :=
  [ (prefix +:+ "conv.weight", PFloat (weight (conv l)));
    (prefix +:+ "conv.bias", PFloat (bias (conv l)));
    (prefix +:+ "bn.weight", PFloat (bn_weight (bn l)));
    (prefix +:+ "bn.bias", PFloat (bn_bias (bn l)));
    (prefix +:+ "bn.running_mean", PFloat (running_mean (bn l)));
    (prefix +:+ "bn.running_var", PFloat (running_var (bn l)));
    (prefix +:+ "bn.num_batches_tracked", PLong (num_batches_tracked (bn l))) ].

(** the tensors of the module tree by name, in the order the library
    visits the tree: [conv_layers], [deconv_layers] (whose [conv_layer]
    children are the same objects), [fc] *)
Definition named_tensors (self : SimpleCNN F) : M F (list (string * param)) :=
  let! cs := mapM_ (λ ir, let! l := read_module ir.2 in
                          ret (ConvLayer_params ("conv_layers." +:+ pretty ir.1 +:+ ".") l))
               (imap pair (conv_layers self)) in
  let! ds := mapM_ (λ jd, let! l := read_module (conv_layer jd.2) in
                          ret (ConvLayer_params
                                 ("deconv_layers." +:+ pretty jd.1 +:+ ".conv_layer.") l))
               (imap pair (deconv_layers self)) in
  ret (concat cs ++ concat ds
       ++ [("fc.weight", PFloat (fc_weight (fc self)));
           ("fc.bias", PFloat (fc_bias (fc self)))]).

Definition entry_shape (e : entry F) : list nat :=
  match e with FloatT t => shape t | LongT t => shape t end.

(** [input_param[0]] of a 1-D tensor, as a 0-D tensor *)
Definition first_element (e : entry F) : entry F :=
  match e with
  | FloatT u => FloatT (Tensor [] (take 1 (data u)))
  | LongT u => LongT (Tensor [] (take 1 (data u)))
  end.

(** the library's backward compatibility for scalars: a 1-D entry given
    for a 0-D tensor stands for its first element; indexing an empty
    entry raises *)
Definition unwrap (s : list nat) (e : entry F) : M F (entry F) :=
  match s, entry_shape e with
  | [], [n] => if n =? 0 then raise IndexError else ret (first_element e)
  | _, _ => ret e
  end.

(** the entry in the dtype of the tensor it is copied to *)
Definition as_float (e : entry F) : tensor F :=
  match e with FloatT u => u | LongT u => Tensor (shape u) (cast_float <$> data u) end.

Definition as_long (e : entry F) : tensor Z :=
  match e with LongT u => u | FloatT u => Tensor (shape u) (cast_long <$> data u) end.

(** [param.copy_(input_param)] behind the library's shape check;
    [false] when the shapes differ and an error message is recorded *)
Definition copy_checked (p : param) (e : entry F) : M F bool :=
  match p with
  | PFloat r =>
    let! t := read_float r in
    let! e := unwrap (shape t) e in
    let u := as_float e in
    if bool_decide (shape u = shape t)
    then let! _ := write_float r u in ret true
    else ret false
  | PLong r =>
    let! t := read_long r in
    let! e := unwrap (shape t) e in
    let u := as_long e in
    if bool_decide (shape u = shape t)
    then let! _ := write_long r u in ret true
    else ret false
  end.

(** the library's walk over the named tensors: a name present in the
    mapping is copied, a name absent from it is passed over (for an
    absent batch counter [BatchNorm2d] supplies the counter itself, which
    leaves it as it is); the result tells whether an error message was
    recorded *)
Fixpoint load_named (ps : list (string * param)) (sd : gmap string (entry F))
    (errors : bool) : M F bool :=
  match ps with
  | [] => ret errors
  | (key, p) :: rest =>
    match sd !! key with
    | Some e => let! ok := copy_checked p e in load_named rest sd (errors || negb ok)
    | None => load_named rest sd errors
    end
  end.

(** [nn.Module.load_state_dict(state_dict, strict)]: missing and
    unexpected keys are errors only when [strict]; recorded error
    messages raise after the whole tree was visited *)
Definition Module_load_state_dict (self : SimpleCNN F) (sd : gmap string (entry F))
    (strict : bool) : M F unit :=
  let! ps := named_tensors self in
  let! errors := load_named ps sd false in
  let missing := existsb (λ kp, match sd !! kp.1 with None => true | Some _ => false end) ps in
  let unexpected := existsb (λ k, negb (bool_decide (k ∈ ps.*1))) (map_to_list sd).*1 in
  if errors || (strict && (missing || unexpected))
  then raise (RuntimeError "Error(s) in loading state_dict")
  else ret tt.

Definition startswith (prefix key : string) : bool := String.prefix prefix key.

(** [SimpleCNN.load_state_dict] *)
Definition load_state_dict (self : SimpleCNN F) (state_dict : gmap string (entry F))
    : M F unit :=
  let new_state_dict :=
    filter (λ kv, startswith "conv_layers" kv.1 || startswith "fc" kv.1 = true) state_dict in
  Module_load_state_dict self new_state_dict false.
End Cnn.

(** * Reasoning about runs *)

Section Runs.
Context {F : Type}.
Implicit Types σ : state F.

(** [m] returns from [σ] and its result and final store satisfy [Q] *)
Definition wp {A} (m : M F A) σ (Q : A → state F → Prop) : Prop :=
  match m σ with
  | Ok a σ' => Q a σ'
  | Raise _ _ => False
  end.

Lemma wp_ret {A} (a : A) σ Q : Q a σ → wp (ret a) σ Q.
Proof. done. Qed.

Lemma wp_bind {A B} (m : M F A) (k : A → M F B) σ Q :
  wp m σ (λ a σ', wp (k a) σ' Q) → wp (bind m k) σ Q.
Proof. unfold wp, bind. by destruct (m σ). Qed.

Lemma wp_mono {A} (m : M F A) σ (Q Q' : A → state F → Prop) :
  wp m σ Q → (∀ a σ', Q a σ' → Q' a σ') → wp m σ Q'.
Proof. unfold wp. destruct (m σ); naive_solver. Qed.

Lemma wp_returns {A} (m : M F A) σ Q :
  wp m σ Q ↔ ∃ a σ', m σ = Ok a σ' ∧ Q a σ'.
Proof.
  unfold wp. split.
  - destruct (m σ) as [a σ'|]; [|done]. by exists a, σ'.
  - by intros (a & σ' & -> & HQ).
Qed.

Lemma wp_of_eq {A} (m : M F A) σ a σ' (Q : A → state F → Prop) :
  m σ = Ok a σ' → Q a σ' → wp m σ Q.
Proof. unfold wp. by intros ->. Qed.

Lemma bind_Ok {A B} (m : M F A) (k : A → M F B) σ b σ' :
  bind m k σ = Ok b σ' ↔ ∃ a σ1, m σ = Ok a σ1 ∧ k a σ1 = Ok b σ'.
Proof.
  unfold bind. split.
  - destruct (m σ) as [a σ1|]; [|done]. by exists a, σ1.
  - by intros (a & σ1 & -> & Hk).
Qed.

Lemma bind_run {A B} (m : M F A) (k : A → M F B) σ a σ1 :
  m σ = Ok a σ1 → bind m k σ = k a σ1.
Proof. unfold bind. by intros ->. Qed.

Lemma read_float_Ok r σ t σ' :
  read_float r σ = Ok t σ' ↔ floats σ !! r = Some t ∧ σ' = σ.
Proof.
  unfold read_float. destruct (floats σ !! r); split;
    [by intros [= -> ->]|by intros [[= ->] ->]|done|by intros [? _]].
Qed.

Lemma read_long_Ok r σ t σ' :
  read_long r σ = Ok t σ' ↔ longs σ !! r = Some t ∧ σ' = σ.
Proof.
  unfold read_long. destruct (longs σ !! r); split;
    [by intros [= -> ->]|by intros [[= ->] ->]|done|by intros [? _]].
Qed.

Lemma read_module_Ok r σ l σ' :
  read_module r σ = Ok l σ' ↔ modules σ !! r = Some l ∧ σ' = σ.
Proof.
  unfold read_module. destruct (modules σ !! r); split;
    [by intros [= -> ->]|by intros [[= ->] ->]|done|by intros [? _]].
Qed.

Lemma read_float_run r σ t : floats σ !! r = Some t → read_float r σ = Ok t σ.
Proof. intros Hr. by apply read_float_Ok. Qed.

Lemma read_long_run r σ t : longs σ !! r = Some t → read_long r σ = Ok t σ.
Proof. intros Hr. by apply read_long_Ok. Qed.

Lemma read_module_run r σ l : modules σ !! r = Some l → read_module r σ = Ok l σ.
Proof. intros Hr. by apply read_module_Ok. Qed.

Lemma wp_read_float r σ t (Q : tensor F → state F → Prop) :
  floats σ !! r = Some t → Q t σ → wp (read_float r) σ Q.
Proof. intros Hr HQ. unfold wp. by rewrite (read_float_run _ _ _ Hr). Qed.

Lemma wp_read_long r σ t (Q : tensor Z → state F → Prop) :
  longs σ !! r = Some t → Q t σ → wp (read_long r) σ Q.
Proof. intros Hr HQ. unfold wp. by rewrite (read_long_run _ _ _ Hr). Qed.

Lemma wp_read_module r σ l (Q : ConvLayer → state F → Prop) :
  modules σ !! r = Some l → Q l σ → wp (read_module r) σ Q.
Proof. intros Hr HQ. unfold wp. by rewrite (read_module_run _ _ _ Hr). Qed.

Lemma wp_write_float r t σ (Q : unit → state F → Prop) :
  Q tt (State (<[r := t]> (floats σ)) (longs σ) (modules σ)) → wp (write_float r t) σ Q.
Proof. done. Qed.

Lemma wp_write_long r t σ (Q : unit → state F → Prop) :
  Q tt (State (floats σ) (<[r := t]> (longs σ)) (modules σ)) → wp (write_long r t) σ Q.
Proof. done. Qed.

Lemma wp_alloc_float t σ (Q : nat → state F → Prop) :
  Q (length (floats σ)) (State (floats σ ++ [t]) (longs σ) (modules σ)) →
  wp (alloc_float t) σ Q.
Proof. done. Qed.

Lemma wp_alloc_long t σ (Q : nat → state F → Prop) :
  Q (length (longs σ)) (State (floats σ) (longs σ ++ [t]) (modules σ)) →
  wp (alloc_long t) σ Q.
Proof. done. Qed.

(** ** Stores that only grow, shapes kept *)

(** Every cell of [σ] is still there in [σ'], tensors with their shape
    (their elements may have been overwritten in place), module
    objects as they were. *)
Record ext σ σ' : Prop := {
  ext_floats : ∀ r t, floats σ !! r = Some t →
                      ∃ t', floats σ' !! r = Some t' ∧ shape t' = shape t;
  ext_longs : ∀ r t, longs σ !! r = Some t →
                     ∃ t', longs σ' !! r = Some t' ∧ shape t' = shape t;
  ext_modules : ∀ r l, modules σ !! r = Some l → modules σ' !! r = Some l
}.

Lemma ext_refl σ : ext σ σ.
Proof. split; eauto. Qed.

Lemma ext_trans σ1 σ2 σ3 : ext σ1 σ2 → ext σ2 σ3 → ext σ1 σ3.
Proof.
  intros [f1 l1 m1] [f2 l2 m2]. split.
  - intros r t Hr. destruct (f1 _ _ Hr) as (t' & Hr' & Hs).
    destruct (f2 _ _ Hr') as (t'' & Hr'' & Hs'). exists t''. split; congruence.
  - intros r t Hr. destruct (l1 _ _ Hr) as (t' & Hr' & Hs).
    destruct (l2 _ _ Hr') as (t'' & Hr'' & Hs'). exists t''. split; congruence.
  - eauto.
Qed.

Lemma ext_alloc_float σ t :
  ext σ (State (floats σ ++ [t]) (longs σ) (modules σ)).
Proof.
  split; simpl; eauto.
  intros r u Hr. exists u. split; [|done]. by apply lookup_app_l_Some.
Qed.

Lemma ext_alloc_long σ t :
  ext σ (State (floats σ) (longs σ ++ [t]) (modules σ)).
Proof.
  split; simpl; eauto.
  intros r u Hr. exists u. split; [|done]. by apply lookup_app_l_Some.
Qed.

Lemma ext_alloc_module σ c :
  ext σ (State (floats σ) (longs σ) (modules σ ++ [c])).
Proof.
  split; simpl; eauto.
  intros r u Hr. by apply lookup_app_l_Some.
Qed.

Lemma ext_write_float σ r t u :
  floats σ !! r = Some u → shape t = shape u →
  ext σ (State (<[r := t]> (floats σ)) (longs σ) (modules σ)).
Proof.
  intros Hr Hs. split; simpl; eauto.
  intros r' t' Hr'. destruct (decide (r = r')) as [<-|Hne].
  - exists t. rewrite list_lookup_insert_eq; [|by eapply lookup_lt_Some].
    split; congruence.
  - exists t'. by rewrite list_lookup_insert_ne.
Qed.

Lemma ext_write_long σ r t u :
  longs σ !! r = Some u → shape t = shape u →
  ext σ (State (floats σ) (<[r := t]> (longs σ)) (modules σ)).
Proof.
  intros Hr Hs. split; simpl; eauto.
  intros r' t' Hr'. destruct (decide (r = r')) as [<-|Hne].
  - exists t. rewrite list_lookup_insert_eq; [|by eapply lookup_lt_Some].
    split; congruence.
  - exists t'. by rewrite list_lookup_insert_ne.
Qed.
End Runs.

Lemma length_tabulate {A} n (f : nat → A) : length (tabulate n f) = n.
Proof. unfold tabulate. by rewrite length_fmap, length_seq. Qed.

Lemma lookup_tabulate {A} n (f : nat → A) i :
  i < n → tabulate n f !! i = Some (f i).
Proof.
  intros Hi. unfold tabulate. rewrite list_lookup_fmap, lookup_seq_lt; done.
Qed.

Lemma lookup_tabulate_ge {A} n (f : nat → A) i :
  n ≤ i → tabulate n f !! i = None.
Proof.
  intros Hi. apply lookup_ge_None. by rewrite length_tabulate.
Qed.

(** * Shapes through a stage *)

Ltac wp_float H := apply wp_bind; eapply wp_read_float; [exact H|].
Ltac wp_long H := apply wp_bind; eapply wp_read_long; [exact H|].
Ltac wp_module H := apply wp_bind; eapply wp_read_module; [exact H|].

Section Shapes.
Context {F : Type} `{Scalar F} `{Kernels F}.
Implicit Types σ : state F.

Definition has_shape σ (r : nat) (s : list nat) : Prop :=
  ∃ t, floats σ !! r = Some t ∧ shape t = s.

Lemma has_shape_ext σ σ' r s : ext σ σ' → has_shape σ r s → has_shape σ' r s.
Proof.
  intros He (t & Hr & Hs). destruct (ext_floats _ _ He _ _ Hr) as (t' & ? & ?).
  exists t'. split; congruence.
Qed.

Lemma is_Some_float_ext σ σ' r :
  ext σ σ' → is_Some (floats σ !! r) → is_Some (floats σ' !! r).
Proof.
  intros He [t Hr]. destruct (ext_floats _ _ He _ _ Hr) as (t' & ? & ?). by exists t'.
Qed.

Lemma is_Some_long_ext σ σ' r :
  ext σ σ' → is_Some (longs σ !! r) → is_Some (longs σ' !! r).
Proof.
  intros He [t Hr]. destruct (ext_longs _ _ He _ _ Hr) as (t' & ? & ?). by exists t'.
Qed.

(** the cells a [ConvLayer] object points to are there, the weight with
    the shape of [co] filters over [ci] channels *)
Record layer_ok σ (l : ConvLayer) (ci co kh kw : nat) : Prop := {
  lo_weight : has_shape σ (weight (conv l)) [co; ci; kh; kw];
  lo_bias : is_Some (floats σ !! bias (conv l));
  lo_features : num_features (bn l) = co;
  lo_bn_weight : is_Some (floats σ !! bn_weight (bn l));
  lo_bn_bias : is_Some (floats σ !! bn_bias (bn l));
  lo_mean : is_Some (floats σ !! running_mean (bn l));
  lo_var : is_Some (floats σ !! running_var (bn l));
  lo_tracked : is_Some (longs σ !! num_batches_tracked (bn l));
  lo_pool : pool_kernel_size (pool l) = 2
}.

Lemma layer_ok_ext σ σ' l ci co kh kw :
  ext σ σ' → layer_ok σ l ci co kh kw → layer_ok σ' l ci co kh kw.
Proof.
  intros He []. split;
    eauto using has_shape_ext, is_Some_float_ext, is_Some_long_ext.
Qed.

Lemma conv2d_spec c x σ xt n ci h w co kh kw :
  floats σ !! x = Some xt → shape xt = [n; ci; h; w] →
  has_shape σ (weight c) [co; ci; kh; kw] → is_Some (floats σ !! bias c) →
  fst (stride c) ≠ 0 → snd (stride c) ≠ 0 →
  kh ≤ h + 2 * fst (padding c) → kw ≤ w + 2 * snd (padding c) →
  wp (conv2d c x) σ (λ r σ',
    ext σ σ' ∧
    has_shape σ' r [n; co; conv_out h kh (fst (stride c)) (fst (padding c));
                           conv_out w kw (snd (stride c)) (snd (padding c))]).
Proof.
  intros Hx Hsx Hw0 Hb0 Hs1 Hs2 Hk1 Hk2.
  destruct Hw0 as (wt & Hw & Hsw). destruct Hb0 as [bt Hb].
  unfold conv2d.
  wp_float Hx.
  wp_float Hw.
  wp_float Hb.
  rewrite Hsx, Hsw. rewrite Nat.eqb_refl. simpl negb. cbv iota.
  destruct (Nat.eqb_spec (stride c).1 0) as [|_]; [done|].
  destruct (Nat.eqb_spec (stride c).2 0) as [|_]; [done|].
  destruct (Nat.ltb_spec (h + 2 * (padding c).1) kh) as [|_]; [lia|].
  destruct (Nat.ltb_spec (w + 2 * (padding c).2) kw) as [|_]; [lia|].
  simpl orb. cbv iota.
  split; [apply ext_alloc_float|].
  eexists. simpl. split; [by apply list_lookup_middle|done].
Qed.

Lemma batch_norm_spec b x σ xt n c h w :
  floats σ !! x = Some xt → shape xt = [n; c; h; w] →
  num_features b = c → n * h * w ≠ 1 →
  is_Some (floats σ !! bn_weight b) → is_Some (floats σ !! bn_bias b) →
  is_Some (floats σ !! running_mean b) → is_Some (floats σ !! running_var b) →
  is_Some (longs σ !! num_batches_tracked b) →
  wp (batch_norm b x) σ (λ r σ', ext σ σ' ∧ has_shape σ' r [n; c; h; w]).
Proof.
  intros Hx Hsx Hc Hn [wt Hw] [bt Hb] [mt Hm] [vt Hv] [tt_ Ht].
  unfold batch_norm.
  wp_float Hx. rewrite Hsx.
  destruct (Nat.eqb_spec (n * h * w) 1) as [|_]; [done|].
  rewrite andb_false_r. rewrite Hc, Nat.eqb_refl. simpl negb. cbv iota.
  destruct (training b).
  - apply wp_bind. wp_long Ht.
    apply wp_write_long.
    match goal with |- wp _ ?s _ => set (σ1 := s) end.
    assert (ext σ σ1) as E1 by (by eapply ext_write_long).
    wp_float Hw.
    wp_float Hb.
    wp_float Hm.
    wp_float Hv.
    apply wp_bind. apply wp_bind, wp_write_float.
    match goal with |- wp _ ?s _ => set (σ2 := s) end.
    assert (ext σ1 σ2) as E2 by (by eapply ext_write_float).
    destruct (ext_floats _ _ E2 _ _ Hv) as (vt' & Hv' & Hsv).
    apply wp_write_float.
    match goal with |- wp _ ?s _ => set (σ3 := s) end.
    assert (ext σ2 σ3) as E3 by (eapply ext_write_float; [done|]; by rewrite Hsv).
    apply wp_alloc_float.
    split.
    + eapply ext_trans; [|apply ext_alloc_float].
      eauto using ext_trans.
    + eexists. split; [by apply list_lookup_middle|done].
  - apply wp_bind, wp_ret.
    wp_float Hw.
    wp_float Hb.
    wp_float Hm.
    wp_float Hv.
    apply wp_bind, wp_ret.
    split; [apply ext_alloc_float|].
    eexists. split; [by apply list_lookup_middle|done].
Qed.

Lemma relu_spec x σ xt :
  floats σ !! x = Some xt →
  wp (relu x) σ (λ r σ',
    ext σ σ' ∧ floats σ' !! r = Some (Tensor (shape xt) (relu1 <$> data xt))).
Proof.
  intros Hx. unfold relu.
  wp_float Hx.
  split; [apply ext_alloc_float|]. by apply list_lookup_middle.
Qed.

(** a store that is [σ] with cells appended: nothing overwritten *)
Definition grows σ σ' : Prop :=
  (∃ fs, floats σ' = floats σ ++ fs) ∧ (∃ ls, longs σ' = longs σ ++ ls)
  ∧ modules σ' = modules σ.

Lemma grows_refl σ : grows σ σ.
Proof.
  split; [|split]; [exists []..|done]; by rewrite app_nil_r.
Qed.

Lemma grows_trans σ1 σ2 σ3 : grows σ1 σ2 → grows σ2 σ3 → grows σ1 σ3.
Proof.
  intros ([f1 E1] & [l1 E2] & E3) ([f2 E4] & [l2 E5] & E6). split; [|split].
  - exists (f1 ++ f2). by rewrite E4, E1, app_assoc.
  - exists (l1 ++ l2). by rewrite E5, E2, app_assoc.
  - congruence.
Qed.

Lemma grows_float σ σ' r t : grows σ σ' → floats σ !! r = Some t → floats σ' !! r = Some t.
Proof. intros ([fs ->] & _) Hr. by apply lookup_app_l_Some. Qed.

Lemma grows_long σ σ' r t : grows σ σ' → longs σ !! r = Some t → longs σ' !! r = Some t.
Proof. intros (_ & [ls ->] & _) Hr. by apply lookup_app_l_Some. Qed.

Lemma grows_ext σ σ' : grows σ σ' → ext σ σ'.
Proof.
  intros Hg. split.
  - intros r t Hr. exists t. eauto using grows_float.
  - intros r t Hr. exists t. eauto using grows_long.
  - intros r l Hr. destruct Hg as (_ & _ & ->). done.
Qed.

Lemma max_pool2d_spec p x σ xt n c h w :
  floats σ !! x = Some xt → shape xt = [n; c; h; w] →
  pool_kernel_size p = 2 → 2 ≤ h → 2 ≤ w →
  wp (max_pool2d p x) σ (λ oi σ',
    grows σ σ' ∧
    oi.1 = length (floats σ) ∧ oi.2 = length (longs σ) ∧
    floats σ' !! oi.1 = Some (pool_values 2 n c h w (data xt)) ∧
    longs σ' !! oi.2 = Some (pool_positions 2 n c h w (data xt))).
Proof.
  intros Hx Hsx Hk Hh Hw. unfold max_pool2d.
  wp_float Hx. rewrite Hsx, Hk.
  assert (pool_out h 2 ≠ 0 ∧ pool_out w 2 ≠ 0) as [Ph Pw].
  { unfold pool_out.
    destruct (Nat.ltb_spec h 2), (Nat.ltb_spec w 2); lia. }
  simpl (2 =? 0). cbv iota.
  destruct (Nat.eqb_spec (pool_out h 2) 0) as [|_]; [done|].
  destruct (Nat.eqb_spec (pool_out w 2) 0) as [|_]; [done|].
  simpl orb. cbv iota.
  unfold wp, bind, alloc_float, alloc_long, ret. simpl.
  split_and!; try done.
  - split; [|split]; simpl; eauto.
  - by apply list_lookup_middle.
  - by apply list_lookup_middle.
Qed.

Lemma ConvLayer_forward_spec self x σ l xt n ci h w co kh kw :
  modules σ !! self = Some l → layer_ok σ l ci co kh kw →
  floats σ !! x = Some xt → shape xt = [n; ci; h; w] →
  (stride (conv l)).1 ≠ 0 → (stride (conv l)).2 ≠ 0 →
  kh ≤ h + 2 * (padding (conv l)).1 → kw ≤ w + 2 * (padding (conv l)).2 →
  let ho := conv_out h kh (stride (conv l)).1 (padding (conv l)).1 in
  let wo := conv_out w kw (stride (conv l)).2 (padding (conv l)).2 in
  2 ≤ ho → 2 ≤ wo →
  wp (ConvLayer_forward self x) σ (λ S σ',
    ext σ σ' ∧ length (floats σ) ≤ output S ∧
    ∃ pre ix pt,
      pre_pool S = Some pre ∧ pool_indices S = Some ix ∧
      floats σ' !! pre = Some pt ∧ shape pt = [n; co; ho; wo] ∧
      floats σ' !! output S = Some (pool_values 2 n co ho wo (data pt)) ∧
      longs σ' !! ix = Some (pool_positions 2 n co ho wo (data pt))).
Proof.
  intros Hself Hl Hx Hsx Hs1 Hs2 Hk1 Hk2 ho wo Hho Hwo.
  unfold ConvLayer_forward. wp_module Hself.
  apply wp_bind. eapply wp_mono.
  { eapply conv2d_spec; eauto using lo_weight, lo_bias. }
  intros r1 σ1 [E1 (t1 & Hr1 & Ht1)]. cbv beta.
  apply (layer_ok_ext _ _ _ _ _ _ _ E1) in Hl as Hl1.
  apply wp_bind. eapply wp_mono.
  { eapply (batch_norm_spec _ _ _ _ n co ho wo);
      [exact Hr1|exact Ht1|by eapply lo_features|
       destruct (n * ho); simpl; lia|
       by eapply lo_bn_weight|by eapply lo_bn_bias|by eapply lo_mean|
       by eapply lo_var|by eapply lo_tracked]. }
  intros r2 σ2 [E2 (t2 & Hr2 & Ht2)]. cbv beta.
  apply wp_bind. eapply wp_mono; [by eapply relu_spec|].
  intros r3 σ3 [E3 Hr3]. cbv beta.
  apply wp_bind. eapply wp_mono.
  { eapply max_pool2d_spec; [exact Hr3|simpl; exact Ht2|eauto using lo_pool|done..]. }
  intros [o ix] σ4 (G4 & Ho & Hix & Hov & Hixv). simpl in *. apply wp_ret. simpl.
  split; [eauto using ext_trans, grows_ext|].
  split.
  { subst o.
    assert (length (floats σ) ≤ length (floats σ3)); [|lia].
    clear -E1 E2 E3. 
    assert (∀ σa σb : state F, ext σa σb → length (floats σa) ≤ length (floats σb)) as L.
    { intros σa σb E. destruct (floats σa) as [|t0 fl] eqn:Efl using rev_ind; [simpl; lia|].
      destruct (ext_floats _ _ E (length fl) t0) as (t' & Hl' & _).
      { rewrite Efl. by apply list_lookup_middle. }
      apply lookup_lt_Some in Hl'. rewrite length_app. simpl. lia. }
    etrans; [by apply L|]. etrans; by apply L. }
  exists r3, ix, (Tensor (shape t2) (relu1 <$> data t2)).
  split_and!; eauto using grows_float.
Qed.
End Shapes.

(** * Construction *)

Section Construction.
Context {F : Type} `{Scalar F} `{Kernels F}.
Implicit Types σ : state F.

(** the object [ConvLayer.__init__] builds when the stores hold [a]
    floating and [b] integer tensors, and the tensors it allocates *)
Definition new_layer (a b ci co k s : nat) : ConvLayer :=
  {| conv := {| weight := a; bias := a + 1; in_channels := ci; out_channels := co;
                kernel_size := (k, k); stride := (s, s);
                padding := (((s - 1) + k - 1) / 2, ((s - 1) + k - 1) / 2) |};
     bn := {| num_features := co; bn_weight := a + 2; bn_bias := a + 3;
              running_mean := a + 4; running_var := a + 5;
              num_batches_tracked := b; training := true |};
     pool := {| pool_kernel_size := 2 |} |}.

Definition new_layer_floats (a ci co k : nat) : list (tensor F) :=
  [ Tensor [co; ci; k; k] (tabulate (numel [co; ci; k; k]) (init_at a [co; ci; k; k]));
    Tensor [co] (tabulate (numel [co]) (init_at (a + 1) [co]));
    Tensor [co] (replicate (numel [co]) fone);
    Tensor [co] (replicate (numel [co]) fzero);
    Tensor [co] (replicate (numel [co]) fzero);
    Tensor [co] (replicate (numel [co]) fone) ].

Lemma ConvLayer_init_run ci co k s σ :
  ConvLayer_init ci co k s σ =
  Ok (length (modules σ))
     (State (floats σ ++ new_layer_floats (length (floats σ)) ci co k)
            (longs σ ++ [Tensor [] [0%Z]])
            (modules σ ++ [new_layer (length (floats σ)) (length (longs σ)) ci co k s])).
Proof.
  unfold ConvLayer_init, Conv2d_init, BatchNorm2d_init, alloc_init, alloc_const,
    alloc_float, alloc_long, alloc_module, bind, ret, new_layer, new_layer_floats.
  cbn [floats longs modules].
  rewrite !length_app. cbn [length].
  rewrite <- !app_assoc. cbn [app].
  rewrite <- !Nat.add_assoc. cbn [Nat.add]. reflexivity.
Qed.

(** the network [SimpleCNN.__init__] builds over stores of [a] floating
    tensors, [b] integer tensors and [m] module objects *)
Definition built_model (a m : nat) (cfg : Config) : SimpleCNN F :=
  {| conv_layers := [m; m + 1; m + 2; m + 3];
     deconv_layers := [DeconvLayer_init (m + 3); DeconvLayer_init (m + 2);
                       DeconvLayer_init (m + 1); DeconvLayer_init m];
     fc := {| in_features := conv4_channels cfg * 7 * 7; out_features := fc_units cfg;
              fc_weight := a + 24; fc_bias := a + 25 |};
     filter_radius := f1e_1 |}.

Definition built_layers (a b : nat) (cfg : Config) : list ConvLayer :=
  let k := config_kernel_size cfg in
  [ new_layer a b 3 (conv1_channels cfg) k 2;
    new_layer (a + 6) (b + 1) (conv1_channels cfg) (conv2_channels cfg) k 1;
    new_layer (a + 12) (b + 2) (conv2_channels cfg) (conv3_channels cfg) k 1;
    new_layer (a + 18) (b + 3) (conv3_channels cfg) (conv4_channels cfg) k 1 ].

Definition built_floats (a : nat) (cfg : Config) : list (tensor F) :=
  let k := config_kernel_size cfg in
  let fi := conv4_channels cfg * 7 * 7 in
  new_layer_floats a 3 (conv1_channels cfg) k
  ++ new_layer_floats (a + 6) (conv1_channels cfg) (conv2_channels cfg) k
  ++ new_layer_floats (a + 12) (conv2_channels cfg) (conv3_channels cfg) k
  ++ new_layer_floats (a + 18) (conv3_channels cfg) (conv4_channels cfg) k
  ++ [ Tensor [fc_units cfg; fi]
         (tabulate (numel [fc_units cfg; fi]) (init_at (a + 24) [fc_units cfg; fi]));
       Tensor [fc_units cfg]
         (tabulate (numel [fc_units cfg]) (init_at (a + 25) [fc_units cfg])) ].

Definition built_state σ (cfg : Config) : state F :=
  State (floats σ ++ built_floats (length (floats σ)) cfg)
        (longs σ ++ replicate 4 (Tensor [] [0%Z]))
        (modules σ ++ built_layers (length (floats σ)) (length (longs σ)) cfg).

Lemma getitem_run {A} (l : list A) i a σ :
  py_index l i = Some a → getitem l i σ = Ok a σ.
Proof. unfold getitem. by intros ->. Qed.

Lemma SimpleCNN_init_run cfg σ :
  SimpleCNN_init cfg σ =
  Ok (built_model (length (floats σ)) (length (modules σ)) cfg) (built_state σ cfg).
Proof.
  unfold SimpleCNN_init.
  do 4 (erewrite bind_run; [|apply ConvLayer_init_run]; cbn [floats longs modules]).
  do 4 (erewrite bind_run; [|apply getitem_run; reflexivity]).
  unfold Linear_init, alloc_init, alloc_float, bind, ret.
  cbv beta iota. cbn [floats longs modules].
  unfold built_model, built_state, built_floats, built_layers, new_layer_floats.
  rewrite !length_app. cbn [length app].
  rewrite <- !app_assoc. cbn [app replicate].
  rewrite <- !Nat.add_assoc. cbn [Nat.add]. reflexivity.
Qed.

Lemma lookup_app_plus {A} (l1 l2 : list A) i : (l1 ++ l2) !! (length l1 + i) = l2 !! i.
Proof.
  rewrite lookup_app_r by lia. f_equal. lia.
Qed.

Lemma new_layer_ok σ fl fr ll lr ci co k s :
  floats σ = fl ++ new_layer_floats (length fl) ci co k ++ fr →
  longs σ = ll ++ Tensor [] [0%Z] :: lr →
  layer_ok σ (new_layer (length fl) (length ll) ci co k s) ci co k k.
Proof.
  intros Hf Hl. unfold new_layer, new_layer_floats in *.
  split; unfold has_shape; cbn [conv bn pool weight bias num_features bn_weight bn_bias
    running_mean running_var num_batches_tracked pool_kernel_size]; try done.
  - eexists. rewrite Hf. rewrite <- (Nat.add_0_r (length fl)) at 1.
    rewrite lookup_app_plus. by split.
  - rewrite Hf, lookup_app_plus. by eexists.
  - rewrite Hf, lookup_app_plus. by eexists.
  - rewrite Hf, lookup_app_plus. by eexists.
  - rewrite Hf, lookup_app_plus. by eexists.
  - rewrite Hf, lookup_app_plus. by eexists.
  - rewrite Hl. rewrite <- (Nat.add_0_r (length ll)).
    rewrite lookup_app_plus. by eexists.
Qed.

(** a stage object with its tensors in place, its stride [s] and the
    padding its constructor computes *)
Definition stage_ok σ (r ci co k s : nat) : Prop :=
  ∃ l, modules σ !! r = Some l ∧ layer_ok σ l ci co k k
       ∧ stride (conv l) = (s, s)
       ∧ padding (conv l) = (((s - 1) + k - 1) / 2, ((s - 1) + k - 1) / 2).

Lemma stage_ok_ext σ σ' r ci co k s :
  ext σ σ' → stage_ok σ r ci co k s → stage_ok σ' r ci co k s.
Proof.
  intros He (l & Hr & Hl & Hs & Hp). exists l.
  split_and!; eauto using layer_ok_ext, ext_modules.
Qed.

Lemma ConvLayer_init_ok ci co k s σ :
  stage_ok (State (floats σ ++ new_layer_floats (length (floats σ)) ci co k)
                  (longs σ ++ [Tensor [] [0%Z]])
                  (modules σ ++ [new_layer (length (floats σ)) (length (longs σ)) ci co k s]))
           (length (modules σ)) ci co k s.
Proof.
  eexists. split_and!.
  - simpl. by apply list_lookup_middle.
  - eapply (new_layer_ok _ _ [] _ []); simpl; by rewrite ?app_nil_r.
  - done.
  - done.
Qed.

(** the four stages and the classifier of a network for [cfg] *)
Record model_ok σ (m : SimpleCNN F) (cfg : Config) : Prop := {
  mo_layers : ∃ r1 r2 r3 r4,
    conv_layers m = [r1; r2; r3; r4]
    ∧ stage_ok σ r1 3 (conv1_channels cfg) (config_kernel_size cfg) 2
    ∧ stage_ok σ r2 (conv1_channels cfg) (conv2_channels cfg) (config_kernel_size cfg) 1
    ∧ stage_ok σ r3 (conv2_channels cfg) (conv3_channels cfg) (config_kernel_size cfg) 1
    ∧ stage_ok σ r4 (conv3_channels cfg) (conv4_channels cfg) (config_kernel_size cfg) 1;
  mo_fc_weight :
    has_shape σ (fc_weight (fc m)) [fc_units cfg; conv4_channels cfg * 7 * 7];
  mo_fc_bias : is_Some (floats σ !! fc_bias (fc m))
}.

Lemma model_ok_ext σ σ' m cfg : ext σ σ' → model_ok σ m cfg → model_ok σ' m cfg.
Proof.
  intros He [(r1 & r2 & r3 & r4 & ? & ? & ? & ? & ?) ? ?]. split.
  - exists r1, r2, r3, r4. split_and!; eauto using stage_ok_ext.
  - eauto using has_shape_ext.
  - eauto using is_Some_float_ext.
Qed.

Lemma built_stage_ok σ cfg fl fr ll lr ml mr ci co k s :
  floats (built_state σ cfg) = fl ++ new_layer_floats (length fl) ci co k ++ fr →
  longs (built_state σ cfg) = ll ++ Tensor [] [0%Z] :: lr →
  modules (built_state σ cfg) = ml ++ new_layer (length fl) (length ll) ci co k s :: mr →
  stage_ok (built_state σ cfg) (length ml) ci co k s.
Proof.
  intros Hf Hl Hm. eexists. split_and!.
  - rewrite Hm. by apply list_lookup_middle.
  - by eapply new_layer_ok.
  - done.
  - done.
Qed.

Lemma built_model_ok cfg σ :
  model_ok (built_state σ cfg) (built_model (length (floats σ)) (length (modules σ)) cfg) cfg.
Proof.
  split.
  - eexists _, _, _, _. split; [done|]. split_and!.
    + eapply (built_stage_ok _ _ (floats σ) _ (longs σ) _ (modules σ)); done.
    + replace (length (modules σ) + 1) with (length (modules σ ++ take 1
        (built_layers (length (floats σ)) (length (longs σ)) cfg)))
        by (rewrite length_app; done).
      eapply (built_stage_ok _ _
                (floats σ ++ take 6 (built_floats (length (floats σ)) cfg)) _
                (longs σ ++ replicate 1 (Tensor [] [0%Z])));
        unfold built_state; cbn [floats longs modules]; rewrite <- ?app_assoc;
        rewrite ?length_app; cbn [length]; reflexivity.
    + replace (length (modules σ) + 2) with (length (modules σ ++ take 2
        (built_layers (length (floats σ)) (length (longs σ)) cfg)))
        by (rewrite length_app; done).
      eapply (built_stage_ok _ _
                (floats σ ++ take 12 (built_floats (length (floats σ)) cfg)) _
                (longs σ ++ replicate 2 (Tensor [] [0%Z])));
        unfold built_state; cbn [floats longs modules]; rewrite <- ?app_assoc;
        rewrite ?length_app; cbn [length]; reflexivity.
    + replace (length (modules σ) + 3) with (length (modules σ ++ take 3
        (built_layers (length (floats σ)) (length (longs σ)) cfg)))
        by (rewrite length_app; done).
      eapply (built_stage_ok _ _
                (floats σ ++ take 18 (built_floats (length (floats σ)) cfg)) _
                (longs σ ++ replicate 3 (Tensor [] [0%Z])));
        unfold built_state; cbn [floats longs modules]; rewrite <- ?app_assoc;
        rewrite ?length_app; cbn [length]; reflexivity.
  - unfold has_shape, built_state, built_model. cbn [floats fc fc_weight].
    rewrite lookup_app_plus. eexists. split; reflexivity.
  - unfold built_state, built_model. cbn [floats fc fc_bias].
    rewrite lookup_app_plus. by eexists.
Qed.
End Construction.

(** * The padding of a stage *)

Section Padding.
Context {F : Type} `{Scalar F} `{Kernels F}.
Implicit Types σ : state F.

Lemma stage_forward σ r ci co k s x xt n h w :
  let p := ((s - 1) + k - 1) / 2 in
  stage_ok σ r ci co k s → 1 ≤ s →
  floats σ !! x = Some xt → shape xt = [n; ci; h; w] →
  k ≤ h + 2 * p → k ≤ w + 2 * p →
  2 ≤ conv_out h k s p → 2 ≤ conv_out w k s p →
  wp (ConvLayer_forward r x) σ (λ S σ',
    ext σ σ' ∧ length (floats σ) ≤ output S ∧
    ∃ pre ix pt,
      pre_pool S = Some pre ∧ pool_indices S = Some ix ∧
      floats σ' !! pre = Some pt ∧
      shape pt = [n; co; conv_out h k s p; conv_out w k s p] ∧
      floats σ' !! output S
        = Some (pool_values 2 n co (conv_out h k s p) (conv_out w k s p) (data pt)) ∧
      longs σ' !! ix
        = Some (pool_positions 2 n co (conv_out h k s p) (conv_out w k s p) (data pt))).
Proof.
  intros p (l & Hr & Hl & Hs & Hp) Hs1 Hx Hsx Hk1 Hk2 Hh Hw.
  pose proof (ConvLayer_forward_spec r x σ l xt n ci h w co k k Hr Hl Hx Hsx) as Hspec.
  rewrite Hs, Hp in Hspec. cbn [fst snd] in Hspec.
  apply Hspec; try done; lia.
Qed.

Lemma conv_out_same h k : Nat.Odd k → 1 ≤ h → conv_out h k 1 (((1 - 1) + k - 1) / 2) = h.
Proof.
  intros [j ->] Hh. unfold conv_out.
  replace ((1 - 1 + (2 * j + 1) - 1) / 2) with j.
  - rewrite Nat.div_1_r. lia.
  - replace (1 - 1 + (2 * j + 1) - 1) with (j * 2) by lia. by rewrite Nat.div_mul.
Qed.

(** C7: a [ConvLayer] is built with the zero-padding
    [((stride - 1) + kernel_size - 1) // 2] on both spatial axes (the
    floor of the integer quotient, for a stride and a kernel size of at
    least 1), and a stage built with stride 1 and an odd kernel size,
    run in any later store on an input of spatial size [h]x[w] large
    enough for the 2x2 pool, returns a layer state whose pre-pool tensor
    has spatial size [h]x[w] again. *)
Theorem ConvLayer_padding_keeps_size (ci co k s : nat) σ0 :
  ∃ σ1 l,
    ConvLayer_init ci co k s σ0 = Ok (length (modules σ0)) σ1
    ∧ modules σ1 !! length (modules σ0) = Some l
    ∧ stride (conv l) = (s, s)
    ∧ kernel_size (conv l) = (k, k)
    ∧ padding (conv l) = (((s - 1) + k - 1) / 2, ((s - 1) + k - 1) / 2)
    ∧ (1 ≤ s → 1 ≤ k →
       Z.of_nat (((s - 1) + k - 1) / 2) = ((Z.of_nat s - 1 + Z.of_nat k - 1) / 2)%Z)
    ∧ (s = 1 → Nat.Odd k →
       ∀ σ x xt n h w,
         ext σ1 σ → floats σ !! x = Some xt → shape xt = [n; ci; h; w] →
         2 ≤ h → 2 ≤ w →
         wp (ConvLayer_forward (length (modules σ0)) x) σ (λ S σ',
           ∃ pre pt, pre_pool S = Some pre ∧ floats σ' !! pre = Some pt
                     ∧ shape pt = [n; co; h; w])).
Proof.
  eexists _, _. split; [apply ConvLayer_init_run|].
  split; [simpl; by apply list_lookup_middle|].
  split; [done|]. split; [done|]. split; [done|]. split.
  - intros Hs Hk. rewrite Nat2Z.inj_div. f_equal. lia.
  - intros -> Hodd σ x xt n h w He Hx Hsx Hh Hw.
    pose proof (conv_out_same h k Hodd) as Eh.
    pose proof (conv_out_same w k Hodd) as Ew.
    assert (k ≤ 2 * ((1 - 1 + k - 1) / 2) + 1) as Hk.
    { destruct Hodd as [j ->].
      replace (1 - 1 + (2 * j + 1) - 1) with (j * 2) by lia.
      rewrite Nat.div_mul by done. lia. }
    eapply wp_mono.
    { eapply (stage_forward σ _ ci co k 1 x xt n h w); try done.
      - eapply stage_ok_ext; [done|]. apply ConvLayer_init_ok.
      - lia.
      - lia.
      - rewrite Eh; lia.
      - rewrite Ew; lia. }
    intros S σ' (_ & _ & pre & ix & pt & Hpre & _ & Hpt & Hspt & _).
    exists pre, pt. rewrite Eh, Ew in Hspt by lia. done.
Qed.
End Padding.

(** * The forward pass of the default network *)

Definition default_config : Config :=
  {| conv1_channels := 96; conv2_channels := 256; conv3_channels := 384;
     conv4_channels := 384; config_kernel_size := 7; fc_units := 1000 |}.

Section Forward.
Context {F : Type} `{Scalar F} `{Kernels F}.
Implicit Types σ : state F.

Lemma stage_shapes σ r ci co k s x n h w ho wo :
  stage_ok σ r ci co k s → 1 ≤ s →
  has_shape σ x [n; ci; h; w] →
  k ≤ h + 2 * (((s - 1) + k - 1) / 2) → k ≤ w + 2 * (((s - 1) + k - 1) / 2) →
  conv_out h k s (((s - 1) + k - 1) / 2) = ho →
  conv_out w k s (((s - 1) + k - 1) / 2) = wo →
  2 ≤ ho → 2 ≤ wo →
  wp (ConvLayer_forward r x) σ (λ S σ',
    ext σ σ' ∧ has_shape σ' (output S) [n; co; pool_out ho 2; pool_out wo 2]
    ∧ ∃ pre ix, pre_pool S = Some pre ∧ pool_indices S = Some ix
                ∧ has_shape σ' pre [n; co; ho; wo]
                ∧ (∃ it, longs σ' !! ix = Some it ∧ shape it = [n; co; pool_out ho 2; pool_out wo 2])).
Proof.
  intros Hst Hs (xt & Hx & Hsx) Hk1 Hk2 <- <- Hho Hwo.
  eapply wp_mono; [by eapply stage_forward|].
  intros S σ' (He & _ & pre & ix & pt & Hpre & Hix & Hpt & Hspt & Ho & Hi).
  split; [done|]. split; [by eexists|].
  exists pre, ix. split_and!; try done; by eexists.
Qed.

Lemma clone_spec x σ xt :
  floats σ !! x = Some xt →
  wp (clone x) σ (λ r σ', grows σ σ' ∧ r = length (floats σ) ∧ floats σ' !! r = Some xt).
Proof.
  intros Hx. unfold clone. wp_float Hx. apply wp_alloc_float.
  split; [|split; [done|by apply list_lookup_middle]].
  split; [by eexists|]. split; [|done]. exists []. by rewrite app_nil_r.
Qed.

Lemma view_flat_spec x σ xt n rest :
  floats σ !! x = Some xt → shape xt = n :: rest → n ≠ 0 →
  wp (view_flat x) σ (λ r σ',
    grows σ σ' ∧ floats σ' !! r = Some (Tensor [n; numel rest] (data xt))).
Proof.
  intros Hx Hs Hn. unfold view_flat. wp_float Hx. rewrite Hs.
  destruct (Nat.eqb_spec n 0) as [|_]; [done|].
  apply wp_alloc_float. split; [|by apply list_lookup_middle].
  split; [by eexists|]. split; [|done]. exists []. by rewrite app_nil_r.
Qed.

Lemma linear_spec l x σ xt wt bt n f o :
  floats σ !! x = Some xt → shape xt = [n; f] →
  floats σ !! fc_weight l = Some wt → shape wt = [o; f] →
  floats σ !! fc_bias l = Some bt →
  wp (linear l x) σ (λ r σ',
    grows σ σ' ∧ floats σ' !! r = Some (Tensor [n; o] (tabulate (n * o) (linear_at xt wt bt)))).
Proof.
  intros Hx Hsx Hw Hsw Hb. unfold linear.
  wp_float Hx. wp_float Hw. wp_float Hb. rewrite Hsx, Hsw, Nat.eqb_refl.
  apply wp_alloc_float. split; [|by apply list_lookup_middle].
  split; [by eexists|]. split; [|done]. exists []. by rewrite app_nil_r.
Qed.

(** what a layer state of [c] channels holds in store [σ]: a pooled
    output of spatial size [ho], the pre-pool tensor of spatial size
    [hp] and the recorded positions, one per output element *)
Definition state_shapes σ (S : LayerState) (n c hp ho : nat) : Prop :=
  has_shape σ (output S) [n; c; ho; ho]
  ∧ ∃ pre ix it, pre_pool S = Some pre ∧ pool_indices S = Some ix
                 ∧ has_shape σ pre [n; c; hp; hp]
                 ∧ longs σ !! ix = Some it ∧ shape it = [n; c; ho; ho].

Lemma state_shapes_ext σ σ' S n c hp ho :
  ext σ σ' → state_shapes σ S n c hp ho → state_shapes σ' S n c hp ho.
Proof.
  intros He (Ho & pre & ix & it & Hp & Hi & Hsp & Hit & Hsi).
  destruct (ext_longs _ _ He _ _ Hit) as (it' & Hit' & Hsi').
  split; [eauto using has_shape_ext|].
  exists pre, ix, it'. split_and!; eauto using has_shape_ext. congruence.
Qed.

Lemma default_stage σ r ci co s x n h ho :
  stage_ok σ r ci co 7 s → 1 ≤ s →
  has_shape σ x [n; ci; h; h] → 1 ≤ h →
  conv_out h 7 s (((s - 1) + 7 - 1) / 2) = ho → 2 ≤ ho →
  wp (ConvLayer_forward r x) σ (λ S σ',
    ext σ σ' ∧ state_shapes σ' S n co ho (pool_out ho 2)).
Proof.
  intros Hst Hs Hx Hh Eho Hho.
  assert (7 ≤ h + 2 * (((s - 1) + 7 - 1) / 2)).
  { assert (3 ≤ (s - 1 + 7 - 1) / 2); [|lia].
    apply Nat.div_le_lower_bound; lia. }
  eapply wp_mono; [by eapply stage_shapes|].
  intros S σ' (He & Ho & pre & ix & Hp & Hi & Hsp & it & Hit & Hsi).
  split; [done|]. split; [done|]. by exists pre, ix, it.
Qed.

(** C6, as amended for a batch that is not empty: on a network built
    for the default configuration, in any store that still holds its
    parameters with their shapes, [forward] on a batch of shape
    (N,3,224,224), N at least 1, returns a
    [ModelState]: the logits have shape (N,1000); there are exactly four
    layer states, in stage order (96, 256, 384 and 384 channels, pooled
    to 56, 28, 14 and 7, from pre-pool sizes 112, 56, 28 and 14);
    [features] is the tensor that was flattened, of shape (N,384,7,7),
    and the logits are the classifier applied to its flattening. *)
Theorem forward_default_shapes σ (m : SimpleCNN F) x xt N :
  model_ok σ m default_config →
  floats σ !! x = Some xt → shape xt = [N; 3; 224; 224] → 0 < N →
  ∃ ms σ',
    SimpleCNN_forward m x σ = Ok ms σ'
    ∧ has_shape σ' (logits ms) [N; fc_units default_config]
    ∧ (∃ S1 S2 S3 S4,
         layer_states ms = [S1; S2; S3; S4]
         ∧ state_shapes σ' S1 N 96 112 56
         ∧ state_shapes σ' S2 N 256 56 28
         ∧ state_shapes σ' S3 N 384 28 14
         ∧ state_shapes σ' S4 N 384 14 7)
    ∧ (∃ f ft v wt bt,
         features ms = Some f
         ∧ floats σ' !! f = Some ft ∧ shape ft = [N; 384; 7; 7]
         ∧ floats σ' !! v = Some (Tensor [N; 384 * 7 * 7] (data ft))
         ∧ floats σ' !! fc_weight (fc m) = Some wt
         ∧ floats σ' !! fc_bias (fc m) = Some bt
         ∧ floats σ' !! logits ms
           = Some (Tensor [N; 1000]
               (tabulate (N * 1000)
                  (linear_at (Tensor [N; 384 * 7 * 7] (data ft)) wt bt)))).
Proof.
  intros [(r1 & r2 & r3 & r4 & Hcl & St1 & St2 & St3 & St4) Hfw Hfb] Hx Hsx HN.
  cbn [default_config conv1_channels conv2_channels conv3_channels conv4_channels
       config_kernel_size fc_units] in *.
  apply wp_returns. unfold SimpleCNN_forward. rewrite Hcl.
  apply wp_bind. cbn [forward_loop].
  (* stage 1 *)
  apply wp_bind. eapply wp_mono.
  { eapply (default_stage σ r1 3 96 2 x N 224 112);
      [done|lia|by exists xt|lia|reflexivity|lia]. }
  intros S1 σ1 [E1 Sh1]. cbv beta.
  apply wp_bind. unfold _collect_layer_state at 1. rewrite Hcl. cbn [length Nat.eqb].
  apply wp_ret.
  (* stage 2 *)
  apply wp_bind. eapply wp_mono.
  { eapply (default_stage σ1 r2 96 256 1 (output S1) N 56 56);
      [by eapply stage_ok_ext|lia|apply Sh1|lia|reflexivity|lia]. }
  intros S2 σ2 [E2 Sh2]. cbv beta.
  apply wp_bind. unfold _collect_layer_state at 1. rewrite Hcl. cbn [length Nat.eqb].
  apply wp_ret.
  (* stage 3 *)
  apply wp_bind. eapply wp_mono.
  { eapply (default_stage σ2 r3 256 384 1 (output S2) N 28 28);
      [eauto using stage_ok_ext, ext_trans|lia|apply Sh2|lia|reflexivity|lia]. }
  intros S3 σ3 [E3 Sh3]. cbv beta.
  apply wp_bind. unfold _collect_layer_state at 1. rewrite Hcl. cbn [length Nat.eqb].
  apply wp_ret.
  (* stage 4, whose state keeps a clone of the output *)
  apply wp_bind. eapply wp_mono.
  { eapply (default_stage σ3 r4 384 384 1 (output S3) N 14 14);
      [eauto using stage_ok_ext, ext_trans|lia|apply Sh3|lia|reflexivity|lia]. }
  intros S4 σ4 [E4 Sh4]. cbv beta.
  destruct Sh4 as ((ft & Hf & Hsf) & pre4 & ix4 & it4 & Hp4 & Hi4 & Hsp4 & Hit4 & Hsi4).
  apply wp_bind. unfold _collect_layer_state at 1. rewrite Hcl. cbn [length Nat.eqb].
  apply wp_bind. eapply wp_mono; [by apply clone_spec|].
  intros c σ5 (G5 & _ & Hc). cbv beta. apply wp_ret. apply wp_ret.
  (* the classifier *)
  assert (ext σ σ4) as E04 by eauto using ext_trans.
  assert (ext σ σ5) as E05 by eauto using ext_trans, grows_ext.
  destruct (has_shape_ext _ _ _ _ E05 Hfw) as (wt & Hw & Hsw).
  destruct (is_Some_float_ext _ _ _ E05 Hfb) as [bt Hb].
  apply wp_bind. eapply wp_mono.
  { eapply view_flat_spec; [by eapply grows_float|exact Hsf|lia]. }
  intros v σ6 [G6 Hv]. cbv beta.
  apply wp_bind. eapply wp_mono.
  { eapply (linear_spec _ _ _ _ wt bt N (numel [384; 7; 7]) 1000);
      [exact Hv|done|by eapply grows_float|exact Hsw|by eapply grows_float]. }
  intros lg σ7 [G7 Hlg]. cbv beta. apply wp_ret.
  cbn [logits layer_states features].
  assert (grows σ5 σ7) as G57 by eauto using grows_trans.
  assert (ext σ4 σ7) as E47 by eauto using ext_trans, grows_ext.
  split; [by eexists|].
  split.
  { eexists _, _, _, _. split; [reflexivity|]. split_and!.
    - eapply state_shapes_ext; [|exact Sh1]. eauto using ext_trans.
    - eapply state_shapes_ext; [|exact Sh2]. eauto using ext_trans.
    - eapply state_shapes_ext; [|exact Sh3]. eauto using ext_trans.
    - split; cbn [output pre_pool pool_indices].
      + exists ft. split; [by eapply grows_float|done].
      + destruct (ext_longs _ _ E47 _ _ Hit4) as (it' & Hit' & Hsi').
        exists pre4, ix4, it'. split_and!; eauto using has_shape_ext.
        rewrite Hsi'. exact Hsi4. }
  exists (output S4), ft, v, wt, bt. split_and!; eauto using grows_float, grows_trans.
Qed.
End Forward.

(** * The deconvnet visualisation *)

Section Visualization.
Context {F : Type} `{Scalar F} `{Kernels F}.
Implicit Types σ : state F.

(** C8: for a layer index below 1 or above the number of stages,
    [deconv_visualization] raises [ValueError] in the very store it was
    called in: no tensor was allocated and no cell was written. *)
Theorem deconv_visualization_out_of_range (m : SimpleCNN F) fm ms (layer : Z) σ :
  (layer < 1 ∨ Z.of_nat (length (conv_layers m)) < layer)%Z →
  deconv_visualization m fm ms layer σ
  = Raise (ValueError ("Layer " +:+ pretty layer +:+ " not supported for visualization")) σ.
Proof.
  intros Hl. unfold deconv_visualization.
  destruct (Z.leb_spec 1 layer), (Z.leb_spec layer (Z.of_nat (length (conv_layers m))));
    try done; lia.
Qed.

Lemma bind_ext {A B} (m : M F A) (k k' : A → M F B) σ :
  (∀ a σ', k a σ' = k' a σ') → bind m k σ = bind m k' σ.
Proof. intros Hk. unfold bind. destruct (m σ); [apply Hk|done]. Qed.

(** the size of the pre-pool tensor of a layer state *)
Definition pre_pool_size (st : LayerState) : M F (list nat) :=
  match pre_pool st with
  | Some p => let! t := read_float p in ret (shape t)
  | None => raise AttributeError
  end.

(** Following the specification's words: to visualise stage [j], apply
    the DeconvStage paired with forward stage [j] to the layer state of
    stage [j] (entry [j-1] of the sequence), then proceed with stage
    [j-1], down to stage 1. *)
Fixpoint reverse_from (m : SimpleCNN F) (ms : ModelState) (j : nat) (x : nat) : M F nat :=
  match j with
  | 0 => ret x
  | S j' =>
    match conv_layers m !! j' with
    | Some c =>
      match layer_states ms !! j' with
      | Some st =>
        let! size := pre_pool_size st in
        let! x := DeconvLayer_forward (DeconvLayer_init c) x (pool_indices st) size in
        reverse_from m ms j' x
      | None => raise IndexError
      end
    | None => raise IndexError
    end
  end.

(** the DeconvStage at position [i] holds the ConvStage at the mirrored
    position *)
Definition mirrored (m : SimpleCNN F) : Prop :=
  deconv_layers m = DeconvLayer_init <$> reverse (conv_layers m).

Lemma mirrored_lookup (m : SimpleCNN F) i d :
  mirrored m → deconv_layers m !! i = Some d →
  i < length (conv_layers m)
  ∧ conv_layers m !! (length (conv_layers m) - 1 - i) = Some (conv_layer d)
  ∧ d = DeconvLayer_init (conv_layer d).
Proof.
  intros Hm Hd. rewrite Hm, list_lookup_fmap in Hd.
  destruct (reverse (conv_layers m) !! i) as [c|] eqn:Hc; [|done].
  injection Hd as <-.
  assert (i < length (conv_layers m)) as Hi.
  { apply lookup_lt_Some in Hc. by rewrite length_reverse in Hc. }
  rewrite reverse_lookup in Hc by done.
  split; [done|]. split; [|done].
  cbn [DeconvLayer_init conv_layer]. rewrite <- Hc. f_equal. lia.
Qed.

Lemma deconv_loop_mirrored (m : SimpleCNN F) ms j x σ :
  j ≤ length (conv_layers m) →
  deconv_loop m ms (Z.of_nat (length (conv_layers m) - j) + 1)
    (drop (length (conv_layers m) - j) (DeconvLayer_init <$> reverse (conv_layers m))) x σ
  = reverse_from m ms j x σ.
Proof.
  set (n := length (conv_layers m)).
  revert x σ. induction j as [|j IH]; intros x σ Hj.
  - rewrite Nat.sub_0_r, drop_ge; [done|].
    by rewrite length_fmap, length_reverse.
  - destruct (conv_layers m !! j) as [c|] eqn:Hc;
      [|apply lookup_ge_None in Hc; fold n in Hc; lia].
    assert ((DeconvLayer_init <$> reverse (conv_layers m)) !! (n - S j)
            = Some (DeconvLayer_init c)) as Hd.
    { rewrite list_lookup_fmap, reverse_lookup by (fold n; lia).
      fold n. replace (n - S (n - S j)) with j by lia. by rewrite Hc. }
    rewrite (drop_S _ _ _ Hd). cbn [deconv_loop reverse_from]. rewrite Hc.
    fold n. replace (S (n - S j)) with (n - j) by lia.
    replace (Z.of_nat n - (Z.of_nat (n - S j) + 1) + 1 - 1)%Z with (Z.of_nat j) by lia.
    replace (Z.of_nat (n - S j) + 1 + 1)%Z with (Z.of_nat (n - j) + 1)%Z by lia.
    unfold getitem, py_index.
    destruct (Z.leb_spec 0 (Z.of_nat j)); [|lia]. rewrite Nat2Z.id.
    destruct (layer_states ms !! j) as [st|]; [|done].
    unfold bind at 1, ret at 1. fold (pre_pool_size st).
    apply bind_ext. intros size σ1. apply bind_ext. intros x' σ2.
    apply IH. lia.
Qed.

Lemma deconv_visualization_mirrored (m : SimpleCNN F) fm ms (L : Z) σ :
  mirrored m → (1 ≤ L ≤ Z.of_nat (length (conv_layers m)))%Z →
  deconv_visualization m fm ms L σ = reverse_from m ms (Z.to_nat L) fm σ.
Proof.
  intros Hm HL. unfold deconv_visualization.
  destruct (Z.leb_spec 1 L); [|lia].
  destruct (Z.leb_spec L (Z.of_nat (length (conv_layers m)))); [|lia].
  cbn [andb negb].
  assert (length (deconv_layers m) = length (conv_layers m)) as Hlen.
  { by rewrite Hm, length_fmap, length_reverse. }
  rewrite Hlen. unfold py_slice_from.
  destruct (Z.leb_spec 0 (Z.of_nat (length (conv_layers m)) - L)); [|lia].
  rewrite Hm.
  replace (Z.to_nat (Z.of_nat (length (conv_layers m)) - L))
    with (length (conv_layers m) - Z.to_nat L) by lia.
  replace (Z.of_nat (length (conv_layers m)) - L)%Z
    with (Z.of_nat (length (conv_layers m) - Z.to_nat L)) by lia.
  apply deconv_loop_mirrored. lia.
Qed.

(** C2: the network [SimpleCNN.__init__] builds has four ConvStages and
    four DeconvStages, the DeconvStage at position [i] holding the
    ConvStage at position [3 - i]; and for every layer index [L] from 1
    to 4, [deconv_visualization] is the mirrored reversal of the
    specification: the DeconvStage of stage [L] on entry [L-1] of
    [layer_states], then that of stage [L-1] on entry [L-2], down to
    stage 1 on entry 0. *)
Theorem deconv_visualization_order (cfg : Config) σ0 :
  ∃ m σ1,
    SimpleCNN_init cfg σ0 = Ok m σ1
    ∧ length (conv_layers m) = 4 ∧ length (deconv_layers m) = 4
    ∧ (∀ i d, deconv_layers m !! i = Some d →
         i < 4 ∧ conv_layers m !! (4 - 1 - i) = Some (conv_layer d)
         ∧ d = DeconvLayer_init (conv_layer d))
    ∧ (∀ (L : Z) fm ms σ, (1 ≤ L ≤ 4)%Z →
         deconv_visualization m fm ms L σ = reverse_from m ms (Z.to_nat L) fm σ).
Proof.
  eexists _, _. split; [apply SimpleCNN_init_run|].
  set (m := built_model _ _ cfg).
  assert (mirrored m) as Hm by done.
  split; [done|]. split; [done|]. split.
  - intros i d Hd. by apply (mirrored_lookup m).
  - intros L fm ms σ HL. by apply deconv_visualization_mirrored.
Qed.
End Visualization.

(** * The states a forward pass returns *)

Section ForwardStates.
Context {F : Type} `{Scalar F} `{Kernels F}.
Implicit Types σ : state F.

(** One step per stage: stage number [i] consumes tensor [x] in store
    [σ]; the trace records, for each stage, the tensor it consumed, the
    [LayerState] the layer returned and the one that was collected. *)
Inductive stages (self : SimpleCNN F)
    : nat → list nat → nat → state F
      → list (nat * LayerState * LayerState) → nat → state F → Prop :=
  | stages_nil i x σ : stages self i [] x σ [] x σ
  | stages_cons i layer rest x σ lo σ1 ls σ2 tr xf σ3 :
      ConvLayer_forward layer x σ = Ok lo σ1 →
      _collect_layer_state self i lo σ1 = Ok ls σ2 →
      stages self (S i) rest (output lo) σ2 tr xf σ3 →
      stages self i (layer :: rest) x σ ((x, lo, ls) :: tr) xf σ3.

Lemma forward_loop_stages self i layers x acc σ xf lss σ' :
  forward_loop self i layers x acc σ = Ok (xf, lss) σ' ↔
  ∃ tr, stages self i layers x σ tr xf σ' ∧ lss = acc ++ tr.*2.
Proof.
  revert i x acc σ. induction layers as [|layer rest IH]; intros i x acc σ; simpl.
  - unfold ret. split.
    + intros [= <- <- <-]. exists []. split; [constructor|by rewrite app_nil_r].
    + intros (tr & Hst & ->). inversion Hst; subst. by rewrite app_nil_r.
  - rewrite bind_Ok. split.
    + intros (lo & σ1 & Hlo & Hk). apply bind_Ok in Hk as (ls & σ2 & Hls & Hk).
      apply IH in Hk as (tr & Hst & ->).
      exists ((x, lo, ls) :: tr). split; [by econstructor|].
      by rewrite <- app_assoc.
    + intros (tr & Hst & ->). inversion Hst; subst.
      eexists _, _. split; [done|]. apply bind_Ok. eexists _, _. split; [done|].
      apply IH. eexists. split; [done|]. by rewrite <- app_assoc.
Qed.

Lemma clone_Ok x σ c σ' :
  clone x σ = Ok c σ' →
  ∃ t, floats σ !! x = Some t ∧ c = length (floats σ)
       ∧ σ' = State (floats σ ++ [t]) (longs σ) (modules σ).
Proof.
  unfold clone. intros (t & σ1 & [Hx ->]%read_float_Ok & Ha)%bind_Ok.
  injection Ha as <- <-. by exists t.
Qed.

Lemma alloc_float_grows t σ r σ' : alloc_float t σ = Ok r σ' → grows σ σ'.
Proof.
  intros [= <- <-]. split; [by eexists|]. split; [|done]. exists []. by rewrite app_nil_r.
Qed.

Lemma view_flat_grows x σ r σ' : view_flat x σ = Ok r σ' → grows σ σ'.
Proof.
  unfold view_flat. intros (t & σ1 & [Hx ->]%read_float_Ok & Ha)%bind_Ok.
  destruct (shape t) as [|n rest]; [done|].
  destruct (n =? 0); [done|]. by eapply alloc_float_grows.
Qed.

Lemma linear_grows l x σ r σ' : linear l x σ = Ok r σ' → grows σ σ'.
Proof.
  unfold linear. intros (t & σ1 & [Hx ->]%read_float_Ok & Ha)%bind_Ok.
  apply bind_Ok in Ha as (wt & σ1 & [Hw ->]%read_float_Ok & Ha).
  apply bind_Ok in Ha as (bt & σ1 & [Hb ->]%read_float_Ok & Ha).
  repeat case_match; try done. by eapply alloc_float_grows.
Qed.

Lemma stages_length self i layers x σ tr xf σ' :
  stages self i layers x σ tr xf σ' → length tr = length layers.
Proof. induction 1; simpl; congruence. Qed.

(** along the trace: a stage that is not the last one is collected as
    it was returned, and the next stage consumes its output; the last
    one is collected with a clone of its output *)
Lemma stages_links self i layers x σ tr xf σ' :
  stages self i layers x σ tr xf σ' →
  i + length layers = S (length (conv_layers self)) →
  (∀ k xi lo ls xi' lo' ls',
     tr !! k = Some (xi, lo, ls) → tr !! S k = Some (xi', lo', ls') →
     ls = lo ∧ xi' = output ls)
  ∧ (∀ xi lo ls, last tr = Some (xi, lo, ls) →
       xf = output lo
       ∧ pre_pool ls = pre_pool lo ∧ pool_indices ls = pool_indices lo
       ∧ output ls ≠ output lo
       ∧ ∃ t, floats σ' !! output lo = Some t ∧ floats σ' !! output ls = Some t)
  ∧ (tr = [] → xf = x).
Proof.
  induction 1 as [|i layer rest x σ lo σ1 ls σ2 tr xf σ3 Hlo Hls Hst IH]; intros Hi.
  - split; [by intros []|]. split; [done|done].
  - simpl in Hi. destruct IH as (IH1 & IH2 & IH3); [lia|].
    split; [|split; [|done]].
    + intros [|k] xi lo0 ls0 xi' lo' ls' Hk HSk; simpl in *.
      * injection Hk as <- <- <-.
        assert (rest ≠ []) as Hrest.
        { intros ->. inversion Hst; subst. done. }
        unfold _collect_layer_state in Hls.
        destruct (Nat.eqb_spec i (length (conv_layers self))) as [->|_].
        { destruct rest; [done|]. simpl in Hi. lia. }
        injection Hls as <- <-.
        split; [done|]. inversion Hst; subst; simpl in HSk; [done|]. congruence.
      * eauto.
    + intros xi lo0 ls0 Hlast. destruct tr as [|e tr].
      * simpl in Hlast. injection Hlast as <- <- <-.
        inversion Hst; subst. simpl in Hi.
        unfold _collect_layer_state in Hls.
        destruct (Nat.eqb_spec i (length (conv_layers self))) as [_|]; [|lia].
        apply bind_Ok in Hls as (c & σc & Hc & Hret). injection Hret as <- <-.
        apply clone_Ok in Hc as (t & Hx & -> & ->). simpl.
        split_and!; try done.
        -- apply lookup_lt_Some in Hx. lia.
        -- exists t. split; [by apply lookup_app_l_Some|by apply list_lookup_middle].
      * rewrite last_cons_cons in Hlast. eauto.
Qed.

(** C10: whenever [forward] returns a [ModelState], the run is a chain
    of stage steps whose collected states are [layer_states]; [features]
    is present, so [final_features] returns it and never falls back;
    every stage but the last is collected as the layer returned it and
    its output is the very tensor the next stage consumes; the last
    stage's collected state holds a fresh cell with the same contents as
    the layer's output, which is [features], while its [pre_pool] and
    [pool_indices] are the layer's own references. *)
Theorem forward_states (m : SimpleCNN F) x σ ms σ' :
  SimpleCNN_forward m x σ = Ok ms σ' →
  ∃ tr xf σ2,
    stages m 1 (conv_layers m) x σ tr xf σ2
    ∧ layer_states ms = tr.*2
    ∧ features ms = Some xf ∧ final_features ms = Some xf
    ∧ (∀ k xi lo ls xi' lo' ls',
         tr !! k = Some (xi, lo, ls) → tr !! S k = Some (xi', lo', ls') →
         ls = lo ∧ xi' = output ls)
    ∧ (∀ xi lo ls, last tr = Some (xi, lo, ls) →
         xf = output lo
         ∧ pre_pool ls = pre_pool lo ∧ pool_indices ls = pool_indices lo
         ∧ output ls ≠ output lo
         ∧ ∃ t, floats σ' !! output lo = Some t ∧ floats σ' !! output ls = Some t).
Proof.
  unfold SimpleCNN_forward. intros Hrun.
  apply bind_Ok in Hrun as ([xf lss] & σ2 & Hloop & Hrest).
  apply forward_loop_stages in Hloop as (tr & Hst & ->).
  apply bind_Ok in Hrest as (v & σ3 & Hv & Hrest).
  apply bind_Ok in Hrest as (lg & σ4 & Hlg & Hret).
  injection Hret as <- <-. cbn [layer_states features].
  apply view_flat_grows in Hv. apply linear_grows in Hlg.
  assert (grows σ2 σ4) as G by eauto using grows_trans.
  destruct (stages_links _ _ _ _ _ _ _ _ Hst) as (L1 & L2 & _).
  { apply stages_length in Hst. simpl. lia. }
  exists tr, xf, σ2. split_and!; try done.
  intros xi lo ls Hlast. destruct (L2 _ _ _ Hlast) as (? & ? & ? & ? & t & ? & ?).
  split_and!; try done. exists t. eauto using grows_float.
Qed.
End ForwardStates.


(** * Reversing the pooling of a stage *)

Section ListFacts.
Context {A : Type}.
Implicit Types l : list A.

Lemma lookup_concat_uniform (ls : list (list A)) m pl p :
  Forall (λ l, length l = m) ls → p < m →
  concat ls !! (pl * m + p) = ls !! pl ≫= (λ l, l !! p).
Proof.
  intros Hall Hp. revert pl. induction Hall as [|l ls Hl Hall IH]; intros pl.
  - by rewrite !lookup_nil.
  - destruct pl as [|pl]; simpl.
    + rewrite lookup_app_l by lia. done.
    + rewrite lookup_app_r by lia. rewrite <- IH. f_equal. lia.
Qed.

Lemma length_concat_uniform (ls : list (list A)) m :
  Forall (λ l, length l = m) ls → length (concat ls) = length ls * m.
Proof.
  induction 1 as [|l ls Hl Hall IH]; simpl; [done|].
  rewrite length_app. lia.
Qed.

Lemma lookup_chunks n m l pl :
  pl < n → chunks n m l !! pl = Some (take m (drop (pl * m) l)).
Proof. intros Hpl. unfold chunks. by rewrite lookup_tabulate. Qed.

Lemma length_chunks n m l : length (chunks n m l) = n.
Proof. apply length_tabulate. Qed.

Lemma lookup_chunk m l pl r :
  r < m → take m (drop (pl * m) l) !! r = l !! (pl * m + r).
Proof. intros Hr. by rewrite lookup_take_lt, lookup_drop. Qed.
End ListFacts.

Section Unpool.
Context {F : Type} `{Scalar F} `{Kernels F}.
Implicit Types σ : state F.

Lemma unpool_fold hw (vis : list (F * Z)) (acc : list F) :
  length acc = hw →
  Forall (λ vi, (0 ≤ vi.2 < Z.of_nat hw)%Z) vis →
  ∃ out,
    foldl (λ acc vi,
             out ← acc;
             if (0 <=? vi.2)%Z && (vi.2 <? Z.of_nat hw)%Z
             then Some (<[Z.to_nat vi.2 := vi.1]> out) else None)
          (Some acc) vis = Some out
    ∧ length out = hw
    ∧ (∀ p, (∀ k vi, vis !! k = Some vi → Z.to_nat vi.2 ≠ p) → out !! p = acc !! p)
    ∧ (NoDup vis.*2 → ∀ k vi, vis !! k = Some vi → out !! Z.to_nat vi.2 = Some vi.1).
Proof.
  intros Hlen Hall. revert acc Hlen.
  induction Hall as [|[v z] vis [Hz1 Hz2] Hall IH]; intros acc Hlen.
  - exists acc. split_and!; try done.
  - simpl in *.
    destruct (Z.leb_spec 0 z); [|lia]. destruct (Z.ltb_spec z (Z.of_nat hw)); [|lia].
    simpl.
    destruct (IH (<[Z.to_nat z := v]> acc)) as (out & Hfold & Hl & Hother & Hsel).
    { by rewrite length_insert. }
    exists out. split_and!; try done.
    + intros p Hp. rewrite Hother.
      * apply list_lookup_insert_ne. exact (Hp 0 (v, z) eq_refl).
      * intros k vi Hk. exact (Hp (S k) vi Hk).
    + intros Hnd k vi Hk. apply NoDup_cons in Hnd as [Hnotin Hnd].
      destruct k as [|k]; simpl in Hk.
      * injection Hk as <-. simpl. rewrite Hother.
        -- apply list_lookup_insert_eq. simpl. lia.
        -- intros k [v' z'] Hk Heq. simpl in Heq. apply Hnotin.
           pose proof (Forall_lookup_1 _ _ _ _ Hall Hk) as [Hz' _]. simpl in Hz'.
           assert (z' = z) as -> by lia.
           apply list_elem_of_fmap. exists (v', z). split; [done|].
           by eapply list_elem_of_lookup_2.
      * by eapply Hsel.
Qed.

Lemma pool_argmax_in (plane : nat → F) p0 rest :
  pool_argmax plane (p0 :: rest) ∈ p0 :: rest.
Proof.
  simpl. revert p0. induction rest as [|p rest IH]; intros p0; simpl.
  - apply list_elem_of_here.
  - destruct (fgt (plane p) (plane p0) || fisnan (plane p)).
    + apply list_elem_of_further, IH.
    + specialize (IH p0). apply elem_of_cons in IH as [->|?].
      * apply list_elem_of_here.
      * by do 2 apply list_elem_of_further.
Qed.

Lemma pool_out_2 h : 2 ≤ h → 0 < pool_out h 2 ∧ 2 * pool_out h 2 ≤ h < 2 * pool_out h 2 + 2.
Proof.
  intros Hh. unfold pool_out. destruct (Nat.ltb_spec h 2); [lia|].
  pose proof (Nat.div_mod_eq (h - 2) 2).
  pose proof (Nat.mod_upper_bound (h - 2) 2). lia.
Qed.

Lemma half_of a i : a < 2 → (2 * i + a) / 2 = i.
Proof. intros Ha. symmetry. apply (Nat.div_unique _ 2 i a); lia. Qed.

(** the recorded position lies in the plane, inside the window of its
    output location *)
Lemma pool_pick_spec h w ho wo (d : list F) q :
  0 < ho → 0 < wo → 2 * ho ≤ h → 2 * wo ≤ w →
  let p := pool_pick 2 h w ho wo d q in
  p < h * w
  ∧ p / w / 2 = (q `mod` (ho * wo)) / wo
  ∧ (p `mod` w) / 2 = (q `mod` (ho * wo)) `mod` wo.
Proof.
  intros Hho Hwo Hh Hw p. subst p. unfold pool_pick.
  set (r := q `mod` (ho * wo)). set (i := r / wo). set (j := r `mod` wo).
  assert (r < ho * wo) as Hr by (apply Nat.mod_upper_bound; lia).
  assert (i < ho) as Hi by (apply Nat.Div0.div_lt_upper_bound; lia).
  assert (j < wo) as Hj by (apply Nat.mod_upper_bound; lia).
  set (plane := λ p, at_ d (q / (ho * wo) * (h * w) + p)).
  pose proof (pool_argmax_in plane ((2 * i + 0) * w + (2 * j + 0))
    [(2 * i + 0) * w + (2 * j + 1); (2 * i + 1) * w + (2 * j + 0);
     (2 * i + 1) * w + (2 * j + 1)]) as Hin.
  change (window 2 w i j) with
    [(2 * i + 0) * w + (2 * j + 0); (2 * i + 0) * w + (2 * j + 1);
     (2 * i + 1) * w + (2 * j + 0); (2 * i + 1) * w + (2 * j + 1)].
  set (p := pool_argmax plane _) in *.
  assert (∃ a b, a < 2 ∧ b < 2 ∧ p = (2 * i + a) * w + (2 * j + b)) as (a & b & Ha & Hb & ->).
  { rewrite !elem_of_cons, elem_of_nil in Hin.
    destruct Hin as [->|[->|[->|[->|[]]]]];
      [exists 0, 0|exists 0, 1|exists 1, 0|exists 1, 1]; split_and!; lia. }
  assert (2 * j + b < w) as Hc by lia.
  assert (((2 * i + a) * w + (2 * j + b)) / w = 2 * i + a) as Ediv.
  { symmetry. apply (Nat.div_unique _ w _ (2 * j + b)); lia. }
  assert (((2 * i + a) * w + (2 * j + b)) `mod` w = 2 * j + b) as Emod.
  { symmetry. apply (Nat.mod_unique _ w (2 * i + a)); lia. }
  rewrite Ediv, Emod, !half_of by done. split_and!; try done.
  assert ((2 * i + a) * w + w ≤ h * w); [|lia].
  replace ((2 * i + a) * w + w) with ((2 * i + a + 1) * w) by lia.
  apply Nat.mul_le_mono_r. lia.
Qed.

Lemma unpool_plane_spec M m (vals : list F) (inds : list Z) (pick : nat → nat) :
  length vals = m → length inds = m →
  (∀ k, k < m → inds !! k = Some (Z.of_nat (pick k))) →
  (∀ k, k < m → pick k < M) →
  (∀ k1 k2, k1 < m → k2 < m → pick k1 = pick k2 → k1 = k2) →
  ∃ out,
    unpool_plane M vals inds = Some out ∧ length out = M
    ∧ (∀ k, k < m → out !! pick k = vals !! k)
    ∧ (∀ p, p < M → (∀ k, k < m → p ≠ pick k) → out !! p = Some fzero).
Proof.
  intros Hv Hi Hinds Hlt Hinj. unfold unpool_plane.
  assert (∀ k vi, zip vals inds !! k = Some vi →
                  k < m ∧ vals !! k = Some vi.1 ∧ vi.2 = Z.of_nat (pick k)) as Hzip.
  { intros k [v z] [Hk1 Hk2]%lookup_zip_Some.
    assert (k < m) as Hk by (apply lookup_lt_Some in Hk1; lia).
    rewrite (Hinds k Hk) in Hk2. injection Hk2 as <-. done. }
  destruct (unpool_fold M (zip vals inds) (replicate M fzero))
    as (out & Hfold & Hlen & Hother & Hsel).
  { apply length_replicate. }
  { apply Forall_lookup. intros k vi Hk.
    destruct (Hzip k vi Hk) as (Hkm & _ & ->). specialize (Hlt k Hkm). lia. }
  exists out. split_and!; try done.
  - intros k Hk.
    destruct (lookup_lt_is_Some_2 vals k) as [v Hvk]; [lia|].
    rewrite Hvk. rewrite <- (Nat2Z.id (pick k)).
    apply (Hsel) with (k := k) (vi := (v, Z.of_nat (pick k))).
    + apply NoDup_alt. intros k1 k2 z Hk1 Hk2.
      rewrite list_lookup_fmap in Hk1, Hk2.
      destruct (zip vals inds !! k1) as [vi1|] eqn:E1; [|done].
      destruct (zip vals inds !! k2) as [vi2|] eqn:E2; [|done].
      destruct (Hzip _ _ E1) as (? & _ & Hz1). destruct (Hzip _ _ E2) as (? & _ & Hz2).
      simpl in Hk1, Hk2. injection Hk1 as Hk1. injection Hk2 as Hk2.
      apply Hinj; try done. lia.
    + apply lookup_zip_Some. split; [done|]. by apply Hinds.
  - intros p Hp Hnot. rewrite Hother; [by apply lookup_replicate_2|].
    intros k vi Hk. destruct (Hzip k vi Hk) as (Hkm & _ & ->).
    rewrite Nat2Z.id. intros Heq. by apply (Hnot k).
Qed.

Lemma mod_block pl m k : k < m → (pl * m + k) `mod` m = k.
Proof. intros Hk. symmetry. apply (Nat.mod_unique _ m pl); lia. Qed.

Lemma div_block pl m k : k < m → (pl * m + k) / m = pl.
Proof. intros Hk. symmetry. apply (Nat.div_unique _ m pl k); lia. Qed.

Lemma block_bound pl n m k : pl < n → k < m → pl * m + k < n * m.
Proof.
  intros Hpl Hk. assert (pl * m + m ≤ n * m); [|lia].
  replace (pl * m + m) with ((pl + 1) * m) by lia. apply Nat.mul_le_mono_r. lia.
Qed.

(** unpooling the recorded positions of a pooled [n;c;h;w] tensor *)
Lemma max_unpool2d_spec u x ix σ vt (pd : list F) n c h w :
  unpool_kernel_size u = 2 → unpool_stride u = 2 →
  2 ≤ h → 2 ≤ w →
  floats σ !! x = Some vt →
  shape vt = [n; c; pool_out h 2; pool_out w 2] →
  length (data vt) = n * c * (pool_out h 2 * pool_out w 2) →
  longs σ !! ix = Some (pool_positions 2 n c h w pd) →
  ∃ ut,
    max_unpool2d u x ix [n; c; h; w] σ
    = Ok (length (floats σ)) (State (floats σ ++ [ut]) (longs σ) (modules σ))
    ∧ shape ut = [n; c; h; w]
    ∧ length (data ut) = n * c * (h * w)
    ∧ (∀ q, q < n * c * (pool_out h 2 * pool_out w 2) →
         data ut !! (q / (pool_out h 2 * pool_out w 2) * (h * w)
                     + pool_pick 2 h w (pool_out h 2) (pool_out w 2) pd q)
         = data vt !! q)
    ∧ (∀ o, o < n * c * (h * w) →
         (∀ q, q < n * c * (pool_out h 2 * pool_out w 2) →
            o ≠ q / (pool_out h 2 * pool_out w 2) * (h * w)
                + pool_pick 2 h w (pool_out h 2) (pool_out w 2) pd q) →
         data ut !! o = Some fzero).
Proof.
  intros Hk Hs Hh Hw Hx Hsv Hlv Hix.
  destruct (pool_out_2 h Hh) as (Hho & Hh1 & Hh2).
  destruct (pool_out_2 w Hw) as (Hwo & Hw1 & Hw2).
  set (ho := pool_out h 2) in *. set (wo := pool_out w 2) in *.
  set (pick := pool_pick 2 h w ho wo pd).
  set (m := ho * wo) in *. set (M := h * w).
  assert (0 < m) as Hm by (unfold m; nia).
  (* every plane is scattered without failure *)
  assert (∀ pl, pl < n * c →
    ∃ out,
      unpool_plane M (take m (drop (pl * m) (data vt)))
        (take m (drop (pl * m) (data (pool_positions 2 n c h w pd)))) = Some out
      ∧ length out = M
      ∧ (∀ k, k < m → out !! pick (pl * m + k) = data vt !! (pl * m + k))
      ∧ (∀ p, p < M → (∀ k, k < m → p ≠ pick (pl * m + k)) → out !! p = Some fzero))
    as Hplane.
  { intros pl Hpl.
    destruct (unpool_plane_spec M m (take m (drop (pl * m) (data vt)))
                (take m (drop (pl * m) (data (pool_positions 2 n c h w pd))))
                (λ k, pick (pl * m + k))) as (out & Hout & Hlen & Hsel & Hzero).
    - rewrite length_take_le; [done|]. rewrite length_drop, Hlv.
      pose proof (block_bound pl (n * c) m (m - 1) Hpl ltac:(lia)). lia.
    - rewrite length_take_le; [done|]. rewrite length_drop.
      cbn [data pool_positions]. rewrite length_tabulate. fold ho wo.
      replace (n * c * ho * wo) with (n * c * m) by (unfold m; lia).
      pose proof (block_bound pl (n * c) m (m - 1) Hpl ltac:(lia)). lia.
    - intros k Hkm. rewrite lookup_chunk by done.
      cbn [data pool_positions]. fold ho wo. rewrite lookup_tabulate; [done|].
      replace (n * c * ho * wo) with (n * c * m) by (unfold m; lia).
      by apply block_bound.
    - intros k Hkm. apply pool_pick_spec; lia.
    - intros k1 k2 Hk1 Hk2 Heq. cbv beta in Heq.
      destruct (pool_pick_spec h w ho wo pd (pl * m + k1)) as (_ & D1 & M1); [lia..|].
      destruct (pool_pick_spec h w ho wo pd (pl * m + k2)) as (_ & D2 & M2); [lia..|].
      fold pick m in D1, M1, D2, M2. rewrite Heq in D1, M1.
      rewrite mod_block in D1, M1, D2, M2 by done.
      rewrite (Nat.div_mod_eq k1 wo), (Nat.div_mod_eq k2 wo). congruence.
    - exists out. split_and!; try done.
      intros k Hkm. rewrite Hsel by done. by apply lookup_chunk. }
  (* the run *)
  unfold max_unpool2d.
  rewrite (bind_run _ _ _ _ _ (read_float_run _ _ _ Hx)).
  rewrite (bind_run _ _ _ _ _ (read_long_run _ _ _ Hix)).
  rewrite Hsv. cbn [length Nat.eqb drop].
  assert (unpool_size_ok u ho h = true) as ->.
  { unfold unpool_size_ok. rewrite Hk, Hs. apply andb_true_intro.
    split; apply Z.ltb_lt; lia. }
  assert (unpool_size_ok u wo w = true) as ->.
  { unfold unpool_size_ok. rewrite Hk, Hs. apply andb_true_intro.
    split; apply Z.ltb_lt; lia. }
  cbn [andb negb]. rewrite bool_decide_eq_true_2 by done. cbn [negb].
  fold m M.
  destruct (mapM_is_Some_2
              (λ vi : list F * list Z, unpool_plane M vi.1 vi.2)
              (zip (chunks (n * c) m (data vt))
                   (chunks (n * c) m (data (pool_positions 2 n c h w pd)))))
    as [planes Hplanes].
  { apply Forall_lookup. intros pl [vs is_] [Hv Hi]%lookup_zip_Some.
    assert (pl < n * c) as Hpl.
    { apply lookup_lt_Some in Hv. by rewrite length_chunks in Hv. }
    rewrite lookup_chunks in Hv by done. rewrite lookup_chunks in Hi by done.
    injection Hv as <-. injection Hi as <-.
    destruct (Hplane pl Hpl) as (out & Hout & _). by exists out. }
  rewrite Hplanes.
  apply mapM_Some_1 in Hplanes as Hall.
  assert (length planes = n * c) as Hlp.
  { apply Forall2_length in Hall. rewrite length_zip, !length_chunks in Hall. lia. }
  assert (∀ pl, pl < n * c →
    ∃ out, planes !! pl = Some out ∧ length out = M
      ∧ (∀ k, k < m → out !! pick (pl * m + k) = data vt !! (pl * m + k))
      ∧ (∀ p, p < M → (∀ k, k < m → p ≠ pick (pl * m + k)) → out !! p = Some fzero))
    as Hget.
  { intros pl Hpl.
    destruct (Hplane pl Hpl) as (out & Hout & Hprops).
    destruct (lookup_lt_is_Some_2 planes pl) as [out' Hout']; [lia|].
    assert (zip (chunks (n * c) m (data vt))
                (chunks (n * c) m (data (pool_positions 2 n c h w pd))) !! pl
            = Some (take m (drop (pl * m) (data vt)),
                    take m (drop (pl * m) (data (pool_positions 2 n c h w pd))))) as Hz.
    { apply lookup_zip_Some. by rewrite !lookup_chunks. }
    pose proof (Forall2_lookup_lr _ _ _ _ _ _ Hall Hz Hout') as Heq. cbn [fst snd] in Heq.
    assert (out' = out) as -> by congruence. by exists out. }
  assert (Forall (λ l, length l = M) planes) as Huni.
  { apply Forall_lookup. intros pl out Hout.
    assert (pl < n * c) as Hpl by (apply lookup_lt_Some in Hout; lia).
    destruct (Hget pl Hpl) as (out' & Hout' & Hlen & _). congruence. }
  eexists. split; [reflexivity|]. cbn [shape data].
  split; [done|]. split; [|split].
  - rewrite (length_concat_uniform _ M) by done. by rewrite Hlp.
  - intros q Hq.
    assert (q / m < n * c) as Hpl by (apply Nat.Div0.div_lt_upper_bound; lia).
    destruct (Hget _ Hpl) as (out & Hout & Hlen & Hsel & _).
    assert (q `mod` m < m) as Hkm by (apply Nat.mod_upper_bound; lia).
    assert (q = q / m * m + q `mod` m) as Eq.
    { rewrite (Nat.div_mod_eq q m) at 1. lia. }
    rewrite lookup_concat_uniform; [|done|].
    + rewrite Hout. simpl. specialize (Hsel _ Hkm). rewrite <- Eq in Hsel. done.
    + apply pool_pick_spec; lia.
  - intros o Ho Hnot.
    assert (o / M < n * c) as Hpl by (apply Nat.Div0.div_lt_upper_bound; lia).
    destruct (Hget _ Hpl) as (out & Hout & Hlen & _ & Hzero).
    assert (0 < M) as HM by (unfold M; nia).
    assert (o `mod` M < M) as Hp by (apply Nat.mod_upper_bound; lia).
    assert (o = o / M * M + o `mod` M) as Eo.
    { rewrite (Nat.div_mod_eq o M) at 1. lia. }
    rewrite Eo, lookup_concat_uniform by done. rewrite Hout. simpl.
    apply Hzero; [done|]. intros k Hkm Heq.
    apply (Hnot (o / M * m + k)).
    + by apply block_bound.
    + rewrite div_block by done. rewrite <- Heq. done.
Qed.

(** [wf] is [wt] with both spatial axes reversed *)
Definition flipped (wt wf : tensor F) : Prop :=
  shape wf = shape wt
  ∧ ∀ d0 d1 d2 d3, shape wt = [d0; d1; d2; d3] →
      length (data wf) = d0 * d1 * d2 * d3
      ∧ ∀ o i a b, o < d0 → i < d1 → a < d2 → b < d3 →
          data wf !! (((o * d1 + i) * d2 + a) * d3 + b)
          = Some (at_ (data wt) (((o * d1 + i) * d2 + (d2 - 1 - a)) * d3 + (d3 - 1 - b))).

Lemma flip_2_3_spec x σ wt :
  floats σ !! x = Some wt → length (shape wt) = 4 →
  ∃ wf, flip_2_3 x σ = Ok (length (floats σ)) (State (floats σ ++ [wf]) (longs σ) (modules σ))
        ∧ flipped wt wf.
Proof.
  intros Hx Hlen. unfold flip_2_3.
  rewrite (bind_run _ _ _ _ _ (read_float_run _ _ _ Hx)).
  destruct (shape wt) as [|d0 [|d1 [|d2 [|d3 [|]]]]] eqn:Hs; try done.
  eexists. split; [reflexivity|]. split; [done|].
  intros e0 e1 e2 e3 Heq. rewrite Hs in Heq. injection Heq as <- <- <- <-.
  cbn [data]. split; [apply length_tabulate|].
  intros o i a b Ho Hi Ha Hb.
  set (q := ((o * d1 + i) * d2 + a) * d3 + b).
  assert (q < d0 * d1 * d2 * d3) as Hq.
  { unfold q. apply block_bound; [|done]. apply block_bound; [|done].
    by apply block_bound. }
  rewrite lookup_tabulate by done. f_equal.
  assert (q `mod` d3 = b) as -> by (by apply mod_block).
  assert (q / d3 = (o * d1 + i) * d2 + a) as -> by (by apply div_block).
  rewrite mod_block by done.
  assert (q / (d2 * d3) = o * d1 + i) as ->; [|done].
  replace q with ((o * d1 + i) * (d2 * d3) + (a * d3 + b)) by (unfold q; lia).
  apply div_block. by apply block_bound.
Qed.

(** what a returned [ConvLayer.forward] has left in the store *)
Lemma ConvLayer_forward_Ok self x σ st σ' :
  ConvLayer_forward self x σ = Ok st σ' →
  ∃ l pre pt n c h w,
    modules σ !! self = Some l
    ∧ pre_pool st = Some pre ∧ pool_indices st = Some (length (longs σ') - 1)
    ∧ floats σ' !! pre = Some pt ∧ shape pt = [n; c; h; w]
    ∧ pool_out h (pool_kernel_size (pool l)) ≠ 0
    ∧ pool_out w (pool_kernel_size (pool l)) ≠ 0
    ∧ floats σ' !! output st = Some (pool_values (pool_kernel_size (pool l)) n c h w (data pt))
    ∧ longs σ' !! (length (longs σ') - 1)
      = Some (pool_positions (pool_kernel_size (pool l)) n c h w (data pt)).
Proof.
  unfold ConvLayer_forward.
  intros (l & σ1 & [Hl ->]%read_module_Ok & Hrun)%bind_Ok.
  apply bind_Ok in Hrun as (x1 & σ1 & _ & Hrun).
  apply bind_Ok in Hrun as (x2 & σ2 & _ & Hrun).
  apply bind_Ok in Hrun as (x3 & σ3 & _ & Hrun).
  apply bind_Ok in Hrun as ([o ix] & σ4 & Hpool & Hret).
  injection Hret as <- <-.
  unfold max_pool2d in Hpool.
  apply bind_Ok in Hpool as (pt & σ5 & [Hpt ->]%read_float_Ok & Hpool).
  destruct (shape pt) as [|n [|c [|h [|w [|]]]]] eqn:Hs; try done.
  destruct (pool_kernel_size (pool l) =? 0); [done|].
  destruct (Nat.eqb_spec (pool_out h (pool_kernel_size (pool l))) 0); [done|].
  destruct (Nat.eqb_spec (pool_out w (pool_kernel_size (pool l))) 0); [done|].
  cbn [orb] in Hpool.
  unfold bind, alloc_float, alloc_long, ret in Hpool. cbn [floats longs modules] in Hpool.
  injection Hpool as <- <- <-.
  exists l, x3, pt, n, c, h, w. cbn [output pre_pool pool_indices floats longs].
  rewrite length_app. cbn [length].
  replace (length (longs σ3) + 1 - 1) with (length (longs σ3)) by lia.
  split_and!; try done.
  - by apply lookup_app_l_Some.
  - by apply list_lookup_middle.
  - by apply list_lookup_middle.
Qed.

(** C1: let [st] be the layer state a forward call of the ConvLayer at
    [c] returned (a layer built with the 2x2 pool).  In any store that
    still holds its recorded positions [it], the DeconvLayer of [c] run on
    incoming values [vt] of the pooled shape first unpools: the new tensor
    [ut] has exactly the shape of [st]'s pre-pool tensor, every incoming
    value stands at the position recorded for it in [it] (within its
    plane), and every other element is zero.  It then flips the layer's
    current weight on both spatial axes into [wf] and returns the result of
    the transposed convolution of [ut] with [wf], without bias, with the
    layer's stride and padding, and output padding 1 if the stride is
    greater than 1 and 0 otherwise. *)
Theorem DeconvLayer_reverses_stage (c : nat) (l : ConvLayer) x0 σ0 st σ1 :
  modules σ0 !! c = Some l → pool_kernel_size (pool l) = 2 →
  ConvLayer_forward c x0 σ0 = Ok st σ1 →
  ∃ pre ix pt it n ch h w ho wo,
    pre_pool st = Some pre ∧ pool_indices st = Some ix
    ∧ floats σ1 !! pre = Some pt ∧ shape pt = [n; ch; h; w]
    ∧ longs σ1 !! ix = Some it ∧ shape it = [n; ch; ho; wo]
    ∧ has_shape σ1 (output st) [n; ch; ho; wo]
    ∧ ∀ σ v vt lc wt,
        longs σ !! ix = Some it →
        floats σ !! v = Some vt → shape vt = [n; ch; ho; wo] →
        length (data vt) = n * ch * (ho * wo) →
        modules σ !! c = Some lc →
        floats σ !! weight (conv lc) = Some wt → length (shape wt) = 4 →
        ∃ ut wf,
          max_unpool2d (unpool (DeconvLayer_init c)) v ix (shape pt) σ
          = Ok (length (floats σ)) (State (floats σ ++ [ut]) (longs σ) (modules σ))
          ∧ shape ut = shape pt
          ∧ length (data ut) = n * ch * (h * w)
          ∧ (∀ q z, data it !! q = Some z →
               data ut !! (q / (ho * wo) * (h * w) + Z.to_nat z) = data vt !! q)
          ∧ (∀ o, o < n * ch * (h * w) →
               (∀ q z, data it !! q = Some z → o ≠ q / (ho * wo) * (h * w) + Z.to_nat z) →
               data ut !! o = Some fzero)
          ∧ flipped wt wf
          ∧ DeconvLayer_forward (DeconvLayer_init c) v (Some ix) (shape pt) σ
            = conv_transpose2d (length (floats σ)) (length (floats σ) + 1) None
                (stride (conv lc)) (padding (conv lc))
                (if 1 <? (stride (conv lc)).1 then 1 else 0,
                 if 1 <? (stride (conv lc)).1 then 1 else 0)
                (State (floats σ ++ [ut; wf]) (longs σ) (modules σ)).
Proof.
  intros Hl Hk Hfw.
  destruct (ConvLayer_forward_Ok _ _ _ _ _ Hfw)
    as (l' & pre & pt & n & ch & h & w & Hl' & Hpre & Hix & Hpt & Hspt & Hho & Hwo & Hout & Hidx).
  assert (l' = l) as -> by congruence. rewrite Hk in *.
  assert (2 ≤ h) as Hh by (unfold pool_out in Hho; destruct (Nat.ltb_spec h 2); [done|lia]).
  assert (2 ≤ w) as Hw by (unfold pool_out in Hwo; destruct (Nat.ltb_spec w 2); [done|lia]).
  set (it := pool_positions 2 n ch h w (data pt)) in *.
  exists pre, (length (longs σ1) - 1), pt, it, n, ch, h, w, (pool_out h 2), (pool_out w 2).
  split_and!; try done; [by eexists|].
  intros σ v vt lc wt Hit Hv Hsv Hlv Hlc Hwt Hswt.
  destruct (max_unpool2d_spec (unpool (DeconvLayer_init c)) v (length (longs σ1) - 1)
              σ vt (data pt) n ch h w)
    as (ut & Hrun & Hsut & Hlut & Hsel & Hzero); try done.
  set (σu := State (floats σ ++ [ut]) (longs σ) (modules σ)) in *.
  destruct (flip_2_3_spec (weight (conv lc)) σu wt) as (wf & Hflip & Hflipped); [|done|].
  { by apply lookup_app_l_Some. }
  assert (∀ q z, data it !! q = Some z →
            q < n * ch * (pool_out h 2 * pool_out w 2)
            ∧ z = Z.of_nat (pool_pick 2 h w (pool_out h 2) (pool_out w 2) (data pt) q)) as Hrec.
  { intros q z Hq. cbn [it data pool_positions] in Hq.
    assert (q < n * ch * pool_out h 2 * pool_out w 2) as Hlt.
    { apply lookup_lt_Some in Hq. by rewrite length_tabulate in Hq. }
    rewrite lookup_tabulate in Hq by done. injection Hq as <-. split; [lia|done]. }
  exists ut, wf. rewrite Hspt. split_and!; try done.
  - intros q z Hq. destruct (Hrec q z Hq) as [Hlt ->]. rewrite Nat2Z.id. by apply Hsel.
  - intros o Ho Hnot. apply Hzero; [done|]. intros q Hq.
    specialize (Hnot q (Z.of_nat (pool_pick 2 h w (pool_out h 2) (pool_out w 2) (data pt) q))).
    rewrite Nat2Z.id in Hnot. apply Hnot.
    cbn [it data pool_positions]. rewrite lookup_tabulate by lia. done.
  - unfold DeconvLayer_forward.
    rewrite (bind_run _ _ _ _ _ Hrun).
    rewrite (bind_run _ _ _ _ _ (read_module_run _ σu _ Hlc)).
    rewrite (bind_run _ _ _ _ _ Hflip).
    unfold σu. cbn [floats longs modules].
    rewrite length_app, <- app_assoc. reflexivity.
Qed.
End Unpool.

(** * The weights a DeconvLayer reads *)

Section SharedWeights.
Context {F : Type} `{Scalar F} `{Kernels F}.
Implicit Types σ : state F.

(** unpooling only appends its result to the store *)
Lemma max_unpool2d_Ok u x ix size σ xu σu :
  max_unpool2d u x ix size σ = Ok xu σu →
  ∃ ut, xu = length (floats σ)
        ∧ σu = State (floats σ ++ [ut]) (longs σ) (modules σ).
Proof.
  unfold max_unpool2d. intros Hrun.
  apply bind_Ok in Hrun as (xt & σ1 & Hx & Hrun). apply read_float_Ok in Hx as [_ ->].
  apply bind_Ok in Hrun as (it & σ1 & Hi & Hrun). apply read_long_Ok in Hi as [_ ->].
  destruct (shape xt) as [|n [|c [|h [|w [|]]]]]; try done.
  destruct (if length size =? 4 then drop 2 size else size) as [|oh [|ow [|]]]; try done.
  destruct (negb _); [done|]. destruct (negb _); [done|].
  destruct (mapM _ _) as [planes|]; [|done].
  unfold alloc_float in Hrun. injection Hrun as <- <-. by eexists.
Qed.

(** C3: the DeconvLayer built for the ConvLayer at address [c] holds
    that address and no tensor of its own.  In whatever store [σ] it is
    later run, with [l] the object at [c] and [wt] the contents the weight
    cell of [l] has in [σ] (so after any overwrite of that cell since the
    DeconvLayer was built), its forward call returns the transposed
    convolution of the unpooled input [ut] with [wt] flipped on both
    spatial axes, and leaves the weight cell as it found it. *)
Theorem DeconvLayer_reads_current_weight (c : nat) σ l wt x ix size xu σu ut
    n ci h w co kh kw s :
  modules σ !! c = Some l →
  floats σ !! weight (conv l) = Some wt →
  max_unpool2d (unpool (DeconvLayer_init c)) x ix size σ = Ok xu σu →
  floats σu !! xu = Some ut →
  shape ut = [n; ci; h; w] → shape wt = [ci; co; kh; kw] →
  stride (conv l) = (s, s) → 0 < s →
  let op := if 1 <? s then 1 else 0 in
  let ho := conv_transpose_out h kh s (padding (conv l)).1 op in
  let wo := conv_transpose_out w kw s (padding (conv l)).2 op in
  (0 ≤ ho)%Z → (0 ≤ wo)%Z →
  ∃ wf out σ2,
    conv_layer (DeconvLayer_init c) = c
    ∧ flipped wt wf
    ∧ DeconvLayer_forward (DeconvLayer_init c) x (Some ix) size σ = Ok out σ2
    ∧ floats σ2 !! out
      = Some (Tensor [n; co; Z.to_nat ho; Z.to_nat wo]
                (tabulate (n * co * Z.to_nat ho * Z.to_nat wo)
                   (conv_transpose2d_at ut wf None (s, s) (padding (conv l)) (op, op))))
    ∧ floats σ2 !! weight (conv l) = Some wt
    ∧ modules σ2 = modules σ.
Proof.
  intros Hl Hwt Hun Hut Hsu Hsw Hst Hs op ho wo Hho Hwo.
  destruct (max_unpool2d_Ok _ _ _ _ _ _ _ Hun) as (ut' & -> & ->).
  cbn [floats] in Hut. rewrite list_lookup_middle in Hut by done. injection Hut as ->.
  set (σu := State (floats σ ++ [ut]) (longs σ) (modules σ)) in *.
  destruct (flip_2_3_spec (weight (conv l)) σu wt) as (wf & Hflip & Hflipped).
  { by apply lookup_app_l_Some. }
  { by rewrite Hsw. }
  exists wf. eexists _, _. split; [reflexivity|]. split; [done|].
  unfold DeconvLayer_forward.
  rewrite (bind_run _ _ _ _ _ Hun).
  assert (read_module (conv_layer (DeconvLayer_init c)) σu = Ok l σu) as Hread
    by (by apply read_module_run).
  rewrite (bind_run _ _ _ _ _ Hread).
  rewrite (bind_run _ _ _ _ _ Hflip).
  unfold σu. cbn [floats longs modules].
  set (σf := State ((floats σ ++ [ut]) ++ [wf]) (longs σ) (modules σ)).
  assert (floats σf !! length (floats σ) = Some ut) as Hu.
  { cbn [σf floats]. apply lookup_app_l_Some. by apply list_lookup_middle. }
  assert (floats σf !! length (floats σ ++ [ut]) = Some wf) as Hf.
  { cbn [σf floats]. by apply list_lookup_middle. }
  unfold conv_transpose2d.
  rewrite (bind_run _ _ _ _ _ (read_float_run _ σf _ Hu)).
  rewrite (bind_run _ _ _ _ _ (read_float_run _ σf _ Hf)).
  unfold bind at 1, ret at 1.
  destruct Hflipped as [Hswf Hdata]. rewrite Hsu, Hswf, Hsw, Hst. cbn [fst snd].
  fold op. fold ho. fold wo.
  rewrite Nat.eqb_refl. cbn [negb].
  destruct (Nat.eqb_spec s 0); [lia|]. cbn [orb].
  assert ((op <? Nat.max s 1) = true) as ->.
  { apply Nat.ltb_lt. unfold op. destruct (Nat.ltb_spec 1 s); lia. }
  cbn [andb negb].
  destruct (Z.ltb_spec ho 0); [lia|]. destruct (Z.ltb_spec wo 0); [lia|]. cbn [orb].
  unfold alloc_float. cbn [σf floats longs modules].
  split; [reflexivity|]. cbn [floats modules]. split_and!.
  - by apply list_lookup_middle.
  - apply lookup_app_l_Some, lookup_app_l_Some, lookup_app_l_Some. done.
  - done.
Qed.
End SharedWeights.

(** * The filter normaliser *)

Section Normalizer.
Context {F : Type} `{Scalar F} `{Kernels F}.
Implicit Types σ : state F.

(** the elements of a weight after the loop body ran on it *)
Definition normalized_data (radius : F) (d0 m : nat) (w : list F) : list F :=
  match normalize_weight radius d0 m w with
  | Some (w', _) => w'
  | None => w
  end.

(** one pass of the loop body over the weight cell [a] of store [fl] *)
Definition normalize_cell (radius : F) (fl : list (tensor F)) (a : nat) : list (tensor F) :=
  match fl !! a with
  | Some w =>
    match shape w with
    | [d0; d1; d2; d3] =>
      <[a := Tensor (shape w) (normalized_data radius d0 (d1 * d2 * d3) (data w))]> fl
    | _ => fl
    end
  | None => fl
  end.

(** the floating store after the loop ran over the weight cells [ws] *)
Definition normalize_store (radius : F) (ws : list nat) (fl : list (tensor F))
    : list (tensor F) :=
  foldl (normalize_cell radius) fl ws.

(** the weight cells of the layers, each a 4-D tensor of the store *)
Definition weight_cells σ (layers ws : list nat) : Prop :=
  Forall2 (λ layer a, ∃ l, modules σ !! layer = Some l ∧ weight (conv l) = a) layers ws
  ∧ Forall (λ a, ∃ w, floats σ !! a = Some w ∧ length (shape w) = 4) ws.

Lemma normalize_cell_shapes radius fl a b :
  (∃ w, fl !! b = Some w ∧ length (shape w) = 4) →
  ∃ w, normalize_cell radius fl a !! b = Some w ∧ length (shape w) = 4.
Proof.
  intros (w & Hb & Hs). unfold normalize_cell.
  destruct (fl !! a) as [wa|] eqn:Ha; [|by exists w].
  destruct (shape wa) as [|d0 [|d1 [|d2 [|d3 [|]]]]] eqn:Hsa; try by exists w.
  destruct (decide (a = b)) as [->|Hne].
  - eexists. rewrite list_lookup_insert_eq by (by eapply lookup_lt_Some).
    split; done.
  - exists w. by rewrite list_lookup_insert_ne.
Qed.

Lemma normalize_loop_run_aux radius layers ws i info fl lg ms :
  Forall2 (λ layer a, ∃ l, ms !! layer = Some l ∧ weight (conv l) = a) layers ws →
  Forall (λ a, ∃ w, fl !! a = Some w ∧ length (shape w) = 4) ws →
  ∃ info',
    normalize_loop radius i layers info (State fl lg ms)
    = Ok info' (State (normalize_store radius ws fl) lg ms).
Proof.
  intros Hall. revert i info fl.
  induction Hall as [|layer a layers ws (l & Hl & <-) Hall IH]; intros i info fl Hcells.
  - by exists info.
  - apply Forall_cons in Hcells as [(w & Hw & Hs) Hcells].
    cbn [normalize_loop normalize_store foldl].
    rewrite (bind_run _ _ _ _ _ (read_module_run _ (State fl lg ms) _ Hl)).
    rewrite (bind_run _ _ _ _ _ (read_float_run _ (State fl lg ms) _ Hw)).
    unfold normalize_cell at 2. rewrite Hw. unfold normalized_data.
    destruct (shape w) as [|d0 [|d1 [|d2 [|d3 [|]]]]] eqn:Hsw; try done.
    destruct (normalize_weight radius d0 (d1 * d2 * d3) (data w)) as [[w' entry]|] eqn:Hn.
    + unfold bind at 1, write_float at 1. cbn [floats longs modules].
      apply IH.
      eapply Forall_impl; [exact Hcells|]. intros b Hb.
      pose proof (normalize_cell_shapes radius fl (weight (conv l)) b Hb) as Hx.
      unfold normalize_cell, normalized_data in Hx. by rewrite Hw, Hsw, Hn in Hx.
    + rewrite list_insert_id; [by apply IH|].
      rewrite Hw. f_equal. destruct w. simpl in *. congruence.
Qed.

Lemma normalize_loop_run radius layers ws i info σ :
  weight_cells σ layers ws →
  ∃ info',
    normalize_loop radius i layers info σ
    = Ok info' (State (normalize_store radius ws (floats σ)) (longs σ) (modules σ)).
Proof. intros [Hall Hcells]. destruct σ. by apply normalize_loop_run_aux. Qed.

Lemma take_drop_concat {A} (ls : list (list A)) m i l :
  Forall (λ l, length l = m) ls → ls !! i = Some l →
  take m (drop (i * m) (concat ls)) = l.
Proof.
  intros Hall. revert i l. induction Hall as [|l0 ls Hl0 Hall IH]; intros i l Hi; [done|].
  destruct i as [|i]; simpl in *.
  - injection Hi as ->. by rewrite drop_0, take_app_length'.
  - rewrite <- drop_drop, drop_app_length' by done. by apply IH.
Qed.

Lemma chunks_concat {A} (ls : list (list A)) n m :
  length ls = n → Forall (λ l, length l = m) ls → chunks n m (concat ls) = ls.
Proof.
  intros Hn Hall. apply list_eq. intros i.
  destruct (decide (i < n)) as [Hi|Hi].
  - rewrite lookup_chunks by done.
    destruct (lookup_lt_is_Some_2 ls i) as [l Hl]; [lia|].
    rewrite Hl. f_equal. by apply take_drop_concat.
  - rewrite !lookup_ge_None_2; [done|lia|rewrite length_chunks; lia].
Qed.

Lemma length_chunk {A} (w : list A) d0 m o :
  length w = d0 * m → o < d0 → length (take m (drop (o * m) w)) = m.
Proof.
  intros Hw Ho. rewrite length_take_le; [done|]. rewrite length_drop, Hw.
  pose proof (block_bound o d0 m 0 Ho). nia.
Qed.

Lemma chunks_uniform {A} (w : list A) d0 m :
  length w = d0 * m → Forall (λ f, length f = m) (chunks d0 m w).
Proof.
  intros Hw. apply Forall_lookup. intros o f Hf.
  assert (o < d0) as Ho by (apply lookup_lt_Some in Hf; by rewrite length_chunks in Hf).
  rewrite lookup_chunks in Hf by done. injection Hf as <-. by apply (length_chunk w d0).
Qed.

(** the filters of a normalised weight, when some filter exceeded *)
Lemma normalize_weight_Some radius d0 m w w' e :
  length w = d0 * m →
  normalize_weight radius d0 m w = Some (w', e) →
  chunks d0 m w' = (λ f, scale_filter f (scale_of radius (rms m f))) <$> chunks d0 m w
  ∧ length w' = d0 * m
  ∧ e = ((λ f, fgt (rms m f) radius) <$> chunks d0 m w,
         (λ f, scale_of radius (rms m f)) <$> chunks d0 m w).
Proof.
  intros Hw. unfold normalize_weight.
  destruct (existsb _ _); [|done]. intros [= <- <-].
  rewrite <- !list_fmap_compose.
  assert (zip_with scale_filter (chunks d0 m w)
            ((scale_of radius ∘ rms m) <$> chunks d0 m w)
          = (λ f, scale_filter f (scale_of radius (rms m f))) <$> chunks d0 m w) as ->.
  { rewrite zip_with_fmap_r. apply zip_with_diag. }
  assert (Forall (λ f, length f = m)
            ((λ f, scale_filter f (scale_of radius (rms m f))) <$> chunks d0 m w)) as Huni.
  { apply Forall_fmap. eapply Forall_impl; [by apply chunks_uniform|].
    intros f Hf. simpl. unfold scale_filter. by rewrite length_fmap. }
  split_and!; try done.
  - apply chunks_concat; [|done]. by rewrite length_fmap, length_chunks.
  - rewrite (length_concat_uniform _ m) by done. by rewrite length_fmap, length_chunks.
Qed.

(** no filter exceeded: the weight is left alone *)
Lemma normalize_weight_None radius d0 m w :
  normalize_weight radius d0 m w = None ↔
  Forall (λ f, fgt (rms m f) radius = false) (chunks d0 m w).
Proof.
  unfold normalize_weight.
  destruct (existsb _ _) eqn:E.
  - split; [done|]. intros Hall. exfalso.
    apply existsb_exists in E as (b & Hin & ->).
    apply list_elem_of_In, list_elem_of_fmap in Hin as (r & Hr & Hin).
    apply list_elem_of_fmap in Hin as (f & -> & Hf).
    rewrite Forall_forall in Hall. specialize (Hall f Hf). congruence.
  - split; [|done]. intros _. apply Forall_forall. intros f Hf.
    destruct (fgt (rms m f) radius) eqn:Ef; [|done].
    assert (existsb (λ e, e) ((λ r, fgt r radius) <$> (rms m <$> chunks d0 m w)) = true);
      [|congruence].
    apply existsb_exists. exists true. split; [|done].
    apply list_elem_of_In, list_elem_of_fmap. exists (rms m f). split; [done|].
    by apply list_elem_of_fmap_2.
Qed.

(** in an arithmetic where multiplying by one changes nothing, each filter
    of the weight is rescaled by its own factor, whether or not another
    filter exceeded *)
Lemma normalized_chunks radius d0 m w :
  (∀ v : F, fmul v fone = v) →
  length w = d0 * m →
  chunks d0 m (normalized_data radius d0 m w)
  = (λ f, scale_filter f (scale_of radius (rms m f))) <$> chunks d0 m w
  ∧ length (normalized_data radius d0 m w) = d0 * m.
Proof.
  intros Hone Hw. unfold normalized_data.
  destruct (normalize_weight radius d0 m w) as [[w' e]|] eqn:Hn.
  - destruct (normalize_weight_Some _ _ _ _ _ _ Hw Hn) as (? & ? & _). done.
  - split; [|done]. apply normalize_weight_None in Hn.
    rewrite <- (list_fmap_id (chunks d0 m w)) at 1.
    apply Forall_fmap_ext_1. eapply Forall_impl; [exact Hn|].
    intros f Hf. simpl. unfold scale_of, scale_filter. rewrite Hf.
    rewrite <- (list_fmap_id f) at 1. apply list_fmap_ext. intros i v _. by rewrite Hone.
Qed.
End Normalizer.

(** ** Exact arithmetic *)

Section NormalizerExact.
Context `{Kernels R}.
Implicit Types σ : state R.
Local Open Scope R_scope.

Definition sum_squares (f : list R) : R := foldr Rplus 0 ((λ v, v * v) <$> f).

Lemma foldl_Rplus (l : list R) a : foldl Rplus a l = a + foldr Rplus 0 l.
Proof.
  revert a. induction l as [|x l IH]; intros a; simpl; [lra|]. rewrite IH. lra.
Qed.

Lemma rms_real m f : rms m f = sqrt (sum_squares f / INR m).
Proof.
  unfold rms, sum_squares. cbn [fsqrt fdiv fadd fzero fmul fcount real_scalar].
  rewrite foldl_Rplus. f_equal. lra.
Qed.

Lemma sum_squares_nonneg f : 0 <= sum_squares f.
Proof.
  induction f as [|v f IH]; [unfold sum_squares; simpl; lra|].
  pose proof (Rle_0_sqr v) as Hv. unfold Rsqr in Hv. change (0 <= v * v + sum_squares f).
  unfold sum_squares in *. lra.
Qed.

Lemma sum_squares_scale f s : sum_squares (scale_filter f s) = s * s * sum_squares f.
Proof.
  induction f as [|v f IH]; [unfold sum_squares; simpl; lra|].
  change (v * s * (v * s) + sum_squares (scale_filter f s)
          = s * s * (v * v + sum_squares f)).
  rewrite IH. lra.
Qed.

Lemma rms_nonneg m f : 0 <= rms m f.
Proof. rewrite rms_real. apply sqrt_pos. Qed.

Lemma rms_scale m f s : 0 <= s → rms m (scale_filter f s) = s * rms m f.
Proof.
  intros Hs. rewrite !rms_real, sum_squares_scale.
  replace (s * s * sum_squares f / INR m) with ((s * s) * (sum_squares f / INR m))
    by (unfold Rdiv; lra).
  rewrite sqrt_mult_alt by nra. by rewrite sqrt_square.
Qed.

Lemma fgt_real (x y : R) : fgt x y = true ↔ y < x.
Proof. cbn [fgt real_scalar]. destruct (Rlt_dec y x); split; (done || lra). Qed.

Lemma fgt_real_false (x y : R) : fgt x y = false ↔ x <= y.
Proof. cbn [fgt real_scalar]. destruct (Rlt_dec y x); split; (done || lra). Qed.

Lemma scale_filter_one (f : list R) : scale_filter f fone = f.
Proof.
  unfold scale_filter. rewrite <- (list_fmap_id f) at 2.
  apply list_fmap_ext. intros i v _. cbn [fmul fone real_scalar]. simpl. lra.
Qed.

(** a filter over the radius is brought to it exactly; another one is kept *)
Lemma rescaled_filter radius m f :
  0 <= radius →
  let f' := scale_filter f (scale_of radius (rms m f)) in
  (radius < rms m f → f' = scale_filter f (radius / rms m f) ∧ rms m f' = radius)
  ∧ (rms m f <= radius → f' = f).
Proof.
  intros Hr f'. subst f'. unfold scale_of. split.
  - intros Hgt. apply fgt_real in Hgt as Hb. rewrite Hb.
    assert (fmul (fdiv fone (rms m f)) radius = radius / rms m f) as ->.
    { cbn [fmul fdiv fone real_scalar]. field. lra. }
    split; [done|]. rewrite rms_scale.
    + field. lra.
    + apply Rle_mult_inv_pos; lra.
  - intros Hle. apply fgt_real_false in Hle as Hb. rewrite Hb. apply scale_filter_one.
Qed.

Lemma rescaled_filter_settled radius m f :
  0 <= radius → fgt (rms m (scale_filter f (scale_of radius (rms m f)))) radius = false.
Proof.
  intros Hr. apply fgt_real_false.
  destruct (rescaled_filter radius m f Hr) as [Hgt Hle].
  destruct (Rlt_dec radius (rms m f)) as [Hlt|Hnlt].
  - destruct (Hgt Hlt) as [_ ->]. lra.
  - rewrite Hle by lra. lra.
Qed.

(** after the loop body, the body finds nothing to rescale *)
Lemma normalized_data_settled radius d0 m (w : list R) :
  0 <= radius → length w = (d0 * m)%nat →
  normalize_weight radius d0 m (normalized_data radius d0 m w) = None.
Proof.
  intros Hr Hw. apply normalize_weight_None.
  destruct (normalized_chunks radius d0 m w) as [-> _]; [|done|].
  { intros v. cbn [fmul fone real_scalar]. simpl. lra. }
  apply Forall_fmap, Forall_forall. intros f _. by apply rescaled_filter_settled.
Qed.
End NormalizerExact.

Section NormalizerStore.
Context {F : Type} `{Scalar F} `{Kernels F}.
Implicit Types σ : state F.

Lemma normalize_cell_other radius (fl : list (tensor F)) a b :
  a ≠ b → normalize_cell radius fl a !! b = fl !! b.
Proof.
  intros Hne. unfold normalize_cell. repeat case_match; try done.
  by apply list_lookup_insert_ne.
Qed.


Lemma normalize_cell_at radius (fl : list (tensor F)) a w d0 d1 d2 d3 :
  fl !! a = Some w → shape w = [d0; d1; d2; d3] →
  normalize_cell radius fl a !! a
  = Some (Tensor (shape w) (normalized_data radius d0 (d1 * d2 * d3) (data w))).
Proof.
  intros Ha Hs. unfold normalize_cell. rewrite Ha, Hs.
  apply list_lookup_insert_eq. by eapply lookup_lt_Some.
Qed.

End NormalizerStore.

Section NormalizerIdempotent.
Context `{Kernels R}.
Implicit Types σ : state R.
Local Open Scope R_scope.

(** a weight cell: 4-D, with as many elements as its shape says *)
Definition weight_wf (w : tensor R) : Prop :=
  ∃ d0 d1 d2 d3, shape w = [d0; d1; d2; d3] ∧ length (data w) = (d0 * (d1 * d2 * d3))%nat.

(** a weight cell in which no filter exceeds the radius *)
Definition settled (radius : R) (w : tensor R) : Prop :=
  ∃ d0 d1 d2 d3, shape w = [d0; d1; d2; d3]
                 ∧ normalize_weight radius d0 (d1 * d2 * d3)%nat (data w) = None.

Lemma normalize_cell_settled radius (fl : list (tensor R)) a w :
  fl !! a = Some w → settled radius w → normalize_cell radius fl a = fl.
Proof.
  intros Ha (d0 & d1 & d2 & d3 & Hs & Hn). unfold normalize_cell, normalized_data.
  rewrite Ha, Hs, Hn. apply list_insert_id. rewrite Ha. f_equal.
  destruct w. simpl in *. congruence.
Qed.

Lemma normalize_cell_settles radius (fl : list (tensor R)) a w :
  0 <= radius → fl !! a = Some w → weight_wf w →
  ∃ w', normalize_cell radius fl a !! a = Some w' ∧ settled radius w' ∧ weight_wf w'.
Proof.
  intros Hr Ha (d0 & d1 & d2 & d3 & Hs & Hl).
  eexists. split; [by eapply normalize_cell_at|]. split.
  - exists d0, d1, d2, d3. split; [by rewrite Hs|]. cbn [data].
    by apply normalized_data_settled.
  - exists d0, d1, d2, d3. split; [by rewrite Hs|]. cbn [data].
    eapply normalized_chunks; [|done]. intros v. cbn [fmul fone real_scalar]. simpl. lra.
Qed.

Lemma normalize_cell_keeps radius (fl : list (tensor R)) a b w :
  0 <= radius →
  (∀ w0, fl !! a = Some w0 → weight_wf w0) →
  fl !! b = Some w → settled radius w ∧ weight_wf w →
  ∃ w', normalize_cell radius fl a !! b = Some w' ∧ settled radius w' ∧ weight_wf w'.
Proof.
  intros Hr Hwf Hb [Hs Hw]. destruct (decide (a = b)) as [->|Hne].
  - exists w. by rewrite (normalize_cell_settled radius fl b w).
  - exists w. by rewrite normalize_cell_other.
Qed.

Lemma normalize_cell_wf radius (fl : list (tensor R)) a b w :
  fl !! b = Some w → weight_wf w →
  (∀ w0, fl !! a = Some w0 → weight_wf w0) →
  ∃ w', normalize_cell radius fl a !! b = Some w' ∧ weight_wf w'.
Proof.
  intros Hb Hw Hwf. destruct (decide (a = b)) as [->|Hne].
  - destruct (Hwf w Hb) as (d0 & d1 & d2 & d3 & Hs & Hl).
    eexists. split; [by eapply normalize_cell_at|].
    exists d0, d1, d2, d3. split; [by rewrite Hs|]. cbn [data].
    eapply normalized_chunks; [|done]. intros v. cbn [fmul fone real_scalar]. simpl. lra.
  - exists w. by rewrite normalize_cell_other.
Qed.

(** after one run of the loop every weight cell is settled *)
Lemma normalize_store_settles radius ws (fl : list (tensor R)) :
  0 <= radius →
  Forall (λ a, ∃ w, fl !! a = Some w ∧ weight_wf w) ws →
  Forall (λ a, ∃ w, normalize_store radius ws fl !! a = Some w
                    ∧ settled radius w ∧ weight_wf w) ws.
Proof.
  intros Hr. unfold normalize_store.
  assert (∀ ws fl,
    Forall (λ a, ∃ w, fl !! a = Some w ∧ weight_wf w) ws →
    Forall (λ a, ∃ w, foldl (normalize_cell radius) fl ws !! a = Some w
                      ∧ settled radius w ∧ weight_wf w) ws
    ∧ ∀ b, (∃ w, fl !! b = Some w ∧ settled radius w ∧ weight_wf w) →
           ∃ w, foldl (normalize_cell radius) fl ws !! b = Some w
                ∧ settled radius w ∧ weight_wf w) as Hgen.
  { clear ws fl. induction ws as [|a ws IH]; intros fl Hwf; [by split|].
    apply Forall_cons in Hwf as [(wa & Ha & Hwa) Hwf]. simpl.
    destruct (IH (normalize_cell radius fl a)) as [IH1 IH2].
    { eapply Forall_impl; [exact Hwf|]. intros b (wb & Hb & Hwb).
      eapply normalize_cell_wf; [done..|]. intros w0 Hw0. congruence. }
    split.
    - apply Forall_cons. split; [|done].
      apply IH2. by eapply normalize_cell_settles.
    - intros b (w & Hb & Hs & Hw). apply IH2.
      eapply normalize_cell_keeps; [done| |done|done]. intros w0 Hw0. congruence. }
  intros Hwf. by apply Hgen.
Qed.

Lemma normalize_store_settled radius ws (fl : list (tensor R)) :
  Forall (λ a, ∃ w, fl !! a = Some w ∧ settled radius w) ws →
  normalize_store radius ws fl = fl.
Proof.
  unfold normalize_store. induction 1 as [|a ws (w & Ha & Hs) Hall IH]; [done|].
  simpl. by rewrite (normalize_cell_settled radius fl a w).
Qed.

Lemma normalize_loop_settled radius layers ws i info (fl : list (tensor R)) lg ms :
  Forall2 (λ layer a, ∃ l, ms !! layer = Some l ∧ weight (conv l) = a) layers ws →
  Forall (λ a, ∃ w, fl !! a = Some w ∧ settled radius w) ws →
  normalize_loop radius i layers info (State fl lg ms) = Ok info (State fl lg ms).
Proof.
  intros Hall. revert i info.
  induction Hall as [|layer a layers ws (l & Hl & <-) Hall IH]; intros i info Hcells; [done|].
  apply Forall_cons in Hcells as [(w & Hw & d0 & d1 & d2 & d3 & Hs & Hn) Hcells].
  cbn [normalize_loop].
  rewrite (bind_run _ _ _ _ _ (read_module_run _ (State fl lg ms) _ Hl)).
  rewrite (bind_run _ _ _ _ _ (read_float_run _ (State fl lg ms) _ Hw)).
  rewrite Hs, Hn. by apply IH.
Qed.

(** C5, as amended for exact arithmetic: over the real numbers, on a
    network whose conv weights are well-formed 4-D tensors,
    [normalize_filters] returns, and a second consecutive application
    returns an empty report and the very store the first one left. *)
Theorem normalize_filters_idempotent_exact (m : SimpleCNN R) σ ws :
  0 <= filter_radius m →
  Forall2 (λ layer a, ∃ l, modules σ !! layer = Some l ∧ weight (conv l) = a)
          (conv_layers m) ws →
  Forall (λ a, ∃ w, floats σ !! a = Some w ∧ weight_wf w) ws →
  ∃ info σ1,
    normalize_filters m σ = Ok info σ1 ∧ normalize_filters m σ1 = Ok [] σ1.
Proof.
  intros Hr Hlayers Hcells. unfold normalize_filters.
  destruct (normalize_loop_run (filter_radius m) (conv_layers m) ws 0 [] σ)
    as [info Hrun].
  { split; [done|]. eapply Forall_impl; [exact Hcells|].
    intros a (w & Ha & d0 & d1 & d2 & d3 & Hs & _). exists w. by rewrite Hs. }
  exists info, (State (normalize_store (filter_radius m) ws (floats σ)) (longs σ) (modules σ)).
  split; [done|]. apply (normalize_loop_settled _ _ ws); [done|].
  eapply Forall_impl; [by apply normalize_store_settles|].
  intros a (w & Ha & Hs & _). by exists w.
Qed.

End NormalizerIdempotent.

(** * Loading persisted parameters *)

Section Loading.
Context {F : Type} `{Scalar F} `{Kernels F}.
Implicit Types σ : state F.
Implicit Types sd : gmap string (entry F).

(** the names the loader lets through *)
Definition passes (key : string) : Prop :=
  startswith "conv_layers" key || startswith "fc" key = true.

Definition param_shape σ (p : param) : option (list nat) :=
  match p with
  | PFloat r => shape <$> floats σ !! r
  | PLong r => shape <$> longs σ !! r
  end.

(** the entry fits a tensor of shape [s]: it has that shape, or the
    tensor is 0-D and the entry is 1-D and not empty *)
Definition fits (s : list nat) (e : entry F) : Prop :=
  entry_shape e = s ∨ (s = [] ∧ ∃ n, entry_shape e = [S n]).

(** what the load copies of an entry that fits *)
Definition unwrapped (s : list nat) (e : entry F) : entry F :=
  match s, entry_shape e with
  | [], [_] => first_element e
  | _, _ => e
  end.

Lemma unwrap_run σ s e :
  fits s e → unwrap s e σ = Ok (unwrapped s e) σ ∧ entry_shape (unwrapped s e) = s.
Proof.
  unfold fits, unwrap, unwrapped. intros [Hs|[-> [n Hs]]].
  - rewrite Hs. by destruct s as [|a [|b s]].
  - rewrite Hs. split; [done|]. by destruct e.
Qed.

(** the store after a copy that passed the shape check *)
Definition copied σ (p : param) (e : entry F) : state F :=
  match p with
  | PFloat r => State (<[r := as_float e]> (floats σ)) (longs σ) (modules σ)
  | PLong r => State (floats σ) (<[r := as_long e]> (longs σ)) (modules σ)
  end.

Lemma copy_checked_run σ p e s :
  param_shape σ p = Some s → fits s e →
  copy_checked p e σ = Ok true (copied σ p (unwrapped s e)).
Proof.
  unfold copy_checked, param_shape, copied. intros Hs Hfit.
  destruct (unwrap_run σ s e Hfit) as [Hun Hsu]. destruct p as [r|r].
  - destruct (floats σ !! r) as [t|] eqn:Hr; [|done]. injection Hs as Hs.
    rewrite (bind_run _ _ _ _ _ (read_float_run _ _ _ Hr)).
    rewrite Hs, (bind_run _ _ _ _ _ Hun).
    assert (shape (as_float (unwrapped s e)) = s) as Heq
      by (rewrite <- Hsu at 2; by destruct (unwrapped s e)).
    rewrite bool_decide_eq_true_2 by done. done.
  - destruct (longs σ !! r) as [t|] eqn:Hr; [|done]. injection Hs as Hs.
    rewrite (bind_run _ _ _ _ _ (read_long_run _ _ _ Hr)).
    rewrite Hs, (bind_run _ _ _ _ _ Hun).
    assert (shape (as_long (unwrapped s e)) = s) as Heq
      by (rewrite <- Hsu at 2; by destruct (unwrapped s e)).
    rewrite bool_decide_eq_true_2 by done. done.
Qed.

Lemma copied_shape σ p e q :
  param_shape σ p = Some (entry_shape e) →
  param_shape (copied σ p e) q = param_shape σ q.
Proof.
  intros Hs. destruct p as [r|r], q as [r'|r']; simpl in *; try done.
  - destruct (decide (r = r')) as [<-|Hne]; [|by rewrite list_lookup_insert_ne].
    destruct (floats σ !! r) as [t|] eqn:Hr; [|done].
    rewrite list_lookup_insert_eq by (by eapply lookup_lt_Some).
    simpl in *. injection Hs as ->. by destruct e.
  - destruct (decide (r = r')) as [<-|Hne]; [|by rewrite list_lookup_insert_ne].
    destruct (longs σ !! r) as [t|] eqn:Hr; [|done].
    rewrite list_lookup_insert_eq by (by eapply lookup_lt_Some).
    simpl in *. injection Hs as ->. by destruct e.
Qed.

#[global] Instance param_eq_dec : EqDecision param.
Proof. solve_decision. Defined.

(** some name of [ps] that the mapping holds refers to the cell [q] *)
Definition written (ps : list (string * param)) sd (q : param) : Prop :=
  Exists (λ kp, kp.2 = q ∧ is_Some (sd !! kp.1)) ps.

Lemma not_written ps sd q :
  ¬ written ps sd q ↔ ∀ key, (key, q) ∈ ps → sd !! key = None.
Proof.
  unfold written. rewrite <- Forall_Exists_neg, Forall_forall. split.
  - intros Hall key Hin. destruct (sd !! key) as [e|] eqn:He; [|done].
    destruct (Hall _ Hin). simpl. split; [done|]. by rewrite He.
  - intros Hnone [key p] Hin [Hp Hsome]. simpl in *. subst p.
    rewrite (Hnone key Hin) in Hsome. by destruct Hsome.
Qed.

(** the walk over the names copies every entry the mapping holds, when
    each fits the cell its name refers to *)
Lemma load_named_run ps sd errors σ :
  (∀ key p e, (key, p) ∈ ps → sd !! key = Some e →
     ∃ s, param_shape σ p = Some s ∧ fits s e) →
  ∃ σ', load_named ps sd errors σ = Ok errors σ'
    ∧ modules σ' = modules σ
    ∧ (∀ q, param_shape σ' q = param_shape σ q)
    ∧ (∀ r, (∀ key, (key, PFloat r) ∈ ps → sd !! key = None) →
         floats σ' !! r = floats σ !! r)
    ∧ (∀ r, (∀ key, (key, PLong r) ∈ ps → sd !! key = None) →
         longs σ' !! r = longs σ !! r)
    ∧ (∀ key r e s, (key, PFloat r) ∈ ps → sd !! key = Some e →
         param_shape σ (PFloat r) = Some s →
         (∀ key' e', (key', PFloat r) ∈ ps → sd !! key' = Some e' → e' = e) →
         floats σ' !! r = Some (as_float (unwrapped s e)))
    ∧ (∀ key r e s, (key, PLong r) ∈ ps → sd !! key = Some e →
         param_shape σ (PLong r) = Some s →
         (∀ key' e', (key', PLong r) ∈ ps → sd !! key' = Some e' → e' = e) →
         longs σ' !! r = Some (as_long (unwrapped s e))).
Proof.
  revert errors σ. induction ps as [|[key0 p0] ps IH]; intros errors σ Hshape.
  { exists σ. split_and!; try done; intros ???? Hin; by apply elem_of_nil in Hin. }
  cbn [load_named]. destruct (sd !! key0) as [e0|] eqn:He0.
  - destruct (Hshape key0 p0 e0) as (s0 & Hs0 & Hfit0); [apply list_elem_of_here|done|].
    destruct (unwrap_run σ s0 e0 Hfit0) as [_ Hsu0].
    assert (∀ q, param_shape (copied σ p0 (unwrapped s0 e0)) q = param_shape σ q) as Hkept.
    { intros q. apply copied_shape. by rewrite Hsu0. }
    rewrite (bind_run _ _ _ _ _ (copy_checked_run _ _ _ _ Hs0 Hfit0)).
    cbn [negb]. rewrite orb_false_r.
    destruct (IH errors (copied σ p0 (unwrapped s0 e0)))
      as (σ' & Hrun & Hm & Hsh & Hf & Hl & Hwf & Hwl).
    { intros key p e Hin He. rewrite Hkept.
      eapply Hshape; [by apply list_elem_of_further|done]. }
    exists σ'. split; [done|]. split; [by rewrite Hm; destruct p0|]. split.
    { intros q. by rewrite Hsh. }
    split_and!.
    + intros r Hnone. rewrite Hf by (intros key Hin; apply Hnone; by apply list_elem_of_further).
      destruct p0 as [r0|r0]; [|done]. cbn [copied floats].
      apply list_lookup_insert_ne. intros ->.
      rewrite (Hnone key0) in He0; [done|apply list_elem_of_here].
    + intros r Hnone. rewrite Hl by (intros key Hin; apply Hnone; by apply list_elem_of_further).
      destruct p0 as [r0|r0]; [done|]. cbn [copied longs].
      apply list_lookup_insert_ne. intros ->.
      rewrite (Hnone key0) in He0; [done|apply list_elem_of_here].
    + intros key r e s Hin He Hs Hsame.
      destruct (decide (written ps sd (PFloat r))) as [Hw|Hw].
      * apply Exists_exists in Hw as ([key1 p1] & Hin1 & Hp1 & [e1 He1]). simpl in *. subst p1.
        assert (e1 = e) as -> by (eapply Hsame; [by apply list_elem_of_further|done]).
        eapply Hwf; [done|done|exact (eq_trans (Hkept (PFloat r)) Hs)|]. intros key' e' Hin' He'.
        eapply Hsame; [by apply list_elem_of_further|done].
      * rewrite not_written in Hw. rewrite Hf by done.
        apply elem_of_cons in Hin as [Heq|Hin]; [|by rewrite (Hw key Hin) in He].
        injection Heq as -> <-. assert (e0 = e) as -> by congruence.
        assert (s0 = s) as -> by congruence.
        cbn [copied floats]. apply list_lookup_insert_eq.
        simpl in Hs0. destruct (floats σ !! r) eqn:Hr; [|done]. by eapply lookup_lt_Some.
    + intros key r e s Hin He Hs Hsame.
      destruct (decide (written ps sd (PLong r))) as [Hw|Hw].
      * apply Exists_exists in Hw as ([key1 p1] & Hin1 & Hp1 & [e1 He1]). simpl in *. subst p1.
        assert (e1 = e) as -> by (eapply Hsame; [by apply list_elem_of_further|done]).
        eapply Hwl; [done|done|exact (eq_trans (Hkept (PLong r)) Hs)|]. intros key' e' Hin' He'.
        eapply Hsame; [by apply list_elem_of_further|done].
      * rewrite not_written in Hw. rewrite Hl by done.
        apply elem_of_cons in Hin as [Heq|Hin]; [|by rewrite (Hw key Hin) in He].
        injection Heq as -> <-. assert (e0 = e) as -> by congruence.
        assert (s0 = s) as -> by congruence.
        cbn [copied longs]. apply list_lookup_insert_eq.
        simpl in Hs0. destruct (longs σ !! r) eqn:Hr; [|done]. by eapply lookup_lt_Some.
  - destruct (IH errors σ) as (σ' & Hrun & Hm & Hsh & Hf & Hl & Hwf & Hwl).
    { intros key p e Hin He. eapply Hshape; [by apply list_elem_of_further|done]. }
    exists σ'. split_and!; try done.
    + intros r Hnone. apply Hf. intros key Hin. apply Hnone. by apply list_elem_of_further.
    + intros r Hnone. apply Hl. intros key Hin. apply Hnone. by apply list_elem_of_further.
    + intros key r e s Hin He Hs Hsame.
      apply elem_of_cons in Hin as [Heq|Hin]; [injection Heq as -> ?; congruence|].
      eapply Hwf; [done..|]. intros key' e' Hin' He'.
      eapply Hsame; [by apply list_elem_of_further|done].
    + intros key r e s Hin He Hs Hsame.
      apply elem_of_cons in Hin as [Heq|Hin]; [injection Heq as -> ?; congruence|].
      eapply Hwl; [done..|]. intros key' e' Hin' He'.
      eapply Hsame; [by apply list_elem_of_further|done].
Qed.

(** the walk looks the mapping up under the names of [ps] only *)
Lemma load_named_ext ps sd sd2 errors σ :
  (∀ key, key ∈ ps.*1 → sd2 !! key = sd !! key) →
  load_named ps sd2 errors σ = load_named ps sd errors σ.
Proof.
  revert errors σ. induction ps as [|[key0 p0] ps IH]; intros errors σ Hsame; [done|].
  cbn [load_named]. rewrite (Hsame key0) by (simpl; apply list_elem_of_here).
  assert (∀ errors σ, load_named ps sd2 errors σ = load_named ps sd errors σ) as Hrest.
  { intros errors' σ'. apply IH. intros key Hin. apply Hsame. simpl.
    by apply list_elem_of_further. }
  destruct (sd !! key0); [|apply Hrest].
  unfold bind. destruct (copy_checked p0 e σ); [apply Hrest|done].
Qed.

#[global] Instance passes_dec key : Decision (passes key).
Proof. unfold passes. apply _. Defined.

Lemma lookup_passing sd key :
  filter (λ kv : string * entry F, startswith "conv_layers" kv.1 || startswith "fc" kv.1 = true)
         sd !! key
  = if decide (passes key) then sd !! key else None.
Proof.
  apply option_eq. intros e. rewrite map_lookup_filter_Some. unfold passes.
  destruct (decide _) as [Hp|Hp]; simpl.
  - split; [by intros [? _]|by intros].
  - split; [by intros [_ ?]|done].
Qed.

(** [fits], as a check *)
Definition fitsb (s : list nat) (e : entry F) : bool :=
  bool_decide (entry_shape e = s)
  || (bool_decide (s = []) && match entry_shape e with [S _] => true | _ => false end).

Lemma fitsb_sound s e : fitsb s e = true → fits s e.
Proof.
  unfold fitsb, fits. intros [Hs|[Hs He]%andb_true_iff]%orb_true_iff.
  - left. by apply bool_decide_eq_true_1 in Hs.
  - right. apply bool_decide_eq_true_1 in Hs. split; [done|].
    destruct (entry_shape e) as [|[|n] [|]]; try done. by exists n.
Qed.

(** the hypothesis of the load, as a check over the names *)
Definition entries_fit σ (ps : list (string * param)) sd : bool :=
  forallb (λ kp : string * param,
             match sd !! kp.1, param_shape σ kp.2 with
             | Some e, Some s => negb (bool_decide (passes kp.1)) || fitsb s e
             | Some e, None => negb (bool_decide (passes kp.1))
             | None, _ => true
             end) ps.

Lemma entries_fit_sound σ ps sd :
  entries_fit σ ps sd = true →
  ∀ key p e, (key, p) ∈ ps → passes key → sd !! key = Some e →
             ∃ s, param_shape σ p = Some s ∧ fits s e.
Proof.
  unfold entries_fit. rewrite forallb_forall. intros Hall key p e Hin Hp He.
  specialize (Hall (key, p)). simpl in Hall. rewrite He in Hall.
  rewrite (bool_decide_eq_true_2 _ Hp) in Hall. cbn [negb orb] in Hall.
  destruct (param_shape σ p) as [s|].
  - exists s. split; [done|]. apply fitsb_sound, Hall. by apply list_elem_of_In.
  - discriminate Hall. by apply list_elem_of_In.
Qed.

(** C9, as amended: on a model whose tensors are [ps] by name, the
    outcome of [load_state_dict], error or not, depends on the mapping
    through its entries under the names of [ps] that start with
    [conv_layers] or [fc] only: any other entry is ignored.  For a mapping
    [sd] in which each of these entries fits the tensor it names (it has
    its shape, or it is a 1-D entry that is not empty for a 0-D tensor),
    whatever is missing from it, [load_state_dict] returns; it leaves the
    module tree and every shape as they were; a tensor none of whose
    passing names occurs in [sd] keeps its contents; and a tensor with a
    passing name in [sd] holds that entry afterwards (its first element,
    for a 1-D entry of a 0-D tensor). *)
Theorem load_state_dict_partial (self : SimpleCNN F) σ ps sd :
  named_tensors self σ = Ok ps σ →
  (∀ sd2, (∀ key, key ∈ ps.*1 → passes key → sd2 !! key = sd !! key) →
     load_state_dict self sd2 σ = load_state_dict self sd σ)
  ∧ ((∀ key p e, (key, p) ∈ ps → passes key → sd !! key = Some e →
        ∃ s, param_shape σ p = Some s ∧ fits s e) →
     ∃ σ',
       load_state_dict self sd σ = Ok tt σ'
       ∧ modules σ' = modules σ
       ∧ (∀ q, param_shape σ' q = param_shape σ q)
       ∧ (∀ r, (∀ key, (key, PFloat r) ∈ ps → passes key → sd !! key = None) →
            floats σ' !! r = floats σ !! r)
       ∧ (∀ r, (∀ key, (key, PLong r) ∈ ps → passes key → sd !! key = None) →
            longs σ' !! r = longs σ !! r)
       ∧ (∀ key r e s, (key, PFloat r) ∈ ps → passes key → sd !! key = Some e →
            param_shape σ (PFloat r) = Some s →
            (∀ key' e', (key', PFloat r) ∈ ps → passes key' → sd !! key' = Some e' → e' = e) →
            floats σ' !! r = Some (as_float (unwrapped s e)))
       ∧ (∀ key r e s, (key, PLong r) ∈ ps → passes key → sd !! key = Some e →
            param_shape σ (PLong r) = Some s →
            (∀ key' e', (key', PLong r) ∈ ps → passes key' → sd !! key' = Some e' → e' = e) →
            longs σ' !! r = Some (as_long (unwrapped s e)))).
Proof.
  intros Hnamed. unfold load_state_dict, Module_load_state_dict.
  set (new := filter _ sd).
  assert (∀ key, new !! key = if decide (passes key) then sd !! key else None) as Hnew
    by apply lookup_passing.
  split.
  - intros sd2 Hsame. rewrite !(bind_run _ _ _ _ _ Hnamed).
    unfold bind. rewrite (load_named_ext ps new).
    + destruct (load_named ps new false σ) as [errors σ'|]; [|done].
      cbn [andb]. by rewrite !orb_false_r.
    + intros key Hin. rewrite lookup_passing, Hnew.
      destruct (decide (passes key)); [by apply Hsame|done].
  - intros Hshape.
    destruct (load_named_run ps new false σ) as (σ' & Hrun & Hm & Hsh & Hf & Hl & Hwf & Hwl).
    { intros key p e Hin He. rewrite Hnew in He. destruct (decide (passes key)); [|done].
      by eapply Hshape. }
    exists σ'. rewrite (bind_run _ _ _ _ _ Hnamed), (bind_run _ _ _ _ _ Hrun).
    split; [done|]. split; [done|]. split; [done|]. split_and!.
    + intros r Hnone. apply Hf. intros key Hin. rewrite Hnew.
      destruct (decide (passes key)); [by apply Hnone|done].
    + intros r Hnone. apply Hl. intros key Hin. rewrite Hnew.
      destruct (decide (passes key)); [by apply Hnone|done].
    + intros key r e s Hin Hp He Hs Hsame. apply (Hwf key); [done| |done|].
      * rewrite Hnew. by destruct (decide (passes key)).
      * intros key' e' Hin' He'. rewrite Hnew in He'.
        destruct (decide (passes key')); [|done]. by eapply Hsame.
    + intros key r e s Hin Hp He Hs Hsame. apply (Hwl key); [done| |done|].
      * rewrite Hnew. by destruct (decide (passes key)).
      * intros key' e' Hin' He'. rewrite Hnew in He'.
        destruct (decide (passes key')); [|done]. by eapply Hsame.
Qed.
End Loading.

(** * Further properties of the filter normaliser *)

Section NormalizerReport.
Context {F : Type} `{Scalar F} `{Kernels F}.
Implicit Types σ : state F.






(** ** The returned report *)








End NormalizerReport.

(** * Sizes the padding rule gives *)

Section PaddingSizes.
Context {F : Type} `{Scalar F} `{Kernels F}.
Implicit Types σ : state F.

Lemma pool_out_half h : 2 ≤ h → pool_out h 2 = h / 2.
Proof.
  intros Hh. destruct (pool_out_2 h Hh) as (_ & H1 & H2).
  apply (Nat.div_unique h 2 (pool_out h 2) (h - 2 * pool_out h 2)); lia.
Qed.

Lemma conv_out_even h j : 1 ≤ j → 2 ≤ h → conv_out h (2 * j) 1 (((1 - 1) + 2 * j - 1) / 2) = h - 1.
Proof.
  intros Hj Hh. unfold conv_out.
  replace ((1 - 1 + 2 * j - 1) / 2) with (j - 1).
  - rewrite Nat.div_1_r. lia.
  - apply (Nat.div_unique _ 2 (j - 1) 1); lia.
Qed.

Lemma conv_out_stride2 h j : 1 ≤ h → conv_out h (2 * j + 1) 2 (((2 - 1) + (2 * j + 1) - 1) / 2) = (h + 1) / 2.
Proof.
  intros Hh. unfold conv_out.
  replace ((2 - 1 + (2 * j + 1) - 1) / 2) with j
    by (apply (Nat.div_unique _ 2 j 1); lia).
  replace (h + 2 * j - (2 * j + 1)) with (h - 1) by lia.
  replace (h + 1) with ((h - 1) + 1 * 2) by lia.
  rewrite Nat.div_add by done. lia.
Qed.

(** the shapes of the layer state a stage built by [ConvLayer.__init__]
    returns *)
Lemma built_stage_shapes ci co k s σ0 σ x xt n h w ho wo :
  ext (final_state (ConvLayer_init ci co k s σ0)) σ →
  floats σ !! x = Some xt → shape xt = [n; ci; h; w] → 1 ≤ s →
  k ≤ h + 2 * (((s - 1) + k - 1) / 2) → k ≤ w + 2 * (((s - 1) + k - 1) / 2) →
  conv_out h k s (((s - 1) + k - 1) / 2) = ho →
  conv_out w k s (((s - 1) + k - 1) / 2) = wo →
  2 ≤ ho → 2 ≤ wo →
  wp (ConvLayer_forward (length (modules σ0)) x) σ (λ S σ',
    has_shape σ' (output S) [n; co; ho / 2; wo / 2]
    ∧ ∃ pre ix it,
        pre_pool S = Some pre ∧ pool_indices S = Some ix
        ∧ has_shape σ' pre [n; co; ho; wo]
        ∧ longs σ' !! ix = Some it ∧ shape it = [n; co; ho / 2; wo / 2]).
Proof.
  intros He Hx Hsx Hs Hk1 Hk2 Eho Ewo Hho Hwo.
  rewrite ConvLayer_init_run in He. cbn [final_state] in He.
  eapply wp_mono.
  { eapply (stage_shapes σ _ ci co k s x n h w ho wo); try done.
    - eapply stage_ok_ext; [done|]. apply ConvLayer_init_ok.
    - by exists xt. }
  intros S σ' (_ & Ho & pre & ix & Hpre & Hix & Hsp & it & Hit & Hsi).
  rewrite !pool_out_half in Ho, Hsi by done.
  split; [done|]. by exists pre, ix, it.
Qed.

(** X3: the padding [((stride - 1) + kernel_size - 1) // 2] does not
    keep the spatial size for an even kernel: a stage built with stride 1
    and an even kernel size, run on an [h]x[w] input, returns a layer
    state whose pre-pool tensor is [h-1]x[w-1] and whose pooled output and
    recorded indices are [(h-1)/2]x[(w-1)/2]. *)
Theorem ConvLayer_even_kernel_loses_one (ci co k : nat) σ0 σ x xt n h w :
  Nat.Even k → 2 ≤ k →
  ext (final_state (ConvLayer_init ci co k 1 σ0)) σ →
  floats σ !! x = Some xt → shape xt = [n; ci; h; w] → 3 ≤ h → 3 ≤ w →
  wp (ConvLayer_forward (length (modules σ0)) x) σ (λ S σ',
    has_shape σ' (output S) [n; co; (h - 1) / 2; (w - 1) / 2]
    ∧ ∃ pre ix it,
        pre_pool S = Some pre ∧ pool_indices S = Some ix
        ∧ has_shape σ' pre [n; co; h - 1; w - 1]
        ∧ longs σ' !! ix = Some it ∧ shape it = [n; co; (h - 1) / 2; (w - 1) / 2]).
Proof.
  intros [j ->] Hk He Hx Hsx Hh Hw.
  assert (j - 1 = (1 - 1 + 2 * j - 1) / 2) as Hp
    by (apply (Nat.div_unique _ 2 (j - 1) 1); lia).
  eapply (built_stage_shapes ci co (2 * j) 1 σ0 σ x xt n h w); try done.
  - rewrite <- Hp. lia.
  - rewrite <- Hp. lia.
  - apply conv_out_even; lia.
  - apply conv_out_even; lia.
  - lia.
  - lia.
Qed.

(** X4: a stage built with stride 2 and an odd kernel size (the first
    stage of the network), run on an [h]x[w] input, returns a layer state
    whose pre-pool tensor is [ceil(h/2)]x[ceil(w/2)] and whose pooled
    output and recorded indices are half of that, rounded down. *)
Theorem ConvLayer_stride_two_halves (ci co k : nat) σ0 σ x xt n h w :
  Nat.Odd k →
  ext (final_state (ConvLayer_init ci co k 2 σ0)) σ →
  floats σ !! x = Some xt → shape xt = [n; ci; h; w] → 3 ≤ h → 3 ≤ w →
  wp (ConvLayer_forward (length (modules σ0)) x) σ (λ S σ',
    has_shape σ' (output S) [n; co; (h + 1) / 2 / 2; (w + 1) / 2 / 2]
    ∧ ∃ pre ix it,
        pre_pool S = Some pre ∧ pool_indices S = Some ix
        ∧ has_shape σ' pre [n; co; (h + 1) / 2; (w + 1) / 2]
        ∧ longs σ' !! ix = Some it
        ∧ shape it = [n; co; (h + 1) / 2 / 2; (w + 1) / 2 / 2]).
Proof.
  intros [j ->] He Hx Hsx Hh Hw.
  assert (j = (2 - 1 + (2 * j + 1) - 1) / 2) as Hp
    by (apply (Nat.div_unique _ 2 j 1); lia).
  assert (∀ a, 3 ≤ a → 2 ≤ (a + 1) / 2) as Hhalf.
  { intros a Ha. apply Nat.div_le_lower_bound; lia. }
  eapply (built_stage_shapes ci co (2 * j + 1) 2 σ0 σ x xt n h w); try done.
  - lia.
  - rewrite <- Hp. lia.
  - rewrite <- Hp. lia.
  - apply conv_out_stride2; lia.
  - apply conv_out_stride2; lia.
  - by apply Hhalf.
  - by apply Hhalf.
Qed.
End PaddingSizes.

(** * Which input sizes the default network accepts *)

Section InputSizes.
Context {F : Type} `{Scalar F} `{Kernels F}.
Implicit Types σ : state F.

Lemma default_stage_half σ r ci co s x n h :
  stage_ok σ r ci co 7 s → s = 1 ∨ s = 2 →
  has_shape σ x [n; ci; h; h] → 4 ≤ h →
  wp (ConvLayer_forward r x) σ (λ S σ',
    ext σ σ' ∧ has_shape σ' (output S) [n; co; (h + (s - 1)) / s / 2; (h + (s - 1)) / s / 2]).
Proof.
  intros Hst Hs Hx Hh.
  assert (conv_out h 7 s (((s - 1) + 7 - 1) / 2) = (h + (s - 1)) / s) as Eho.
  { destruct Hs as [-> | ->].
    - rewrite (conv_out_same h 7); [|by exists 3|lia]. cbn [Nat.sub].
      by rewrite Nat.add_0_r, Nat.div_1_r.
    - apply (conv_out_stride2 h 3). lia. }
  assert (2 ≤ (h + (s - 1)) / s) as Hho.
  { destruct Hs as [-> | ->]; apply Nat.div_le_lower_bound; lia. }
  eapply wp_mono.
  { eapply (default_stage σ r ci co s x n h); [done|lia|done|lia|exact Eho|done]. }
  intros S σ' (E & Ho & _). split; [done|]. by rewrite pool_out_half in Ho.
Qed.

(** the four stages of the default network on a square input: each
    halves the spatial size, the first one twice *)
Lemma default_stages σ (m : SimpleCNN F) x xt N h :
  model_ok σ m default_config →
  floats σ !! x = Some xt → shape xt = [N; 3; h; h] → 31 ≤ h →
  wp (forward_loop m 1 (conv_layers m) x []) σ (λ xl σ',
    ext σ σ' ∧ has_shape σ' xl.1 [N; 384; (h + 1) / 2 / 2 / 2 / 2 / 2; (h + 1) / 2 / 2 / 2 / 2 / 2]).
Proof.
  intros [(r1 & r2 & r3 & r4 & Hcl & St1 & St2 & St3 & St4) Hfw Hfb] Hx Hsx Hh.
  cbn [default_config conv1_channels conv2_channels conv3_channels conv4_channels
       config_kernel_size fc_units] in *.
  set (q1 := (h + 1) / 2 / 2). set (q2 := q1 / 2). set (q3 := q2 / 2). set (q4 := q3 / 2).
  assert (8 ≤ q1) as H1 by (unfold q1; do 2 (apply Nat.div_le_lower_bound; [lia|]); lia).
  assert (4 ≤ q2) as H2 by (unfold q2; apply Nat.div_le_lower_bound; lia).
  assert (2 ≤ q3) as H3 by (unfold q3; apply Nat.div_le_lower_bound; lia).
  rewrite Hcl. cbn [forward_loop].
  apply wp_bind. eapply wp_mono.
  { eapply (default_stage_half σ r1 3 96 2 x N h); [done|auto|by exists xt|lia]. }
  intros S1 σ1 [E1 Sh1]. cbv beta. fold q1 in Sh1.
  apply wp_bind. unfold _collect_layer_state at 1. rewrite Hcl. cbn [length Nat.eqb].
  apply wp_ret.
  apply wp_bind. eapply wp_mono.
  { eapply (default_stage_half σ1 r2 96 256 1 (output S1) N q1);
      [by eapply stage_ok_ext|auto|done|lia]. }
  intros S2 σ2 [E2 Sh2]. cbv beta.
  cbn [Nat.sub] in Sh2. rewrite Nat.add_0_r, Nat.div_1_r in Sh2. fold q2 in Sh2.
  apply wp_bind. unfold _collect_layer_state at 1. rewrite Hcl. cbn [length Nat.eqb].
  apply wp_ret.
  apply wp_bind. eapply wp_mono.
  { eapply (default_stage_half σ2 r3 256 384 1 (output S2) N q2);
      [eauto using stage_ok_ext, ext_trans|auto|done|lia]. }
  intros S3 σ3 [E3 Sh3]. cbv beta.
  cbn [Nat.sub] in Sh3. rewrite Nat.add_0_r, Nat.div_1_r in Sh3. fold q3 in Sh3.
  apply wp_bind. unfold _collect_layer_state at 1. rewrite Hcl. cbn [length Nat.eqb].
  apply wp_ret.
  destruct Sh3 as (t3 & Ht3 & Hst3).
  (* the last stage pools a tensor that may be as small as 2x2 *)
  apply wp_bind. eapply wp_mono.
  { eapply (default_stage σ3 r4 384 384 1 (output S3) N q3 q3);
      [eauto using stage_ok_ext, ext_trans|lia|by exists t3|lia| |done].
    apply conv_out_same; [by exists 3|lia]. }
  intros S4 σ4 (E4 & Ho4 & _). cbv beta. rewrite pool_out_half in Ho4 by done.
  fold q4 in Ho4. destruct Ho4 as (t4 & Ht4 & Hst4).
  apply wp_bind. unfold _collect_layer_state at 1. rewrite Hcl. cbn [length Nat.eqb].
  apply wp_bind. eapply wp_mono; [by apply clone_spec|].
  intros c σ5 (G5 & _ & Hc). cbv beta. apply wp_ret. apply wp_ret. cbn [fst].
  split; [eauto 6 using ext_trans, grows_ext|]. exists t4. split; [by eapply grows_float|done].
Qed.

(** X5: which square inputs the default network accepts.  On a batch
    of shape (N,3,h,h) with N at least 1 and h at least 31 (so that every
    pool has something to pool), [forward] returns logits of shape
    (N,1000) when h is between 223 and 254, and otherwise raises the
    [RuntimeError] of the classifier, whose input size is fixed to
    384*7*7 by the constructor. *)
Theorem forward_default_input_sizes σ (m : SimpleCNN F) x xt N h :
  model_ok σ m default_config →
  floats σ !! x = Some xt → shape xt = [N; 3; h; h] → 0 < N → 31 ≤ h →
  (223 ≤ h ≤ 254 →
     ∃ ms σ', SimpleCNN_forward m x σ = Ok ms σ' ∧ has_shape σ' (logits ms) [N; 1000])
  ∧ (¬ (223 ≤ h ≤ 254) →
     ∃ σ', SimpleCNN_forward m x σ
           = Raise (RuntimeError "mat1 and mat2 shapes cannot be multiplied") σ').
Proof.
  intros Hok Hx Hsx HN Hh.
  pose proof (default_stages σ m x xt N h Hok Hx Hsx Hh) as Hloop.
  destruct Hok as [_ Hfw Hfb].
  cbn [default_config conv1_channels conv2_channels conv3_channels conv4_channels
       config_kernel_size fc_units] in *.
  set (q4 := (h + 1) / 2 / 2 / 2 / 2 / 2) in *.
  assert (q4 = 7 ↔ 223 ≤ h ≤ 254) as Hq4.
  { unfold q4. rewrite !Nat.Div0.div_div.
    change (2 * (2 * (2 * (2 * 2)))) with 32.
    pose proof (Nat.div_mod_eq (h + 1) 32). pose proof (Nat.mod_upper_bound (h + 1) 32).
    lia. }
  apply wp_returns in Hloop as ([xf lss] & σ1 & Hrun & E1 & (ft & Hft & Hsft)).
  cbn [fst] in *.
  pose proof (view_flat_spec xf σ1 ft N [384; q4; q4] Hft Hsft ltac:(lia)) as Hview.
  apply wp_returns in Hview as (v & σ2 & Hv & G2 & Hvt).
  destruct (has_shape_ext _ _ _ _ (ext_trans _ _ _ E1 (grows_ext _ _ G2)) Hfw)
    as (wt & Hw & Hsw).
  destruct (is_Some_float_ext _ _ _ (ext_trans _ _ _ E1 (grows_ext _ _ G2)) Hfb) as [bt Hb].
  assert (SimpleCNN_forward m x σ
          = (let! logits := linear (fc m) v in
             ret {| logits := logits; layer_states := lss; features := Some xf |}) σ2) as Hfwd.
  { unfold SimpleCNN_forward. rewrite (bind_run _ _ _ _ _ Hrun).
    by rewrite (bind_run _ _ _ _ _ Hv). }
  assert (linear (fc m) v σ2
          = if negb (numel [384; q4; q4] =? 384 * 7 * 7)
            then Raise (RuntimeError "mat1 and mat2 shapes cannot be multiplied") σ2
            else alloc_float (Tensor [N; 1000]
                   (tabulate (N * 1000)
                      (linear_at (Tensor [N; numel [384; q4; q4]] (data ft)) wt bt))) σ2)
    as Hlin.
  { unfold linear.
    rewrite (bind_run _ _ _ _ _ (read_float_run _ _ _ Hvt)).
    rewrite (bind_run _ _ _ _ _ (read_float_run _ _ _ Hw)).
    rewrite (bind_run _ _ _ _ _ (read_float_run _ _ _ Hb)).
    cbn [shape]. rewrite Hsw. by destruct (negb _). }
  rewrite Hfwd. unfold bind. rewrite Hlin. cbn [numel foldr].
  split.
  - intros Hin. apply Hq4 in Hin. rewrite Hin. cbn.
    eexists _, _. split; [reflexivity|]. cbn [logits floats].
    eexists. split; [by apply list_lookup_middle|done].
  - intros Hout. assert (q4 ≠ 7) as Hne by (intros ?; by apply Hout, Hq4).
    destruct (Nat.eqb_spec (384 * (q4 * (q4 * 1))) (384 * 7 * 7)) as [Heq|_].
    + exfalso. apply Hne. nia.
    + cbn. by eexists.
Qed.

(** X6: an empty batch never gets through.  On a batch of shape
    (0,3,h,h) with h at least 31, the four stages of the default network
    run on tensors without elements, and [forward] raises the
    [RuntimeError] of [x.view(x.size(0), -1)] before the classifier is
    reached, whatever [h] is. *)
Theorem forward_empty_batch_raises σ (m : SimpleCNN F) x xt h :
  model_ok σ m default_config →
  floats σ !! x = Some xt → shape xt = [0; 3; h; h] → 31 ≤ h →
  ∃ σ', SimpleCNN_forward m x σ
        = Raise (RuntimeError "cannot reshape tensor of 0 elements") σ'
        ∧ ext σ σ'.
Proof.
  intros Hok Hx Hsx Hh.
  pose proof (default_stages σ m x xt 0 h Hok Hx Hsx Hh) as Hloop.
  apply wp_returns in Hloop as ([xf lss] & σ1 & Hrun & E1 & (ft & Hft & Hsft)).
  cbn [fst] in *. exists σ1. split; [|done].
  unfold SimpleCNN_forward. rewrite (bind_run _ _ _ _ _ Hrun).
  unfold bind at 1, view_flat.
  rewrite (bind_run _ _ _ _ _ (read_float_run _ _ _ Hft)). by rewrite Hsft.
Qed.
End InputSizes.

(** * What the visualisation leaves alone *)

Section ReadOnly.
Context {F : Type} `{Scalar F} `{Kernels F}.
Implicit Types σ : state F.

(** a computation that, whether it returns or raises, has only appended
    cells to the store *)
Definition appends {A} (m : M F A) : Prop := ∀ σ, grows σ (final_state (m σ)).

Lemma appends_ret {A} (a : A) : appends (ret a : M F A).
Proof. intros σ. apply grows_refl. Qed.

Lemma appends_raise {A} e : appends (raise e : M F A).
Proof. intros σ. apply grows_refl. Qed.

Lemma appends_bind {A B} (m : M F A) (k : A → M F B) :
  appends m → (∀ a, appends (k a)) → appends (bind m k).
Proof.
  intros Hm Hk σ. unfold bind. specialize (Hm σ).
  destruct (m σ) as [a σ1|e σ1]; [|done].
  eapply grows_trans; [exact Hm|]. apply Hk.
Qed.

Lemma appends_read_float r : appends (read_float r : M F _).
Proof. intros σ. unfold read_float. destruct (floats σ !! r); apply grows_refl. Qed.

Lemma appends_read_long r : appends (read_long r : M F _).
Proof. intros σ. unfold read_long. destruct (longs σ !! r); apply grows_refl. Qed.

Lemma appends_read_module r : appends (read_module r : M F _).
Proof. intros σ. unfold read_module. destruct (modules σ !! r); apply grows_refl. Qed.

Lemma appends_alloc_float t : appends (alloc_float t : M F _).
Proof.
  intros σ. split; [by eexists|]. split; [|done]. exists []. by rewrite app_nil_r.
Qed.

Lemma appends_getitem {A} (l : list A) i : appends (getitem l i : M F A).
Proof. intros σ. unfold getitem. destruct (py_index l i); apply grows_refl. Qed.

Lemma appends_max_unpool2d u x ix size : appends (max_unpool2d u x ix size).
Proof.
  unfold max_unpool2d.
  apply appends_bind; [apply appends_read_float|]. intros xt.
  apply appends_bind; [apply appends_read_long|]. intros it.
  repeat case_match;
    first [apply appends_raise | apply appends_alloc_float].
Qed.

Lemma appends_flip_2_3 x : appends (flip_2_3 x).
Proof.
  unfold flip_2_3. apply appends_bind; [apply appends_read_float|]. intros xt.
  repeat case_match; first [apply appends_raise | apply appends_alloc_float].
Qed.

Lemma appends_conv_transpose2d x w strd pad opad :
  appends (conv_transpose2d x w None strd pad opad).
Proof.
  unfold conv_transpose2d.
  apply appends_bind; [apply appends_read_float|]. intros xt.
  apply appends_bind; [apply appends_read_float|]. intros wt.
  apply appends_bind; [apply appends_ret|]. intros bt.
  repeat case_match; first [apply appends_raise | apply appends_alloc_float].
Qed.

Lemma appends_DeconvLayer_forward d x mi size : appends (DeconvLayer_forward d x mi size).
Proof.
  unfold DeconvLayer_forward.
  apply appends_bind.
  { destruct mi; [apply appends_max_unpool2d|apply appends_raise]. }
  intros xu. apply appends_bind; [apply appends_read_module|]. intros l.
  apply appends_bind; [apply appends_flip_2_3|]. intros wf.
  apply appends_conv_transpose2d.
Qed.

Lemma appends_deconv_loop m ms i ds x : appends (deconv_loop m ms i ds x).
Proof.
  revert i x. induction ds as [|d ds IH]; intros i x; [apply appends_ret|].
  cbn [deconv_loop].
  apply appends_bind; [apply appends_getitem|]. intros st.
  apply appends_bind.
  { destruct (pre_pool st); [|apply appends_raise].
    apply appends_bind; [apply appends_read_float|]. intros t. apply appends_ret. }
  intros size. apply appends_bind; [apply appends_DeconvLayer_forward|].
  intros x'. apply IH.
Qed.

(** X7: [deconv_visualization] is read-only towards everything that
    exists when it is called.  Whatever the network, the feature maps,
    the model state and the layer index, and whether the call returns or
    raises, the store it ends in is the store it started in with cells
    appended: no parameter, no recorded tensor of the model state and no
    module object is overwritten. *)
Theorem deconv_visualization_read_only (m : SimpleCNN F) fm ms (layer : Z) σ :
  grows σ (final_state (deconv_visualization m fm ms layer σ)).
Proof.
  unfold deconv_visualization.
  destruct (negb _); [apply grows_refl|]. apply appends_deconv_loop.
Qed.

(** X8: on a network built by [SimpleCNN.__init__], for a layer index
    [L] in range, a model state with fewer than [L] layer states makes
    [deconv_visualization] raise [IndexError] before anything is
    computed: the store is the one it was called in. *)
Theorem deconv_visualization_short_state cfg σ0 (m : SimpleCNN F) σ1 fm ms (L : Z) σ :
  SimpleCNN_init cfg σ0 = Ok m σ1 →
  (1 ≤ L ≤ 4)%Z → (Z.of_nat (length (layer_states ms)) < L)%Z →
  deconv_visualization m fm ms L σ = Raise IndexError σ.
Proof.
  rewrite SimpleCNN_init_run. intros [= <- <-] HL Hshort.
  rewrite deconv_visualization_mirrored; [|done|simpl; lia].
  destruct (Z.to_nat L) as [|j] eqn:Ej; [lia|]. cbn [reverse_from].
  destruct (conv_layers _ !! j) as [c|] eqn:Hc.
  - rewrite lookup_ge_None_2 by lia. done.
  - done.
Qed.

(** X9: on such a network, for a layer index [L] in range, a model
    state whose layer state [L-1] carries no [pre_pool] (the default of
    the [LayerState] dataclass) makes [deconv_visualization] raise
    [AttributeError] before anything is computed. *)
Theorem deconv_visualization_no_pre_pool cfg σ0 (m : SimpleCNN F) σ1 fm ms (L : Z) st σ :
  SimpleCNN_init cfg σ0 = Ok m σ1 →
  (1 ≤ L ≤ 4)%Z →
  layer_states ms !! Z.to_nat (L - 1) = Some st → pre_pool st = None →
  deconv_visualization m fm ms L σ = Raise AttributeError σ.
Proof.
  rewrite SimpleCNN_init_run. intros [= <- <-] HL Hst Hpre.
  rewrite deconv_visualization_mirrored; [|done|simpl; lia].
  destruct (Z.to_nat L) as [|j] eqn:Ej; [lia|]. cbn [reverse_from].
  replace (Z.to_nat (L - 1)) with j in Hst by lia.
  destruct (conv_layers _ !! j) as [c|] eqn:Hc.
  - rewrite Hst. unfold pre_pool_size. rewrite Hpre. done.
  - apply lookup_ge_None in Hc. simpl in Hc. lia.
Qed.
End ReadOnly.

(** * What a forward pass writes *)

Section Frame.
Context {F : Type} `{Scalar F} `{Kernels F}.
Implicit Types σ : state F.
Implicit Types fs ls : nat → Prop.

(** [σ'] is [σ] with cells appended and, among the cells of [σ], only
    floating cells in [fs] and int64 cells in [ls] possibly overwritten *)
Definition keeps fs ls σ σ' : Prop :=
  modules σ' = modules σ
  ∧ length (floats σ) ≤ length (floats σ') ∧ length (longs σ) ≤ length (longs σ')
  ∧ (∀ r, r < length (floats σ) → ¬ fs r → floats σ' !! r = floats σ !! r)
  ∧ (∀ r, r < length (longs σ) → ¬ ls r → longs σ' !! r = longs σ !! r).

Lemma keeps_refl fs ls σ : keeps fs ls σ σ.
Proof. by split_and!. Qed.

Lemma keeps_trans fs ls σ1 σ2 σ3 : keeps fs ls σ1 σ2 → keeps fs ls σ2 σ3 → keeps fs ls σ1 σ3.
Proof.
  intros (M1 & F1 & L1 & Kf1 & Kl1) (M2 & F2 & L2 & Kf2 & Kl2). split_and!.
  - congruence.
  - lia.
  - lia.
  - intros r Hr Hn. rewrite Kf2 by (done || lia). by apply Kf1.
  - intros r Hr Hn. rewrite Kl2 by (done || lia). by apply Kl1.
Qed.

Lemma keeps_mono fs ls fs' ls' σ σ' :
  (∀ r, fs r → fs' r) → (∀ r, ls r → ls' r) → keeps fs ls σ σ' → keeps fs' ls' σ σ'.
Proof.
  intros Hf Hl (M1 & F1 & L1 & Kf1 & Kl1). split_and!; try done.
  - intros r Hr Hn. apply Kf1; [done|]. intros ?. by apply Hn, Hf.
  - intros r Hr Hn. apply Kl1; [done|]. intros ?. by apply Hn, Hl.
Qed.

Lemma grows_keeps fs ls σ σ' : grows σ σ' → keeps fs ls σ σ'.
Proof.
  intros ([fl Ef] & [ll El] & Em). split_and!; try done.
  - rewrite Ef, length_app. lia.
  - rewrite El, length_app. lia.
  - intros r Hr _. rewrite Ef. by apply lookup_app_l.
  - intros r Hr _. rewrite El. by apply lookup_app_l.
Qed.

(** a computation that, whether it returns or raises, [keeps] *)
Definition touches {A} fs ls (m : M F A) : Prop := ∀ σ, keeps fs ls σ (final_state (m σ)).

Lemma touches_bind {A B} fs ls (m : M F A) (k : A → M F B) :
  touches fs ls m → (∀ a, touches fs ls (k a)) → touches fs ls (bind m k).
Proof.
  intros Hm Hk σ. unfold bind. specialize (Hm σ).
  destruct (m σ) as [a σ1|e σ1]; [|done].
  eapply keeps_trans; [exact Hm|]. apply Hk.
Qed.

Lemma touches_pure {A} fs ls (m : M F A) :
  (∀ σ, final_state (m σ) = σ) → touches fs ls m.
Proof. intros Hm σ. rewrite Hm. apply keeps_refl. Qed.

Lemma touches_read_float fs ls r : touches fs ls (read_float r : M F _).
Proof. apply touches_pure. intros σ. unfold read_float. by destruct (floats σ !! r). Qed.

Lemma touches_read_long fs ls r : touches fs ls (read_long r : M F _).
Proof. apply touches_pure. intros σ. unfold read_long. by destruct (longs σ !! r). Qed.

Lemma touches_read_module fs ls r : touches fs ls (read_module r : M F _).
Proof. apply touches_pure. intros σ. unfold read_module. by destruct (modules σ !! r). Qed.

Lemma touches_alloc_float fs ls t : touches fs ls (alloc_float t : M F _).
Proof.
  intros σ. apply grows_keeps. split; [by eexists|]. split; [|done].
  exists []. by rewrite app_nil_r.
Qed.

Lemma touches_alloc_long fs ls t : touches fs ls (alloc_long t : M F _).
Proof.
  intros σ. apply grows_keeps. split; [|split; [by eexists|done]].
  exists []. by rewrite app_nil_r.
Qed.

Lemma touches_write_float fs ls r t : fs r → touches fs ls (write_float r t : M F _).
Proof.
  intros Hr σ. cbn. split_and!; cbn; try done.
  - by rewrite length_insert.
  - intros r' _ Hn. apply list_lookup_insert_ne. by intros ->.
Qed.

Lemma touches_write_long fs ls r t : ls r → touches fs ls (write_long r t : M F _).
Proof.
  intros Hr σ. cbn. split_and!; cbn; try done.
  - by rewrite length_insert.
  - intros r' _ Hn. apply list_lookup_insert_ne. by intros ->.
Qed.

Ltac touches_step :=
  first [ apply touches_read_float | apply touches_read_long | apply touches_read_module
        | apply touches_alloc_float | apply touches_alloc_long
        | apply touches_pure; reflexivity
        | apply touches_bind; [|intros ?] ].

Lemma touches_conv2d fs ls c x : touches fs ls (conv2d c x).
Proof.
  unfold conv2d. do 3 (apply touches_bind; [touches_step|intros ?]).
  repeat case_match; touches_step.
Qed.

Lemma touches_relu fs ls x : touches fs ls (relu x).
Proof. unfold relu. apply touches_bind; [touches_step|intros ?]. touches_step. Qed.

Lemma touches_max_pool2d fs ls p x : touches fs ls (max_pool2d p x).
Proof.
  unfold max_pool2d. apply touches_bind; [touches_step|intros ?].
  repeat case_match; try (apply touches_pure; reflexivity).
  apply touches_bind; [touches_step|intros ?].
  apply touches_bind; [touches_step|intros ?]. by apply touches_pure.
Qed.

Lemma touches_batch_norm fs ls b x :
  fs (running_mean b) → fs (running_var b) → ls (num_batches_tracked b) →
  touches fs ls (batch_norm b x).
Proof.
  intros Hm Hv Hc. unfold batch_norm. apply touches_bind; [touches_step|intros xt].
  destruct (shape xt) as [|n [|c [|h [|w [|]]]]]; try (apply touches_pure; reflexivity).
  apply touches_bind.
  { destruct (training b); [|by apply touches_pure].
    apply touches_bind; [touches_step|intros ?]. by apply touches_write_long. }
  intros _. destruct (training b && _); [by apply touches_pure|].
  destruct (negb _); [by apply touches_pure|].
  do 4 (apply touches_bind; [touches_step|intros ?]).
  apply touches_bind; [|intros ?; touches_step].
  destruct (training b); [|by apply touches_pure].
  apply touches_bind; [by apply touches_write_float|intros ?].
  by apply touches_write_float.
Qed.

Lemma touches_clone fs ls x : touches fs ls (clone x).
Proof. unfold clone. apply touches_bind; [touches_step|intros ?]. touches_step. Qed.

Lemma touches_view_flat fs ls x : touches fs ls (view_flat x).
Proof.
  unfold view_flat. apply touches_bind; [touches_step|intros ?].
  repeat case_match; touches_step.
Qed.

Lemma touches_linear fs ls l x : touches fs ls (linear l x).
Proof.
  unfold linear. do 3 (apply touches_bind; [touches_step|intros ?]).
  repeat case_match; touches_step.
Qed.

(** the running statistics and the batch counter of the layer at [c] *)
Definition statistics_of σ (c : nat) (r : nat) : Prop :=
  ∃ l, modules σ !! c = Some l ∧ (r = running_mean (bn l) ∨ r = running_var (bn l)).

Definition counter_of σ (c : nat) (r : nat) : Prop :=
  ∃ l, modules σ !! c = Some l ∧ r = num_batches_tracked (bn l).

Lemma keeps_ConvLayer_forward fs ls self x σ :
  (∀ r, statistics_of σ self r → fs r) → (∀ r, counter_of σ self r → ls r) →
  keeps fs ls σ (final_state (ConvLayer_forward self x σ)).
Proof.
  intros Hfs Hls. unfold ConvLayer_forward. unfold bind at 1, read_module at 1.
  destruct (modules σ !! self) as [l|] eqn:Hl; [|apply keeps_refl].
  revert σ Hl Hfs Hls.
  assert (fs (running_mean (bn l)) → fs (running_var (bn l)) → ls (num_batches_tracked (bn l)) →
          touches fs ls
            (let! x := conv2d (conv l) x in
             let! x := batch_norm (bn l) x in
             let! x := relu x in
             let pre_pool := x in
             let! (x, indices) := max_pool2d (pool l) x in
             ret {| output := x; pre_pool := Some pre_pool; pool_indices := Some indices |}))
    as Hbody.
  { intros Hm Hv Hc.
    apply touches_bind; [apply touches_conv2d|intros ?].
    apply touches_bind; [by apply touches_batch_norm|intros ?].
    apply touches_bind; [apply touches_relu|intros ?].
    apply touches_bind; [apply touches_max_pool2d|intros [? ?]].
    by apply touches_pure. }
  intros σ Hl Hfs Hls. apply Hbody.
  - apply Hfs. exists l. auto.
  - apply Hfs. exists l. auto.
  - apply Hls. by exists l.
Qed.

Lemma keeps_forward_loop fs ls self i layers x acc σ :
  (∀ c r, c ∈ layers → statistics_of σ c r → fs r) →
  (∀ c r, c ∈ layers → counter_of σ c r → ls r) →
  keeps fs ls σ (final_state (forward_loop self i layers x acc σ)).
Proof.
  revert i x acc σ. induction layers as [|c layers IH]; intros i x acc σ Hfs Hls.
  { apply keeps_refl. }
  cbn [forward_loop]. unfold bind at 1.
  pose proof (keeps_ConvLayer_forward fs ls c x σ) as K1.
  destruct (ConvLayer_forward c x σ) as [lo σ1|e σ1]; cbn [final_state] in *.
  2:{ apply K1; intros r; [apply Hfs|apply Hls]; apply list_elem_of_here. }
  assert (keeps fs ls σ σ1) as K01.
  { apply K1; intros r; [apply Hfs|apply Hls]; apply list_elem_of_here. }
  eapply keeps_trans; [exact K01|].
  unfold bind at 1.
  assert (keeps fs ls σ1 (final_state (_collect_layer_state self i lo σ1))) as K2.
  { unfold _collect_layer_state. destruct (_ =? _); [|apply keeps_refl].
    apply (touches_bind fs ls); [apply touches_clone|intros ?]. by apply touches_pure. }
  destruct (_collect_layer_state self i lo σ1) as [ls' σ2|e σ2]; cbn [final_state] in *;
    [|done].
  eapply keeps_trans; [exact K2|].
  assert (modules σ2 = modules σ) as Hmod.
  { destruct K2 as [-> _]. by destruct K01 as [-> _]. }
  apply IH.
  - intros c' r Hc' (l & Hl & Hr). apply (Hfs c'); [by apply list_elem_of_further|].
    exists l. by rewrite <- Hmod.
  - intros c' r Hc' (l & Hl & Hr). apply (Hls c'); [by apply list_elem_of_further|].
    exists l. by rewrite <- Hmod.
Qed.

(** X10: whether it returns or raises, [forward] overwrites nothing but
    the running mean, the running variance and the batch counter of the
    batch normalisation of its conv layers: every conv weight and bias,
    every batch-normalisation weight and bias, the classifier, the input
    and any other tensor that exists when it is called hold the same
    contents afterwards, and the module objects are the same. *)
Theorem forward_writes_statistics_only (m : SimpleCNN F) x σ :
  modules (final_state (SimpleCNN_forward m x σ)) = modules σ
  ∧ (∀ r t, floats σ !! r = Some t →
       (∀ c l, c ∈ conv_layers m → modules σ !! c = Some l →
               r ≠ running_mean (bn l) ∧ r ≠ running_var (bn l)) →
       floats (final_state (SimpleCNN_forward m x σ)) !! r = Some t)
  ∧ (∀ r t, longs σ !! r = Some t →
       (∀ c l, c ∈ conv_layers m → modules σ !! c = Some l →
               r ≠ num_batches_tracked (bn l)) →
       longs (final_state (SimpleCNN_forward m x σ)) !! r = Some t).
Proof.
  set (fs := λ r, ∃ c, c ∈ conv_layers m ∧ statistics_of σ c r).
  set (ls := λ r, ∃ c, c ∈ conv_layers m ∧ counter_of σ c r).
  assert (keeps fs ls σ (final_state (SimpleCNN_forward m x σ))) as (Hm & _ & _ & Kf & Kl).
  { unfold SimpleCNN_forward. unfold bind at 1.
    pose proof (keeps_forward_loop fs ls m 1 (conv_layers m) x [] σ) as K1.
    destruct (forward_loop m 1 (conv_layers m) x [] σ) as [[xf lss] σ1|e σ1];
      cbn [final_state] in *.
    2:{ apply K1; intros c r Hc Hr; by exists c. }
    eapply keeps_trans; [apply K1; intros c r Hc Hr; by exists c|].
    apply (touches_bind fs ls); [apply touches_view_flat|intros ?].
    apply (touches_bind fs ls); [apply touches_linear|intros ?]. by apply touches_pure. }
  split; [done|]. split.
  - intros r t Hr Hn. rewrite Kf; [done|by eapply lookup_lt_Some|].
    intros (c & Hc & l & Hl & Hor). destruct (Hn c l Hc Hl). by destruct Hor.
  - intros r t Hr Hn. rewrite Kl; [done|by eapply lookup_lt_Some|].
    intros (c & Hc & l & Hl & Heq). by apply (Hn c l Hc Hl).
Qed.

(** ** The batch counters *)

Definition incremented (t : tensor Z) : tensor Z :=
  Tensor (shape t) ((λ z, (z + 1)%Z) <$> data t).

Lemma keeps_Ok {A} fs ls (m : M F A) σ a σ' :
  touches fs ls m → m σ = Ok a σ' → keeps fs ls σ σ'.
Proof. intros Hm Hrun. specialize (Hm σ). by rewrite Hrun in Hm. Qed.

Lemma keeps_long fs ls σ σ' r t :
  keeps fs ls σ σ' → ¬ ls r → longs σ !! r = Some t → longs σ' !! r = Some t.
Proof.
  intros (_ & _ & _ & _ & Kl) Hn Hr. rewrite Kl; [done|by eapply lookup_lt_Some|done].
Qed.

Lemma batch_norm_counts b x σ r σ' t :
  batch_norm b x σ = Ok r σ' → training b = true →
  longs σ !! num_batches_tracked b = Some t →
  longs σ' !! num_batches_tracked b = Some (incremented t).
Proof.
  unfold batch_norm. intros Hrun Htr Ht. rewrite Htr in Hrun.
  apply bind_Ok in Hrun as (xt & σ1 & [_ ->]%read_float_Ok & Hrun).
  destruct (shape xt) as [|n [|c [|h [|w [|]]]]]; try done.
  apply bind_Ok in Hrun as ([] & σ1 & Hw & Hrun).
  apply bind_Ok in Hw as (t' & σ0 & [Ht' ->]%read_long_Ok & Hw).
  assert (t' = t) as -> by congruence.
  unfold write_long in Hw. injection Hw as <-.
  destruct (true && _); [done|]. destruct (negb _); [done|].
  set (σ1 := State _ _ _) in Hrun.
  assert (longs σ1 !! num_batches_tracked b = Some (incremented t)) as H1.
  { cbn. apply list_lookup_insert_eq. by eapply lookup_lt_Some. }
  eapply (keeps_long (λ _, True) (λ _, False) σ1 σ'); [|tauto|exact H1].
  eapply (keeps_Ok _ _ _ σ1 r σ'); [|exact Hrun].
  do 4 (apply touches_bind; [touches_step|intros ?]).
  apply touches_bind; [|intros ?; touches_step].
  apply touches_bind; [by apply touches_write_float|intros ?].
  by apply touches_write_float.
Qed.

Lemma ConvLayer_forward_counts self x σ st σ' l t :
  ConvLayer_forward self x σ = Ok st σ' →
  modules σ !! self = Some l → training (bn l) = true →
  longs σ !! num_batches_tracked (bn l) = Some t →
  longs σ' !! num_batches_tracked (bn l) = Some (incremented t).
Proof.
  unfold ConvLayer_forward. intros Hrun Hl Htr Ht.
  apply bind_Ok in Hrun as (l' & σ0 & [Hl' ->]%read_module_Ok & Hrun).
  assert (l' = l) as -> by congruence.
  apply bind_Ok in Hrun as (x1 & σ1 & H1 & Hrun).
  apply bind_Ok in Hrun as (x2 & σ2 & H2 & Hrun).
  apply bind_Ok in Hrun as (x3 & σ3 & H3 & Hrun).
  apply bind_Ok in Hrun as ([x4 ix] & σ4 & H4 & Hrun). injection Hrun as <- <-.
  apply (keeps_Ok (λ _, False) (λ _, False)) in H1; [|apply touches_conv2d].
  apply (keeps_Ok (λ _, False) (λ _, False)) in H3; [|apply touches_relu].
  apply (keeps_Ok (λ _, False) (λ _, False)) in H4; [|apply touches_max_pool2d].
  eapply keeps_long; [exact H4|tauto|]. eapply keeps_long; [exact H3|tauto|].
  eapply batch_norm_counts; [exact H2|done|].
  eapply keeps_long; [exact H1|tauto|done].
Qed.

Lemma forward_loop_counts self i layers x acc σ res σ' lys :
  forward_loop self i layers x acc σ = Ok res σ' →
  Forall2 (λ c l, modules σ !! c = Some l ∧ training (bn l) = true) layers lys →
  NoDup ((λ l, num_batches_tracked (bn l)) <$> lys) →
  modules σ' = modules σ
  ∧ (∀ l t, l ∈ lys → longs σ !! num_batches_tracked (bn l) = Some t →
       longs σ' !! num_batches_tracked (bn l) = Some (incremented t))
  ∧ (∀ r t, (∀ l, l ∈ lys → r ≠ num_batches_tracked (bn l)) →
       longs σ !! r = Some t → longs σ' !! r = Some t).
Proof.
  intros Hrun Hall. revert i layers x acc σ res σ' Hrun Hall.
  induction lys as [|l lys IH]; intros i layers x acc σ res σ' Hrun Hall Hnd.
  { apply Forall2_nil_inv_r in Hall as ->. cbn in Hrun. injection Hrun as <- <-.
    split; [done|]. split; [|done]. intros l t Hl. by apply elem_of_nil in Hl. }
  apply Forall2_cons_inv_r in Hall as (c & layers' & [Hl Htr] & Hall & ->).
  cbn [fmap list_fmap] in Hnd. apply NoDup_cons in Hnd as [Hnotin Hnd].
  cbn [forward_loop] in Hrun.
  apply bind_Ok in Hrun as (lo & σ1 & Hfw & Hrun).
  apply bind_Ok in Hrun as (st & σ2 & Hcol & Hrun).
  assert (keeps (λ _, True) (λ r, r = num_batches_tracked (bn l)) σ σ1) as K1.
  { pose proof (keeps_ConvLayer_forward (λ _, True) (λ r, r = num_batches_tracked (bn l))
                  c x σ) as K.
    rewrite Hfw in K. apply K; [done|]. intros r (l' & Hl' & ->). congruence. }
  assert (keeps (λ _, True) (λ _, False) σ1 σ2) as K2.
  { eapply (keeps_Ok _ _ (_collect_layer_state self i lo)); [|exact Hcol].
    unfold _collect_layer_state. destruct (_ =? _); [|by apply touches_pure].
    apply touches_bind; [apply touches_clone|intros ?]. by apply touches_pure. }
  assert (modules σ2 = modules σ) as Hmod.
  { destruct K2 as [-> _]. by destruct K1 as [-> _]. }
  destruct (IH _ _ _ _ _ _ _ Hrun) as (Hm' & Hinc & Hkeep); [|done|].
  { eapply Forall2_impl; [exact Hall|]. intros c' l' [? ?]. by rewrite Hmod. }
  split; [congruence|]. split.
  - intros l' t Hin Ht. apply elem_of_cons in Hin as [->|Hin].
    + apply Hkeep.
      * intros l' Hl' Heq. apply Hnotin. rewrite Heq.
        apply list_elem_of_fmap. by exists l'.
      * eapply keeps_long; [exact K2|tauto|].
        by eapply ConvLayer_forward_counts.
    + apply Hinc; [done|]. eapply keeps_long; [exact K2|tauto|].
      eapply keeps_long; [exact K1| |done]. cbv beta. intros Heq. apply Hnotin.
      rewrite <- Heq. apply list_elem_of_fmap. by exists l'.
  - intros r t Hn Hr. apply Hkeep.
    + intros l' Hl'. apply Hn. by apply list_elem_of_further.
    + eapply keeps_long; [exact K2|tauto|]. eapply keeps_long; [exact K1| |done].
      cbv beta. apply Hn. apply list_elem_of_here.
Qed.

(** X11: a [forward] call that returns has incremented
    [num_batches_tracked] of every conv layer by exactly one (the layers
    are in training mode, as [ConvLayer.__init__] leaves them, and each
    has a counter of its own). *)
Theorem forward_counts_batches (m : SimpleCNN F) x σ ms σ' lys :
  SimpleCNN_forward m x σ = Ok ms σ' →
  Forall2 (λ c l, modules σ !! c = Some l ∧ training (bn l) = true) (conv_layers m) lys →
  NoDup ((λ l, num_batches_tracked (bn l)) <$> lys) →
  ∀ l t, l ∈ lys → longs σ !! num_batches_tracked (bn l) = Some t →
         longs σ' !! num_batches_tracked (bn l) = Some (incremented t).
Proof.
  unfold SimpleCNN_forward. intros Hrun Hall Hnd l t Hl Ht.
  apply bind_Ok in Hrun as ([xf lss] & σ1 & Hloop & Hrun).
  apply bind_Ok in Hrun as (v & σ2 & Hv & Hrun).
  apply bind_Ok in Hrun as (lg & σ3 & Hlg & Hrun). injection Hrun as <- <-.
  destruct (forward_loop_counts _ _ _ _ _ _ _ _ _ Hloop Hall Hnd) as (_ & Hinc & _).
  apply view_flat_grows in Hv. apply linear_grows in Hlg.
  eapply grows_long; [exact Hlg|]. eapply grows_long; [exact Hv|]. by apply Hinc.
Qed.
End Frame.

(** * A batch that is too small to normalise *)

Section SingleValue.
Context {F : Type} `{Scalar F} `{Kernels F}.
Implicit Types σ : state F.

(** X12: a stage in training mode, as [ConvLayer.__init__] builds it,
    cannot normalise a single value per channel.  When the convolution of
    the input gives a tensor with one image of 1x1 per channel,
    [ConvLayer.forward] raises [ValueError]; by then the batch counter of
    the stage has been incremented, and no pooling took place. *)
Theorem ConvLayer_forward_single_value (ci co k s : nat) σ0 σ x xt n h w t :
  ext (final_state (ConvLayer_init ci co k s σ0)) σ →
  floats σ !! x = Some xt → shape xt = [n; ci; h; w] → 1 ≤ s →
  k ≤ h + 2 * (((s - 1) + k - 1) / 2) → k ≤ w + 2 * (((s - 1) + k - 1) / 2) →
  n * conv_out h k s (((s - 1) + k - 1) / 2) * conv_out w k s (((s - 1) + k - 1) / 2) = 1 →
  longs σ !! length (longs σ0) = Some t →
  ∃ σ',
    ConvLayer_forward (length (modules σ0)) x σ
    = Raise (ValueError "Expected more than 1 value per channel when training") σ'
    ∧ longs σ' = <[length (longs σ0) := incremented t]> (longs σ)
    ∧ length (floats σ') = S (length (floats σ))
    ∧ modules σ' = modules σ.
Proof.
  intros He Hx Hsx Hs Hk1 Hk2 Hone Ht.
  rewrite ConvLayer_init_run in He. cbn [final_state] in He.
  pose proof (stage_ok_ext _ _ _ _ _ _ _ He (ConvLayer_init_ok ci co k s σ0))
    as (l & Hl & Hok & Hst & Hpad).
  set (l0 := new_layer (length (floats σ0)) (length (longs σ0)) ci co k s) in *.
  assert (l = l0) as ->.
  { assert (modules σ !! length (modules σ0) = Some l0) as Hl0; [|congruence].
    apply (ext_modules _ _ He). cbn [modules]. by apply list_lookup_middle. }
  pose proof (conv2d_spec (conv l0) x σ xt n ci h w co k k Hx Hsx
                (lo_weight _ _ _ _ _ _ Hok) (lo_bias _ _ _ _ _ _ Hok)) as Hconv.
  cbn [l0 new_layer conv stride padding fst snd] in Hconv.
  specialize (Hconv ltac:(lia) ltac:(lia) Hk1 Hk2).
  apply wp_returns in Hconv as (r1 & σ1 & Hrun1 & E1 & (t1 & Hr1 & Hs1)).
  assert (longs σ1 = longs σ ∧ length (floats σ1) = S (length (floats σ))
          ∧ modules σ1 = modules σ) as (Hlg & Hfl & Hmd).
  { unfold conv2d in Hrun1.
    apply bind_Ok in Hrun1 as (? & ? & [_ ->]%read_float_Ok & Hrun1).
    apply bind_Ok in Hrun1 as (? & ? & [_ ->]%read_float_Ok & Hrun1).
    apply bind_Ok in Hrun1 as (? & ? & [_ ->]%read_float_Ok & Hrun1).
    repeat case_match; try done;
      injection Hrun1 as <- <-; cbn; rewrite length_app; cbn;
      (split; [done|]); (split; [lia|done]). }
  eexists. split.
  - unfold ConvLayer_forward.
    rewrite (bind_run _ _ _ _ _ (read_module_run _ _ _ Hl)).
    rewrite (bind_run _ _ _ _ _ Hrun1).
    unfold bind at 1. unfold batch_norm.
    rewrite (bind_run _ _ _ _ _ (read_float_run _ _ _ Hr1)). rewrite Hs1.
    cbn [l0 new_layer bn training num_batches_tracked].
    assert (longs σ1 !! length (longs σ0) = Some t) as Ht1 by (by rewrite Hlg).
    assert ((let! t := read_long (length (longs σ0)) in
             write_long (length (longs σ0))
               (Tensor (shape t) ((λ z, (z + 1)%Z) <$> data t))) σ1
            = Ok tt (State (floats σ1) (<[length (longs σ0) := incremented t]> (longs σ1))
                           (modules σ1))) as Hw.
    { by rewrite (bind_run _ _ _ _ _ (read_long_run _ _ _ Ht1)). }
    rewrite (bind_run _ _ _ _ _ Hw). cbn [andb].
    rewrite (proj2 (Nat.eqb_eq _ 1) Hone). reflexivity.
  - cbn [longs floats modules]. by rewrite Hlg.
Qed.
End SingleValue.

(** * From a forward pass back to the input *)

Section RoundTrip.
Context {F : Type} `{Scalar F} `{Kernels F}.
Implicit Types σ : state F.

(** what a stage left behind, as the reversal needs it: the pooled
    output and the pre-pool tensor with their shapes, and indices that a
    2x2 pool recorded on a tensor of the pre-pool shape *)
Definition recorded σ (S : LayerState) (n c hp : nat) : Prop :=
  has_shape σ (output S) [n; c; pool_out hp 2; pool_out hp 2]
  ∧ ∃ pre ix pd,
      pre_pool S = Some pre ∧ pool_indices S = Some ix
      ∧ has_shape σ pre [n; c; hp; hp]
      ∧ longs σ !! ix = Some (pool_positions 2 n c hp hp pd).

Lemma recorded_grows σ σ' S n c hp : grows σ σ' → recorded σ S n c hp → recorded σ' S n c hp.
Proof.
  intros G (Ho & pre & ix & pd & Hp & Hi & Hsp & Hix).
  split; [eauto using has_shape_ext, grows_ext|].
  exists pre, ix, pd. split_and!; eauto using has_shape_ext, grows_ext, grows_long.
Qed.

(** the new index tensor of a stage lies beyond every cell of the store
    the stage started in *)
Lemma ConvLayer_forward_fresh self x σ st σ' :
  ConvLayer_forward self x σ = Ok st σ' →
  ∃ ix, pool_indices st = Some ix ∧ length (longs σ) ≤ ix.
Proof.
  unfold ConvLayer_forward. intros Hrun.
  apply bind_Ok in Hrun as (l & σ0 & [Hl ->]%read_module_Ok & Hrun).
  apply bind_Ok in Hrun as (x1 & σ1 & H1 & Hrun).
  apply bind_Ok in Hrun as (x2 & σ2 & H2 & Hrun).
  apply bind_Ok in Hrun as (x3 & σ3 & H3 & Hrun).
  apply bind_Ok in Hrun as ([x4 ix] & σ4 & H4 & Hrun). injection Hrun as <- <-.
  apply (keeps_Ok (λ _, True) (λ _, True)) in H1 as (_ & _ & L1 & _); [|apply touches_conv2d].
  apply (keeps_Ok (λ _, True) (λ _, True)) in H2 as (_ & _ & L2 & _);
    [|by apply touches_batch_norm].
  apply (keeps_Ok (λ _, True) (λ _, True)) in H3 as (_ & _ & L3 & _); [|apply touches_relu].
  exists ix. split; [done|].
  unfold max_pool2d in H4.
  apply bind_Ok in H4 as (xt & σ5 & [_ ->]%read_float_Ok & H4).
  destruct (shape xt) as [|n [|c [|h [|w [|]]]]]; try done.
  destruct (_ =? 0); [done|]. destruct (_ || _); [done|].
  apply bind_Ok in H4 as (o & σ5 & Ho & H4). injection Ho as <- <-.
  apply bind_Ok in H4 as (ix' & σ6 & Hi & H4). injection Hi as <- <-.
  injection H4 as <- <- <-. cbn [longs]. lia.
Qed.

(** a cell of the int64 store that is beyond the first [B] cells survives
    whatever overwrites only cells below [B] *)
Definition above (B : nat) σ σ' : Prop := keeps (λ _, True) (λ a, a < B) σ σ'.

Lemma recorded_later B σ σ' S n c hp :
  ext σ σ' → above B σ σ' →
  (∃ ix, pool_indices S = Some ix ∧ B ≤ ix) →
  recorded σ S n c hp → recorded σ' S n c hp.
Proof.
  intros E K (ix & Hix & HB) (Ho & pre & ix' & pd & Hp & Hi & Hsp & Hpos).
  assert (ix' = ix) as -> by congruence.
  split; [eauto using has_shape_ext|].
  exists pre, ix, pd. split_and!; eauto using has_shape_ext.
  eapply keeps_long; [exact K|cbv beta; lia|done].
Qed.

Lemma stage_records B σ r ci co s x n h ho :
  stage_ok σ r ci co 7 s → 1 ≤ s →
  has_shape σ x [n; ci; h; h] → 1 ≤ h →
  conv_out h 7 s (((s - 1) + 7 - 1) / 2) = ho → 2 ≤ ho →
  B ≤ length (longs σ) →
  (∀ a, counter_of σ r a → a < B) →
  wp (ConvLayer_forward r x) σ (λ S σ',
    ext σ σ' ∧ above B σ σ' ∧ recorded σ' S n co ho
    ∧ ∃ ix, pool_indices S = Some ix ∧ B ≤ ix).
Proof.
  intros Hst Hs (xt & Hx & Hsx) Hh Eho Hho HB Hc.
  assert (7 ≤ h + 2 * (((s - 1) + 7 - 1) / 2)) as Hk.
  { assert (3 ≤ (s - 1 + 7 - 1) / 2); [|lia]. apply Nat.div_le_lower_bound; lia. }
  pose proof (stage_forward σ r ci co 7 s x xt n h h Hst Hs Hx Hsx Hk Hk) as Hwp.
  rewrite Eho in Hwp. specialize (Hwp Hho Hho).
  apply wp_returns in Hwp
    as (S & σ' & Hrun & E & _ & pre & ix & pt & Hpre & Hix & Hpt & Hspt & Ho & Hi).
  apply (wp_of_eq _ _ _ _ _ Hrun).
  split; [done|]. split.
  { pose proof (keeps_ConvLayer_forward (λ _, True) (λ a, a < B) r x σ) as K.
    rewrite Hrun in K. by apply K. }
  split.
  - split; [by eexists|]. exists pre, ix, (data pt). split_and!; try done. by exists pt.
  - destruct (ConvLayer_forward_fresh _ _ _ _ _ Hrun) as (ix' & Hix' & Hfresh).
    exists ix'. split; [done|lia].
Qed.

Lemma above_refl B σ : above B σ σ.
Proof. apply keeps_refl. Qed.

Lemma above_trans B σ1 σ2 σ3 : above B σ1 σ2 → above B σ2 σ3 → above B σ1 σ3.
Proof. apply keeps_trans. Qed.

Lemma above_grows B σ σ' : grows σ σ' → above B σ σ'.
Proof. apply grows_keeps. Qed.

Lemma above_length B σ σ' : above B σ σ' → length (longs σ) ≤ length (longs σ').
Proof. by intros (_ & _ & ? & _). Qed.

Lemma ext_counter σ σ' r a : ext σ σ' → is_Some (modules σ !! r) → counter_of σ' r a → counter_of σ r a.
Proof.
  intros E [l Hl] (l' & Hl' & ->). exists l. split; [done|].
  apply (ext_modules _ _ E) in Hl. congruence.
Qed.

(** the forward pass of the default network, with what each stage
    recorded *)
Lemma forward_default_records σ (m : SimpleCNN F) x xt N :
  model_ok σ m default_config →
  floats σ !! x = Some xt → shape xt = [N; 3; 224; 224] → 0 < N →
  ∃ ms σ' r1 r2 r3 r4 S1 S2 S3 S4,
    SimpleCNN_forward m x σ = Ok ms σ'
    ∧ conv_layers m = [r1; r2; r3; r4]
    ∧ layer_states ms = [S1; S2; S3; S4]
    ∧ stage_ok σ' r1 3 96 7 2 ∧ stage_ok σ' r2 96 256 7 1
    ∧ stage_ok σ' r3 256 384 7 1 ∧ stage_ok σ' r4 384 384 7 1
    ∧ recorded σ' S1 N 96 112 ∧ recorded σ' S2 N 256 56
    ∧ recorded σ' S3 N 384 28 ∧ recorded σ' S4 N 384 14.
Proof.
  intros [(r1 & r2 & r3 & r4 & Hcl & St1 & St2 & St3 & St4) Hfw Hfb] Hx Hsx HN.
  cbn [default_config conv1_channels conv2_channels conv3_channels conv4_channels
       config_kernel_size fc_units] in *.
  set (B := length (longs σ)).
  assert (∀ r ci co s a, stage_ok σ r ci co 7 s → counter_of σ r a → a < B) as Hcnt.
  { intros r ci co s a (l & Hl & Hok & _) (l' & Hl' & ->).
    assert (l' = l) as -> by congruence.
    destruct (lo_tracked _ _ _ _ _ _ Hok) as [t Ht]. by eapply lookup_lt_Some. }
  assert (∀ r ci co s, stage_ok σ r ci co 7 s → is_Some (modules σ !! r)) as Hmod.
  { intros r ci co s (l & Hl & _). by exists l. }
  enough (wp (SimpleCNN_forward m x) σ (λ ms σ',
            ∃ S1 S2 S3 S4,
              layer_states ms = [S1; S2; S3; S4]
              ∧ stage_ok σ' r1 3 96 7 2 ∧ stage_ok σ' r2 96 256 7 1
              ∧ stage_ok σ' r3 256 384 7 1 ∧ stage_ok σ' r4 384 384 7 1
              ∧ recorded σ' S1 N 96 112 ∧ recorded σ' S2 N 256 56
              ∧ recorded σ' S3 N 384 28 ∧ recorded σ' S4 N 384 14)) as Hwp.
  { apply wp_returns in Hwp as (ms & σ' & Hrun & S1 & S2 & S3 & S4 & Hrest).
    by exists ms, σ', r1, r2, r3, r4, S1, S2, S3, S4. }
  unfold SimpleCNN_forward. rewrite Hcl.
  apply wp_bind. cbn [forward_loop].
  (* stage 1 *)
  apply wp_bind. eapply wp_mono.
  { eapply (stage_records B σ r1 3 96 2 x N 224 112);
      [done|lia|by exists xt|lia|reflexivity|lia|done|]. intros a. by eapply Hcnt. }
  intros S1 σ1 (E1 & A1 & R1 & F1). cbv beta.
  apply wp_bind. unfold _collect_layer_state at 1. rewrite Hcl. cbn [length Nat.eqb].
  apply wp_ret.
  (* stage 2 *)
  apply wp_bind. eapply wp_mono.
  { eapply (stage_records B σ1 r2 96 256 1 (output S1) N 56 56);
      [by eapply stage_ok_ext|lia|apply R1|lia|reflexivity|lia| |].
    - apply above_length in A1. lia.
    - intros a Ha. eapply Hcnt; [exact St2|]. eapply ext_counter; eauto. }
  intros S2 σ2 (E2 & A2 & R2 & F2). cbv beta.
  apply wp_bind. unfold _collect_layer_state at 1. rewrite Hcl. cbn [length Nat.eqb].
  apply wp_ret.
  assert (ext σ σ2) as E02 by eauto using ext_trans.
  (* stage 3 *)
  apply wp_bind. eapply wp_mono.
  { eapply (stage_records B σ2 r3 256 384 1 (output S2) N 28 28);
      [by eapply stage_ok_ext|lia|apply R2|lia|reflexivity|lia| |].
    - apply above_length in A1, A2. lia.
    - intros a Ha. eapply Hcnt; [exact St3|]. eapply ext_counter; eauto. }
  intros S3 σ3 (E3 & A3 & R3 & F3). cbv beta.
  apply wp_bind. unfold _collect_layer_state at 1. rewrite Hcl. cbn [length Nat.eqb].
  apply wp_ret.
  assert (ext σ σ3) as E03 by eauto using ext_trans.
  (* stage 4 *)
  apply wp_bind. eapply wp_mono.
  { eapply (stage_records B σ3 r4 384 384 1 (output S3) N 14 14);
      [by eapply stage_ok_ext|lia|apply R3|lia|reflexivity|lia| |].
    - apply above_length in A1, A2, A3. lia.
    - intros a Ha. eapply Hcnt; [exact St4|]. eapply ext_counter; eauto. }
  intros S4 σ4 (E4 & A4 & R4 & F4). cbv beta.
  assert (ext σ σ4) as E04 by eauto using ext_trans.
  destruct R4 as ((ft & Hf & Hsf) & pre4 & ix4 & pd4 & Hp4 & Hi4 & Hsp4 & Hpos4).
  apply wp_bind. unfold _collect_layer_state at 1. rewrite Hcl. cbn [length Nat.eqb].
  apply wp_bind. eapply wp_mono; [by apply clone_spec|].
  intros c σ5 (G5 & _ & Hc). cbv beta. apply wp_ret. apply wp_ret.
  assert (ext σ σ5) as E05 by eauto using ext_trans, grows_ext.
  destruct (has_shape_ext _ _ _ _ E05 Hfw) as (wt & Hw & Hsw).
  destruct (is_Some_float_ext _ _ _ E05 Hfb) as [bt Hb].
  apply wp_bind. eapply wp_mono.
  { eapply view_flat_spec; [by eapply grows_float|exact Hsf|lia]. }
  intros v σ6 [G6 Hv]. cbv beta.
  apply wp_bind. eapply wp_mono.
  { eapply (linear_spec _ _ _ _ wt bt N (numel [384; 7; 7]) 1000);
      [exact Hv|done|by eapply grows_float|exact Hsw|by eapply grows_float]. }
  intros lg σ7 [G7 Hlg]. cbv beta. apply wp_ret.
  cbn [logits layer_states features].
  assert (grows σ4 σ7) as G47 by eauto using grows_trans.
  assert (ext σ σ7) as E07 by eauto using ext_trans, grows_ext.
  eexists _, _, _, _. split; [reflexivity|].
  split_and!; try by eapply stage_ok_ext.
  - apply (recorded_grows σ4); [done|].
    apply (recorded_later B σ3); [done..|].
    apply (recorded_later B σ2); [done..|].
    by apply (recorded_later B σ1).
  - apply (recorded_grows σ4); [done|].
    apply (recorded_later B σ3); [done..|].
    by apply (recorded_later B σ2).
  - apply (recorded_grows σ4); [done|].
    by apply (recorded_later B σ3).
  - apply (recorded_grows σ5); [eauto using grows_trans|].
    split; cbn [output pre_pool pool_indices].
    + by exists ft.
    + exists pre4, ix4, pd4. split_and!; eauto using has_shape_ext, grows_ext, grows_long.
Qed.

(** one step of the reversal on a stage with a 7x7 kernel: from the
    pooled shape of the stage to the shape of its input *)
Lemma deconv_stage σ r ci co s S n hp x vt :
  stage_ok σ r ci co 7 s → s = 1 ∨ s = 2 → recorded σ S n co hp → 2 ≤ hp →
  floats σ !! x = Some vt → shape vt = [n; co; pool_out hp 2; pool_out hp 2] →
  length (data vt) = n * co * (pool_out hp 2 * pool_out hp 2) →
  wp (let! size := pre_pool_size S in
      DeconvLayer_forward (DeconvLayer_init r) x (pool_indices S) size) σ
     (λ out σ', grows σ σ'
                ∧ ∃ ot, floats σ' !! out = Some ot
                        ∧ shape ot = [n; ci; s * hp; s * hp]
                        ∧ length (data ot) = n * ci * (s * hp * (s * hp))).
Proof.
  intros (l & Hl & Hok & Hst & Hpad) Hs (Ho & pre & ix & pd & Hp & Hi & (pt & Hpt & Hspt) & Hpos)
    Hhp Hx Hsx Hlx.
  destruct (lo_weight _ _ _ _ _ _ Hok) as (wt & Hwt & Hswt).
  destruct (max_unpool2d_spec (unpool (DeconvLayer_init r)) x ix σ vt pd n co hp hp)
    as (ut & Hun & Hsut & Hlut & _); try done.
  set (σu := State (floats σ ++ [ut]) (longs σ) (modules σ)) in *.
  destruct (flip_2_3_spec (weight (conv l)) σu wt) as (wf & Hflip & Hswf & _).
  { by apply lookup_app_l_Some. }
  { by rewrite Hswt. }
  set (σf := State ((floats σ ++ [ut]) ++ [wf]) (longs σ) (modules σ)).
  assert (floats σf !! length (floats σ) = Some ut) as Hu.
  { cbn [σf floats]. apply lookup_app_l_Some. by apply list_lookup_middle. }
  assert (floats σf !! length (floats σ ++ [ut]) = Some wf) as Hf.
  { cbn [σf floats]. by apply list_lookup_middle. }
  set (op := if 1 <? s then 1 else 0).
  assert (conv_transpose_out hp 7 s (((s - 1) + 7 - 1) / 2) op = Z.of_nat (s * hp)) as Hout.
  { unfold conv_transpose_out, op. destruct Hs as [-> | ->]; cbn; lia. }
  assert (pre_pool_size S σ = Ok [n; co; hp; hp] σ) as Hsize.
  { unfold pre_pool_size. rewrite Hp.
    rewrite (bind_run _ _ _ _ _ (read_float_run _ _ _ Hpt)). unfold ret. by rewrite Hspt. }
  eapply wp_of_eq.
  { rewrite (bind_run _ _ _ _ _ Hsize). rewrite Hi. unfold DeconvLayer_forward.
    rewrite (bind_run _ _ _ _ _ Hun).
    rewrite (bind_run _ _ _ _ _ (read_module_run _ σu _ Hl)).
    rewrite (bind_run _ _ _ _ _ Hflip).
    unfold σu. cbn [floats longs modules]. fold σf.
    unfold conv_transpose2d.
    rewrite (bind_run _ _ _ _ _ (read_float_run _ σf _ Hu)).
    rewrite (bind_run _ _ _ _ _ (read_float_run _ σf _ Hf)).
    unfold bind at 1, ret at 1.
    rewrite Hsut, Hswf, Hswt, Hst, Hpad. cbn [fst snd]. fold op. rewrite Hout.
    rewrite Nat.eqb_refl. cbn [negb].
    assert ((s =? 0) = false) as -> by (apply Nat.eqb_neq; lia). cbn [orb].
    assert ((op <? Nat.max s 1) = true) as ->.
    { apply Nat.ltb_lt. unfold op. destruct (Nat.ltb_spec 1 s); lia. }
    cbn [andb negb].
    assert ((Z.of_nat (s * hp) <? 0)%Z = false) as -> by (apply Z.ltb_ge; lia).
    cbn [orb]. rewrite Nat2Z.id. reflexivity. }
  split.
  - cbn [σf floats longs modules]. split; [|split; [|done]].
    + eexists. by rewrite <- !app_assoc.
    + exists []. by rewrite app_nil_r.
  - eexists. split; [cbn [σf floats]; by apply list_lookup_middle|].
    split; [done|]. cbn [data]. rewrite length_tabulate. lia.
Qed.

Lemma reverse_step (m : SimpleCNN F) ms j c st x σ Q :
  conv_layers m !! j = Some c → layer_states ms !! j = Some st →
  wp (let! size := pre_pool_size st in
      DeconvLayer_forward (DeconvLayer_init c) x (pool_indices st) size) σ
     (λ x' σ', wp (reverse_from m ms j x') σ' Q) →
  wp (reverse_from m ms (S j) x) σ Q.
Proof.
  intros Hc Hst Hwp. cbn [reverse_from]. rewrite Hc, Hst.
  unfold wp, bind in *. destruct (pre_pool_size st σ) as [size σ1|]; [|done].
  by destruct (DeconvLayer_forward _ x (pool_indices st) size σ1).
Qed.

(** the stages of the default network and what the forward pass
    recorded for them, in one store *)
Definition reversible σ (m : SimpleCNN F) (ms : ModelState) (N : nat) : Prop :=
  ∃ r1 r2 r3 r4 S1 S2 S3 S4,
    conv_layers m = [r1; r2; r3; r4]
    ∧ layer_states ms = [S1; S2; S3; S4]
    ∧ stage_ok σ r1 3 96 7 2 ∧ stage_ok σ r2 96 256 7 1
    ∧ stage_ok σ r3 256 384 7 1 ∧ stage_ok σ r4 384 384 7 1
    ∧ recorded σ S1 N 96 112 ∧ recorded σ S2 N 256 56
    ∧ recorded σ S3 N 384 28 ∧ recorded σ S4 N 384 14.

Lemma reversible_grows σ σ' m ms N : grows σ σ' → reversible σ m ms N → reversible σ' m ms N.
Proof.
  intros G (r1 & r2 & r3 & r4 & S1 & S2 & S3 & S4 & ? & ? & ? & ? & ? & ? & ? & ? & ? & ?).
  exists r1, r2, r3, r4, S1, S2, S3, S4.
  split_and!; eauto using stage_ok_ext, grows_ext, recorded_grows.
Qed.

(** the feature maps of stage [L]: channels and spatial size *)
Definition feature_shape (N L : nat) : list nat :=
  match L with
  | 1 => [N; 96; 56; 56]
  | 2 => [N; 256; 28; 28]
  | 3 => [N; 384; 14; 14]
  | 4 => [N; 384; 7; 7]
  | _ => [N; 3; 224; 224]
  end.

Lemma reverse_default σ (m : SimpleCNN F) ms N L x vt :
  reversible σ m ms N → L ≤ 4 →
  floats σ !! x = Some vt → shape vt = feature_shape N L →
  length (data vt) = numel (feature_shape N L) →
  wp (reverse_from m ms L x) σ (λ out σ', grows σ σ' ∧ has_shape σ' out [N; 3; 224; 224]).
Proof.
  intros Hrev HL. revert σ x vt Hrev.
  induction L as [|L IH]; intros σ x vt Hrev Hx Hsx Hlx.
  { apply wp_ret. split; [apply grows_refl|]. by exists vt. }
  destruct Hrev as (r1 & r2 & r3 & r4 & S1 & S2 & S3 & S4
                    & Hcl & Hls & St1 & St2 & St3 & St4 & R1 & R2 & R3 & R4) eqn:Erev.
  assert (reversible σ m ms N) as Hrev' by (by exists r1, r2, r3, r4, S1, S2, S3, S4).
  clear Erev.
  assert (∀ r ci co s S hp,
            conv_layers m !! L = Some r → layer_states ms !! L = Some S →
            stage_ok σ r ci co 7 s → s = 1 ∨ s = 2 → recorded σ S N co hp → 2 ≤ hp →
            feature_shape N (Datatypes.S L) = [N; co; pool_out hp 2; pool_out hp 2] →
            feature_shape N L = [N; ci; s * hp; s * hp] →
            wp (reverse_from m ms (Datatypes.S L) x) σ
               (λ out σ', grows σ σ' ∧ has_shape σ' out [N; 3; 224; 224])) as Hstep.
  { intros r ci co s S hp Hr HS Hst Hs HR Hhp Ein Eout.
    eapply reverse_step; [done..|].
    eapply wp_mono.
    { eapply (deconv_stage σ r ci co s S N hp x vt); try done.
      - by rewrite Hsx, Ein.
      - rewrite Hlx, Ein. cbn [numel foldr]. lia. }
    intros x' σ' (G & ot & Hx' & Hsot & Hlot). cbv beta.
    eapply wp_mono.
    { eapply (IH ltac:(lia) σ' x' ot); [by eapply reversible_grows|done| |].
      - by rewrite Hsot, Eout.
      - rewrite Hlot, Eout. cbn [numel foldr]. lia. }
    intros out σ'' [G' Hout]. split; [by eapply grows_trans|done]. }
  rewrite Hcl, Hls in Hstep.
  destruct L as [|[|[|[|L]]]]; [| | | |lia].
  - apply (Hstep r1 3 96 2 S1 112); auto; lia.
  - apply (Hstep r2 96 256 1 S2 56); auto; lia.
  - apply (Hstep r3 256 384 1 S3 28); auto; lia.
  - apply (Hstep r4 384 384 1 S4 14); auto; lia.
Qed.

(** X13: the visualisation leads back to the input.  On a network for
    the default configuration, [forward] on a batch of shape
    (N,3,224,224), N at least 1, returns a model state with which, in any
    later store, [deconv_visualization] for any layer [L] from 1 to 4, on
    feature maps shaped like the pooled output of stage [L], returns a
    tensor of the shape of the input, (N,3,224,224). *)
Theorem deconv_visualization_input_shape σ (m : SimpleCNN F) x xt N :
  model_ok σ m default_config → mirrored m →
  floats σ !! x = Some xt → shape xt = [N; 3; 224; 224] → 0 < N →
  ∃ ms σ',
    SimpleCNN_forward m x σ = Ok ms σ'
    ∧ ∀ (L : nat) st σ2 fm ft,
        1 ≤ L ≤ 4 → layer_states ms !! (L - 1) = Some st →
        grows σ' σ2 →
        floats σ2 !! fm = Some ft → has_shape σ' (output st) (shape ft) →
        length (data ft) = numel (shape ft) →
        ∃ out σ3,
          deconv_visualization m fm ms (Z.of_nat L) σ2 = Ok out σ3
          ∧ has_shape σ3 out [N; 3; 224; 224].
Proof.
  intros Hok Hmir Hx Hsx HN.
  destruct (forward_default_records σ m x xt N Hok Hx Hsx HN)
    as (ms & σ' & r1 & r2 & r3 & r4 & S1 & S2 & S3 & S4
        & Hrun & Hcl & Hls & St1 & St2 & St3 & St4 & R1 & R2 & R3 & R4).
  exists ms, σ'. split; [done|].
  intros L st σ2 fm ft HL Hst G Hfm (ot & Hot & Hsot) Hlen.
  assert (shape ft = feature_shape N L) as Hshape.
  { rewrite <- Hsot. rewrite Hls in Hst.
    destruct R1 as ((o1 & Ho1 & Hs1) & _), R2 as ((o2 & Ho2 & Hs2) & _),
             R3 as ((o3 & Ho3 & Hs3) & _), R4 as ((o4 & Ho4 & Hs4) & _).
    destruct L as [|[|[|[|[|L]]]]]; try lia; cbn in Hst; injection Hst as <-;
      first [ rewrite Hot in Ho1; injection Ho1 as <-; exact Hs1
            | rewrite Hot in Ho2; injection Ho2 as <-; exact Hs2
            | rewrite Hot in Ho3; injection Ho3 as <-; exact Hs3
            | rewrite Hot in Ho4; injection Ho4 as <-; exact Hs4 ]. }
  assert (wp (deconv_visualization m fm ms (Z.of_nat L)) σ2
            (λ out σ3, grows σ2 σ3 ∧ has_shape σ3 out [N; 3; 224; 224])) as Hwp.
  { unfold wp. rewrite deconv_visualization_mirrored; [|done|rewrite Hcl; simpl; lia].
    rewrite Nat2Z.id.
    apply (reverse_default σ2 m ms N L fm ft); [|lia|done|done|by rewrite <- Hshape].
    apply (reversible_grows σ'); [done|].
    by exists r1, r2, r3, r4, S1, S2, S3, S4. }
  apply wp_returns in Hwp as (out & σ3 & Hrun' & _ & Hout). by exists out, σ3.
Qed.
End RoundTrip.

(** * Pooling and unpooling *)

Section PoolUnpool.
Context {F : Type} `{Scalar F} `{Kernels F}.
Implicit Types σ : state F.

(** what the index tensor of a 2x2 pool holds *)
Lemma pool_positions_lookup n c h w (d : list F) q z :
  data (pool_positions 2 n c h w d) !! q = Some z →
  q < n * c * (pool_out h 2 * pool_out w 2)
  ∧ z = Z.of_nat (pool_pick 2 h w (pool_out h 2) (pool_out w 2) d q).
Proof.
  intros Hq. cbn [data pool_positions] in Hq.
  assert (q < n * c * pool_out h 2 * pool_out w 2) as Hlt.
  { apply lookup_lt_Some in Hq. by rewrite length_tabulate in Hq. }
  rewrite lookup_tabulate in Hq by done. injection Hq as <-. split; [lia|done].
Qed.

(** X14: what a stage records is consistent.  In the layer state a
    [ConvLayer.forward] call returned (2x2 pool), every recorded index is
    a position inside its own [h]x[w] plane of the pre-pool tensor, it
    lies in the 2x2 window of the output location it belongs to, and the
    pooled output holds the pre-pool value at that position. *)
Theorem ConvLayer_forward_indices (c : nat) (l : ConvLayer) x σ st σ1 :
  modules σ !! c = Some l → pool_kernel_size (pool l) = 2 →
  ConvLayer_forward c x σ = Ok st σ1 →
  ∃ pre ix pt it ot n ch h w,
    pre_pool st = Some pre ∧ pool_indices st = Some ix
    ∧ floats σ1 !! pre = Some pt ∧ shape pt = [n; ch; h; w]
    ∧ longs σ1 !! ix = Some it ∧ floats σ1 !! output st = Some ot
    ∧ shape it = [n; ch; h / 2; w / 2] ∧ shape ot = [n; ch; h / 2; w / 2]
    ∧ length (data it) = n * ch * (h / 2 * (w / 2))
    ∧ length (data ot) = n * ch * (h / 2 * (w / 2))
    ∧ ∀ q z, data it !! q = Some z →
        let pl := q / (h / 2 * (w / 2)) in
        let i := (q `mod` (h / 2 * (w / 2))) / (w / 2) in
        let j := (q `mod` (h / 2 * (w / 2))) `mod` (w / 2) in
        (0 ≤ z < Z.of_nat (h * w))%Z
        ∧ Z.to_nat z / w / 2 = i ∧ (Z.to_nat z `mod` w) / 2 = j
        ∧ data ot !! q = Some (at_ (data pt) (pl * (h * w) + Z.to_nat z)).
Proof.
  intros Hl Hk Hfw.
  destruct (ConvLayer_forward_Ok _ _ _ _ _ Hfw)
    as (l' & pre & pt & n & ch & h & w & Hl' & Hpre & Hix & Hpt & Hspt & Hho & Hwo & Hout & Hidx).
  assert (l' = l) as -> by congruence. rewrite Hk in *.
  assert (2 ≤ h) as Hh by (unfold pool_out in Hho; destruct (Nat.ltb_spec h 2); [done|lia]).
  assert (2 ≤ w) as Hw by (unfold pool_out in Hwo; destruct (Nat.ltb_spec w 2); [done|lia]).
  destruct (pool_out_2 h Hh) as (Hho0 & Hh1 & Hh2).
  destruct (pool_out_2 w Hw) as (Hwo0 & Hw1 & Hw2).
  assert (pool_out h 2 = h / 2) as Eh
    by (apply (Nat.div_unique h 2 _ (h - 2 * pool_out h 2)); lia).
  assert (pool_out w 2 = w / 2) as Ew
    by (apply (Nat.div_unique w 2 _ (w - 2 * pool_out w 2)); lia).
  eexists pre, _, pt, _, _, n, ch, h, w.
  split; [done|]. split; [exact Hix|]. split; [done|]. split; [done|].
  split; [exact Hidx|]. split; [exact Hout|].
  cbn [shape data pool_positions pool_values]. rewrite !length_tabulate, Eh, Ew.
  split; [done|]. split; [done|]. split; [lia|]. split; [lia|].
  intros q z Hq. rewrite <- Eh, <- Ew.
  assert (q < n * ch * (pool_out h 2 * pool_out w 2)
          ∧ z = Z.of_nat (pool_pick 2 h w (pool_out h 2) (pool_out w 2) (data pt) q))
    as [Hlt ->].
  { apply (pool_positions_lookup n ch h w (data pt)). cbn [data pool_positions].
    by rewrite Eh, Ew. }
  rewrite Nat2Z.id.
  destruct (pool_pick_spec h w (pool_out h 2) (pool_out w 2) (data pt) q)
    as (Hp & Hi & Hj); try done.
  cbv zeta. split; [lia|]. split; [done|]. split; [done|].
  rewrite lookup_tabulate by lia. done.
Qed.

(** X15: unpooling what a stage pooled.  [MaxUnpool2d(2, 2)] applied, in
    any later store, to the pooled output of a [ConvLayer.forward] call
    with the indices and the pre-pool size that call recorded returns a
    tensor of the pre-pool shape that agrees with the pre-pool tensor at
    every recorded position and is zero everywhere else: exactly the
    maxima survive the round trip. *)
Theorem unpool_keeps_maxima (c : nat) (l : ConvLayer) x σ0 st σ1 :
  modules σ0 !! c = Some l → pool_kernel_size (pool l) = 2 →
  ConvLayer_forward c x σ0 = Ok st σ1 →
  ∃ pre ix pt it n ch h w,
    pre_pool st = Some pre ∧ pool_indices st = Some ix
    ∧ floats σ1 !! pre = Some pt ∧ shape pt = [n; ch; h; w]
    ∧ longs σ1 !! ix = Some it
    ∧ ∀ σ, grows σ1 σ →
        ∃ ut,
          max_unpool2d (unpool (DeconvLayer_init c)) (output st) ix (shape pt) σ
          = Ok (length (floats σ)) (State (floats σ ++ [ut]) (longs σ) (modules σ))
          ∧ shape ut = shape pt
          ∧ length (data ut) = n * ch * (h * w)
          ∧ (∀ q z, data it !! q = Some z →
               let p := q / (h / 2 * (w / 2)) * (h * w) + Z.to_nat z in
               data ut !! p = Some (at_ (data pt) p))
          ∧ (∀ o, o < n * ch * (h * w) →
               (∀ q z, data it !! q = Some z →
                       o ≠ q / (h / 2 * (w / 2)) * (h * w) + Z.to_nat z) →
               data ut !! o = Some fzero).
Proof.
  intros Hl Hk Hfw.
  destruct (ConvLayer_forward_Ok _ _ _ _ _ Hfw)
    as (l' & pre & pt & n & ch & h & w & Hl' & Hpre & Hix & Hpt & Hspt & Hho & Hwo & Hout & Hidx).
  assert (l' = l) as -> by congruence. rewrite Hk in *.
  assert (2 ≤ h) as Hh by (unfold pool_out in Hho; destruct (Nat.ltb_spec h 2); [done|lia]).
  assert (2 ≤ w) as Hw by (unfold pool_out in Hwo; destruct (Nat.ltb_spec w 2); [done|lia]).
  destruct (pool_out_2 h Hh) as (Hho0 & Hh1 & Hh2).
  destruct (pool_out_2 w Hw) as (Hwo0 & Hw1 & Hw2).
  assert (pool_out h 2 = h / 2) as Eh
    by (apply (Nat.div_unique h 2 _ (h - 2 * pool_out h 2)); lia).
  assert (pool_out w 2 = w / 2) as Ew
    by (apply (Nat.div_unique w 2 _ (w - 2 * pool_out w 2)); lia).
  eexists pre, _, pt, _, n, ch, h, w.
  split; [done|]. split; [exact Hix|]. split; [done|]. split; [done|].
  split; [exact Hidx|].
  intros σ G.
  destruct (max_unpool2d_spec (unpool (DeconvLayer_init c)) (output st)
              (length (longs σ1) - 1) σ (pool_values 2 n ch h w (data pt)) (data pt) n ch h w)
    as (ut & Hrun & Hsut & Hlut & Hsel & Hzero); try done.
  { by eapply grows_float. }
  { cbn [data pool_values]. rewrite length_tabulate. lia. }
  { by eapply grows_long. }
  exists ut. rewrite Hspt. split; [exact Hrun|]. split; [done|]. split; [done|].
  rewrite <- Eh, <- Ew. split.
  - intros q z Hq. destruct (pool_positions_lookup _ _ _ _ _ _ _ Hq) as [Hlt ->].
    rewrite Nat2Z.id. cbv zeta. rewrite Hsel by done.
    cbn [data pool_values]. rewrite lookup_tabulate by lia. done.
  - intros o Ho Hnot. apply Hzero; [done|]. intros q Hq.
    specialize (Hnot q (Z.of_nat (pool_pick 2 h w (pool_out h 2) (pool_out w 2) (data pt) q))).
    rewrite Nat2Z.id in Hnot. apply Hnot.
    cbn [data pool_positions]. rewrite lookup_tabulate by lia. done.
Qed.
End PoolUnpool.

(** * When loading fails *)

Section LoadingFails.
Context {F : Type} `{Scalar F} `{Kernels F}.
Implicit Types σ : state F.
Implicit Types sd : gmap string (entry F).
Implicit Types e : entry F.

(** an entry the library cannot take the first element of: 1-D and
    empty, given for a 0-D tensor *)
Definition unindexable (s : list nat) (e : entry F) : Prop :=
  s = [] ∧ entry_shape e = [0].

Lemma fitsb_complete s e : fits s e → fitsb s e = true.
Proof.
  unfold fits, fitsb. intros [Hs|[-> [n Hs]]].
  - by rewrite bool_decide_eq_true_2.
  - rewrite Hs. cbn. apply orb_true_r.
Qed.

Lemma unwrap_unfit σ s e :
  ¬ fits s e → ¬ unindexable s e → unwrap s e σ = Ok e σ ∧ entry_shape e ≠ s.
Proof.
  unfold fits, unindexable, unwrap. intros Hfit Hidx. split; [|tauto].
  destruct s as [|a s]; [|done].
  destruct (entry_shape e) as [|[|n] [|]] eqn:He; try done.
  - by destruct Hidx.
  - destruct Hfit. right. split; [done|]. by exists n.
Qed.

Lemma copy_checked_unfit σ p e s :
  param_shape σ p = Some s → ¬ fits s e → ¬ unindexable s e →
  copy_checked p e σ = Ok false σ.
Proof.
  unfold copy_checked, param_shape. intros Hs Hfit Hidx.
  destruct (unwrap_unfit σ s e Hfit Hidx) as [Hun Hne]. destruct p as [r|r].
  - destruct (floats σ !! r) as [t|] eqn:Hr; [|done]. injection Hs as Hs.
    rewrite (bind_run _ _ _ _ _ (read_float_run _ _ _ Hr)).
    rewrite Hs, (bind_run _ _ _ _ _ Hun).
    rewrite bool_decide_eq_false_2; [done|]. intros Heq. apply Hne. rewrite <- Heq.
    by destruct e.
  - destruct (longs σ !! r) as [t|] eqn:Hr; [|done]. injection Hs as Hs.
    rewrite (bind_run _ _ _ _ _ (read_long_run _ _ _ Hr)).
    rewrite Hs, (bind_run _ _ _ _ _ Hun).
    rewrite bool_decide_eq_false_2; [done|]. intros Heq. apply Hne. rewrite <- Heq.
    by destruct e.
Qed.

(** every entry of the mapping under a name of [ps] fits the tensor it
    names *)
Definition all_fit σ (ps : list (string * param)) sd : bool :=
  forallb (λ kp : string * param,
             match sd !! kp.1, param_shape σ kp.2 with
             | Some e, Some s => fitsb s e
             | Some e, None => false
             | None, _ => true
             end) ps.

Lemma all_fit_shapes σ σ' ps sd :
  (∀ q, param_shape σ' q = param_shape σ q) → all_fit σ' ps sd = all_fit σ ps sd.
Proof.
  intros Hsh. unfold all_fit. induction ps as [|[key p] ps IH]; [done|].
  cbn [forallb fst snd]. rewrite IH. destruct (sd !! key); [|done]. by rewrite Hsh.
Qed.

(** without an entry it cannot index, the walk never stops early: it
    visits every name, copies what fits and remembers whether something
    did not *)
Lemma load_named_any ps sd errors σ :
  (∀ key p e, (key, p) ∈ ps → sd !! key = Some e →
     ∃ s, param_shape σ p = Some s ∧ ¬ unindexable s e) →
  ∃ σ', load_named ps sd errors σ = Ok (errors || negb (all_fit σ ps sd)) σ'
        ∧ modules σ' = modules σ
        ∧ (∀ q, param_shape σ' q = param_shape σ q).
Proof.
  revert errors σ. induction ps as [|[key0 p0] ps IH]; intros errors σ Hex.
  { exists σ. cbn. by rewrite orb_false_r. }
  cbn [load_named all_fit forallb fst snd]. fold (all_fit σ ps sd).
  destruct (sd !! key0) as [e0|] eqn:He0.
  - destruct (Hex key0 p0 e0) as (s & Hs & Hidx); [apply list_elem_of_here|done|].
    rewrite Hs. destruct (fitsb s e0) eqn:Efit.
    + assert (fits s e0) as Hfit by (by apply fitsb_sound).
      destruct (unwrap_run σ s e0 Hfit) as [_ Hsu].
      assert (∀ q, param_shape (copied σ p0 (unwrapped s e0)) q = param_shape σ q) as Hkept.
      { intros q. apply copied_shape. by rewrite Hsu. }
      rewrite (bind_run _ _ _ _ _ (copy_checked_run _ _ _ _ Hs Hfit)).
      cbn [negb andb]. rewrite orb_false_r.
      destruct (IH errors (copied σ p0 (unwrapped s e0))) as (σ' & Hrun & Hm & Hsh).
      { intros key p e Hin He. rewrite Hkept.
        eapply Hex; [by apply list_elem_of_further|done]. }
      exists σ'. rewrite Hrun, (all_fit_shapes σ _ ps sd Hkept).
      split; [done|]. split; [by rewrite Hm; destruct p0|].
      intros q. by rewrite Hsh.
    + assert (¬ fits s e0) as Hfit
        by (intros Hf; by rewrite (fitsb_complete _ _ Hf) in Efit).
      rewrite (bind_run _ _ _ _ _ (copy_checked_unfit _ _ _ _ Hs Hfit Hidx)).
      cbn [negb andb].
      destruct (IH (errors || true) σ) as (σ' & Hrun & Hm & Hsh).
      { intros key p e Hin He. eapply Hex; [by apply list_elem_of_further|done]. }
      exists σ'. rewrite Hrun. by rewrite !orb_true_r.
  - destruct (IH errors σ) as (σ' & Hrun & Hm & Hsh).
    { intros key p e Hin He. eapply Hex; [by apply list_elem_of_further|done]. }
    by exists σ'.
Qed.

Lemma all_fit_false σ ps sd key p e s :
  (key, p) ∈ ps → sd !! key = Some e → param_shape σ p = Some s → ¬ fits s e →
  all_fit σ ps sd = false.
Proof.
  intros Hin He Hs Hne. apply not_true_is_false. unfold all_fit. rewrite forallb_forall.
  intros Hall. specialize (Hall (key, p)). cbn [fst snd] in Hall. rewrite He, Hs in Hall.
  apply Hne, fitsb_sound, Hall. by apply list_elem_of_In.
Qed.

(** the check that no entry under a passing name of [ps] is unindexable *)
Definition indexable σ (ps : list (string * param)) sd : bool :=
  forallb (λ kp : string * param,
             match sd !! kp.1, param_shape σ kp.2 with
             | Some e, Some s =>
               negb (bool_decide (passes kp.1))
               || negb (bool_decide (s = []) && bool_decide (entry_shape e = [0]))
             | Some e, None => negb (bool_decide (passes kp.1))
             | None, _ => true
             end) ps.

Lemma indexable_sound σ ps sd :
  indexable σ ps sd = true →
  ∀ key p e, (key, p) ∈ ps → passes key → sd !! key = Some e →
             ∃ s, param_shape σ p = Some s ∧ ¬ unindexable s e.
Proof.
  unfold indexable. rewrite forallb_forall. intros Hall key p e Hin Hp He.
  specialize (Hall (key, p)). simpl in Hall. rewrite He in Hall.
  rewrite (bool_decide_eq_true_2 _ Hp) in Hall. cbn [negb orb] in Hall.
  destruct (param_shape σ p) as [s|].
  - exists s. split; [done|]. intros [Hs Hes].
    rewrite !bool_decide_eq_true_2 in Hall by done.
    discriminate Hall. by apply list_elem_of_In.
  - discriminate Hall. by apply list_elem_of_In.
Qed.

(** X16: the one way [load_state_dict] fails with [RuntimeError].  On a
    network whose tensors are [ps] by name, and for a mapping none of
    whose applied entries is an empty 1-D tensor given for a 0-D one, if
    some entry under a name that starts with [conv_layers] or [fc] and
    names a tensor of the network does not fit that tensor, the call
    raises [RuntimeError]; it does so after the whole mapping was visited,
    and every tensor of the store still has the shape it had. *)
Theorem load_state_dict_shape_mismatch (self : SimpleCNN F) σ ps sd key p e s :
  named_tensors self σ = Ok ps σ →
  (∀ key p e, (key, p) ∈ ps → passes key → sd !! key = Some e →
     ∃ s, param_shape σ p = Some s ∧ ¬ unindexable s e) →
  (key, p) ∈ ps → passes key → sd !! key = Some e →
  param_shape σ p = Some s → ¬ fits s e →
  ∃ σ',
    load_state_dict self sd σ = Raise (RuntimeError "Error(s) in loading state_dict") σ'
    ∧ modules σ' = modules σ
    ∧ (∀ q, param_shape σ' q = param_shape σ q).
Proof.
  intros Hnamed Hex Hin Hp He Hs Hne. unfold load_state_dict, Module_load_state_dict.
  set (new := filter _ sd).
  assert (∀ k, new !! k = if decide (passes k) then sd !! k else None) as Hlk
    by apply lookup_passing.
  assert (new !! key = Some e) as Hnew.
  { rewrite Hlk. by destruct (decide (passes key)). }
  destruct (load_named_any ps new false σ) as (σ' & Hrun & Hm & Hsh).
  { intros key' p' e' Hin' He'. rewrite Hlk in He'.
    destruct (decide (passes key')); [|done]. by eapply Hex. }
  rewrite (all_fit_false σ ps new key p e s) in Hrun by done.
  exists σ'. rewrite (bind_run _ _ _ _ _ Hnamed), (bind_run _ _ _ _ _ Hrun).
  by split.
Qed.

Lemma bind_run_raise {A B} (m : M F A) (k : A → M F B) σ x σ1 :
  m σ = Raise x σ1 → bind m k σ = Raise x σ1.
Proof. intros Hm. unfold bind. by rewrite Hm. Qed.

Lemma copy_checked_unindexable σ p e :
  param_shape σ p = Some [] → entry_shape e = [0] → copy_checked p e σ = Raise IndexError σ.
Proof.
  unfold copy_checked, param_shape. intros Hs He. destruct p as [r|r].
  - destruct (floats σ !! r) as [t|] eqn:Hr; [|done]. injection Hs as Hs.
    rewrite (bind_run _ _ _ _ _ (read_float_run _ _ _ Hr)).
    unfold unwrap. by rewrite Hs, He.
  - destruct (longs σ !! r) as [t|] eqn:Hr; [|done]. injection Hs as Hs.
    rewrite (bind_run _ _ _ _ _ (read_long_run _ _ _ Hr)).
    unfold unwrap. by rewrite Hs, He.
Qed.

(** the walk stops at the first entry it cannot index *)
Lemma load_named_unindexable ps sd errors σ key p e :
  (∀ key p, (key, p) ∈ ps → is_Some (param_shape σ p)) →
  (key, p) ∈ ps → sd !! key = Some e → unindexable (default [] (param_shape σ p)) e →
  is_Some (param_shape σ p) →
  ∃ σ', load_named ps sd errors σ = Raise IndexError σ'
        ∧ modules σ' = modules σ
        ∧ (∀ q, param_shape σ' q = param_shape σ q).
Proof.
  revert errors σ. induction ps as [|[key0 p0] ps IH]; intros errors σ Hex Hin He Hidx Hsome.
  { by apply elem_of_nil in Hin. }
  cbn [load_named].
  assert (∀ errors' σ', (∀ q, param_shape σ' q = param_shape σ q) →
            modules σ' = modules σ → (key, p) ∈ ps →
            ∃ σ'', load_named ps sd errors' σ' = Raise IndexError σ''
                   ∧ modules σ'' = modules σ
                   ∧ (∀ q, param_shape σ'' q = param_shape σ q)) as Htail.
  { intros errors' σ' Hkept Hmod Hin'.
    destruct (IH errors' σ') as (σ'' & Hrun & Hm & Hsh).
    - intros k q Hq. rewrite Hkept. apply (Hex k). by apply list_elem_of_further.
    - done.
    - done.
    - by rewrite Hkept.
    - by rewrite Hkept.
    - exists σ''. split; [done|]. split; [congruence|]. intros q. by rewrite Hsh. }
  destruct (sd !! key0) as [e0|] eqn:He0.
  - destruct (Hex key0 p0) as [s0 Hs0]; [apply list_elem_of_here|].
    destruct (decide (s0 = [] ∧ entry_shape e0 = [0])) as [[-> He0s]|Hidx0].
    { rewrite (bind_run_raise _ _ _ _ _ (copy_checked_unindexable _ _ _ Hs0 He0s)).
      by exists σ. }
    assert ((key, p) ∈ ps) as Hin'.
    { apply elem_of_cons in Hin as [Heq|Hin]; [|done]. injection Heq as -> ->.
      assert (e0 = e) as -> by congruence. destruct Hidx0.
      rewrite Hs0 in Hidx. exact Hidx. }
    destruct (fitsb s0 e0) eqn:Efit.
    + assert (fits s0 e0) as Hfit by (by apply fitsb_sound).
      destruct (unwrap_run σ s0 e0 Hfit) as [_ Hsu].
      rewrite (bind_run _ _ _ _ _ (copy_checked_run _ _ _ _ Hs0 Hfit)).
      apply Htail; [|by destruct p0|done].
      intros q. apply copied_shape. by rewrite Hsu.
    + assert (¬ fits s0 e0) as Hfit
        by (intros Hf; by rewrite (fitsb_complete _ _ Hf) in Efit).
      rewrite (bind_run _ _ _ _ _ (copy_checked_unfit _ _ _ _ Hs0 Hfit Hidx0)).
      by apply Htail.
  - apply Htail; [done|done|].
    apply elem_of_cons in Hin as [Heq|Hin]; [|done]. injection Heq as -> ->. congruence.
Qed.

(** the check that every named tensor is in the store *)
Definition params_exist σ (ps : list (string * param)) : bool :=
  forallb (λ kp : string * param, bool_decide (is_Some (param_shape σ kp.2))) ps.

Lemma params_exist_sound σ ps :
  params_exist σ ps = true → ∀ key p, (key, p) ∈ ps → is_Some (param_shape σ p).
Proof.
  unfold params_exist. rewrite forallb_forall. intros Hall key p Hin.
  specialize (Hall (key, p)). eapply bool_decide_eq_true_1. apply Hall.
  by apply list_elem_of_In.
Qed.

(** X17: an entry that cannot be indexed stops the load.  On a network
    whose tensors are [ps] by name, if the mapping holds, under a name
    that starts with [conv_layers] or [fc], an empty 1-D tensor for a 0-D
    tensor of the network (a batch counter), [load_state_dict] raises
    [IndexError]: the library takes the first element of a 1-D entry
    given for a scalar, and there is none. *)
Theorem load_state_dict_empty_scalar (self : SimpleCNN F) σ ps sd key p e :
  named_tensors self σ = Ok ps σ →
  (∀ key p, (key, p) ∈ ps → is_Some (param_shape σ p)) →
  (key, p) ∈ ps → passes key → sd !! key = Some e →
  param_shape σ p = Some [] → entry_shape e = [0] →
  ∃ σ',
    load_state_dict self sd σ = Raise IndexError σ'
    ∧ modules σ' = modules σ
    ∧ (∀ q, param_shape σ' q = param_shape σ q).
Proof.
  intros Hnamed Hex Hin Hp He Hs Hes. unfold load_state_dict, Module_load_state_dict.
  set (new := filter _ sd).
  assert (∀ k, new !! k = if decide (passes k) then sd !! k else None) as Hlk
    by apply lookup_passing.
  assert (new !! key = Some e) as Hnew.
  { rewrite Hlk. by destruct (decide (passes key)). }
  destruct (load_named_unindexable ps new false σ key p e) as (σ' & Hrun & Hm & Hsh);
    [done|done|done|by rewrite Hs|by rewrite Hs|].
  exists σ'. rewrite (bind_run _ _ _ _ _ Hnamed), (bind_run_raise _ _ _ _ _ Hrun).
  by split.
Qed.
End LoadingFails.

(** * Runs on concrete networks *)

(** Kernels for binary32 runs: a convolution and a batch normalisation
    that pass element [q] of their input on, a transposed convolution that
    multiplies it by the first weight, a classifier that returns zero and
    an initialiser that fills with zeros. *)
#[export] Instance pointwise32 : Kernels spec_float := {
  conv2d_at := λ x _ _ _ _ q, at_ (data x) q;
  batch_norm_at := λ x _ _ _ _ _ q, at_ (data x) q;
  running_mean_at := λ _ m q, at_ (data m) q;
  running_var_at := λ _ v q, at_ (data v) q;
  linear_at := λ _ _ _ _, fzero;
  conv_transpose2d_at := λ x w _ _ _ _ q, fmul (at_ (data x) q) (at_ (data w) 0);
  init_at := λ _ _ _, fzero;
  cast_float := λ z, Binary32.of_Z z 0;
  cast_long := λ _, 0%Z
}.

(** one channel everywhere, 1x1 kernels, one class *)
Definition unit_config : Config :=
  {| conv1_channels := 1; conv2_channels := 1; conv3_channels := 1;
     conv4_channels := 1; config_kernel_size := 1; fc_units := 1 |}.

Definition empty32 : state spec_float := State [] [] [].

(** a checkpoint that sets the single weight of the second stage to 3.0 *)
Definition checkpoint : gmap string (entry spec_float) :=
  {[ "conv_layers.1.conv.weight" := FloatT (Tensor [1; 1; 1; 1] [Binary32.of_Z 3 0]) ]}.

Definition loaded32 : M spec_float (SimpleCNN spec_float) :=
  let! m := SimpleCNN_init unit_config in
  let! _ := load_state_dict m checkpoint in
  ret m.




(** C5 in binary32: the single-weight filter 3.0 of the second stage is
    brought to [0x3DCCCCCE] by a first application of [normalize_filters],
    one unit in the last place above the radius; a second application
    changes the weight the first one left, from [0x3DCCCCCE] to
    [0x3DCCCCCD], and reports the rescaling. *)
Lemma normalize_filters_binary32_twice :
  ∃ m σ info1 σ1 info2 σ2,
    loaded32 empty32 = Ok m σ
    ∧ normalize_filters m σ = Ok info1 σ1
    ∧ normalize_filters m σ1 = Ok info2 σ2
    ∧ floats σ1 !! 6 = Some (Tensor [1; 1; 1; 1] [S754_finite false 13421774 (-27)])
    ∧ floats σ2 !! 6 = Some (Tensor [1; 1; 1; 1] [S754_finite false 13421773 (-27)])
    ∧ info2 = [(1, ([true], [S754_finite false 16777215 (-24)]))].
Proof.
  eexists _, _, _, _, _, _. split; [vm_compute; reflexivity|].
  split; [vm_compute; reflexivity|]. split; [vm_compute; reflexivity|].
  split_and!; vm_compute; reflexivity.
Qed.

(** C9 as stated, refuted: an entry named [fc.bias] with two elements,
    where the classifier of the network has one, makes the load raise
    [RuntimeError]. *)
Lemma load_state_dict_wrong_shape :
  ∃ m σ σ',
    SimpleCNN_init unit_config empty32 = Ok m σ
    ∧ has_shape σ (fc_bias (fc m)) [1]
    ∧ load_state_dict m {[ "fc.bias" := FloatT (Tensor [2] [fzero; fzero]) ]} σ
      = Raise (RuntimeError "Error(s) in loading state_dict") σ'.
Proof.
  eexists _, _, _. split; [vm_compute; reflexivity|].
  split; [vm_compute|vm_compute; reflexivity].
  eexists. split; reflexivity.
Qed.

(** ** A single stage on a 2x2 image *)

Definition tiny_image : tensor spec_float :=
  Tensor [1; 1; 2; 2]
    [Binary32.of_Z 1 0; Binary32.of_Z 4 0; Binary32.of_Z 3 0; Binary32.of_Z 2 0].

(** a one-channel ConvLayer with a 1x1 kernel at address 0 and the image
    at address 6 *)
Definition tiny_stage : M spec_float (nat * nat) :=
  let! c := ConvLayer_init 1 1 1 1 in
  let! x := alloc_float tiny_image in
  ret (c, x).

Lemma DeconvLayer_reverses_stage_witness :
  ∃ l σ0 st σ1,
    tiny_stage empty32 = Ok (0, 6) σ0
    ∧ modules σ0 !! 0 = Some l ∧ pool_kernel_size (pool l) = 2
    ∧ ConvLayer_forward 0 6 σ0 = Ok st σ1
    ∧ ∃ pre ix pt it n ch h w ho wo,
        pre_pool st = Some pre ∧ pool_indices st = Some ix
        ∧ floats σ1 !! pre = Some pt ∧ shape pt = [n; ch; h; w]
        ∧ longs σ1 !! ix = Some it ∧ shape it = [n; ch; ho; wo]
        ∧ has_shape σ1 (output st) [n; ch; ho; wo]
        ∧ ∀ σ v vt lc wt,
            longs σ !! ix = Some it →
            floats σ !! v = Some vt → shape vt = [n; ch; ho; wo] →
            length (data vt) = n * ch * (ho * wo) →
            modules σ !! 0 = Some lc →
            floats σ !! weight (conv lc) = Some wt → length (shape wt) = 4 →
            ∃ ut wf,
              max_unpool2d (unpool (DeconvLayer_init 0)) v ix (shape pt) σ
              = Ok (length (floats σ)) (State (floats σ ++ [ut]) (longs σ) (modules σ))
              ∧ shape ut = shape pt
              ∧ length (data ut) = n * ch * (h * w)
              ∧ (∀ q z, data it !! q = Some z →
                   data ut !! (q / (ho * wo) * (h * w) + Z.to_nat z) = data vt !! q)
              ∧ (∀ o, o < n * ch * (h * w) →
                   (∀ q z, data it !! q = Some z → o ≠ q / (ho * wo) * (h * w) + Z.to_nat z) →
                   data ut !! o = Some fzero)
              ∧ flipped wt wf
              ∧ DeconvLayer_forward (DeconvLayer_init 0) v (Some ix) (shape pt) σ
                = conv_transpose2d (length (floats σ)) (length (floats σ) + 1) None
                    (stride (conv lc)) (padding (conv lc))
                    (if 1 <? (stride (conv lc)).1 then 1 else 0,
                     if 1 <? (stride (conv lc)).1 then 1 else 0)
                    (State (floats σ ++ [ut; wf]) (longs σ) (modules σ)).
Proof.
  exists (new_layer 0 0 1 1 1 1), (final_state (tiny_stage empty32)).
  eexists _, _. split; [vm_compute; reflexivity|].
  split; [vm_compute; reflexivity|]. split; [reflexivity|].
  split; [vm_compute; reflexivity|].
  eapply (DeconvLayer_reverses_stage 0 (new_layer 0 0 1 1 1 1) 6
            (final_state (tiny_stage empty32)));
    [vm_compute; reflexivity|reflexivity|].
  vm_compute. reflexivity.
Defined.

(** the stage was run and its weight overwritten afterwards *)
Definition tiny_updated : M spec_float LayerState :=
  let! cx := tiny_stage in
  let! st := ConvLayer_forward cx.1 cx.2 in
  let! _ := write_float 0 (Tensor [1; 1; 1; 1] [Binary32.of_Z 3 0]) in
  ret st.

Lemma DeconvLayer_reads_current_weight_witness :
  ∃ σ ut wf out σ2,
    tiny_updated empty32 = Ok {| output := 10; pre_pool := Some 9; pool_indices := Some 1 |} σ
    ∧ floats σ !! 0 = Some (Tensor [1; 1; 1; 1] [Binary32.of_Z 3 0])
    ∧ max_unpool2d (unpool (DeconvLayer_init 0)) 10 1 [1; 1; 2; 2] σ
      = Ok 11 (State (floats σ ++ [ut]) (longs σ) (modules σ))
    ∧ conv_layer (DeconvLayer_init 0) = 0
    ∧ flipped (Tensor [1; 1; 1; 1] [Binary32.of_Z 3 0]) wf
    ∧ DeconvLayer_forward (DeconvLayer_init 0) 10 (Some 1) [1; 1; 2; 2] σ = Ok out σ2
    ∧ floats σ2 !! out
      = Some (Tensor [1; 1; 2; 2]
                (tabulate 4 (conv_transpose2d_at ut wf None (1, 1) (0, 0) (0, 0))))
    ∧ floats σ2 !! 0 = Some (Tensor [1; 1; 1; 1] [Binary32.of_Z 3 0])
    ∧ modules σ2 = modules σ.
Proof.
  set (σ := final_state (tiny_updated empty32)).
  set (ut := Tensor [1; 1; 2; 2]
               [fzero; Binary32.of_Z 4 0; fzero; fzero] : tensor spec_float).
  exists σ, ut.
  destruct (DeconvLayer_reads_current_weight 0 σ
              (new_layer 0 0 1 1 1 1) (Tensor [1; 1; 1; 1] [Binary32.of_Z 3 0])
              10 1 [1; 1; 2; 2] 11 (State (floats σ ++ [ut]) (longs σ) (modules σ)) ut
              1 1 2 2 1 1 1 1)
    as (wf & out & σ2 & Hrest); [first [vm_compute; reflexivity|lia|vm_compute; congruence] ..|].
  exists wf, out, σ2. split; [vm_compute; reflexivity|].
  split; [vm_compute; reflexivity|]. split; [vm_compute; reflexivity|]. exact Hrest.
Defined.

(** ** The default network *)

Definition default_input : tensor spec_float :=
  Tensor [1; 3; 224; 224] (replicate (1 * 3 * 224 * 224) fzero).

Lemma forward_default_shapes_witness :
  ∃ m σ0,
    SimpleCNN_init default_config empty32 = Ok m σ0
    ∧ ∃ ms σ',
        SimpleCNN_forward m 26 (State (floats σ0 ++ [default_input]) (longs σ0) (modules σ0))
        = Ok ms σ'
        ∧ has_shape σ' (logits ms) [1; fc_units default_config]
        ∧ (∃ S1 S2 S3 S4,
             layer_states ms = [S1; S2; S3; S4]
             ∧ state_shapes σ' S1 1 96 112 56
             ∧ state_shapes σ' S2 1 256 56 28
             ∧ state_shapes σ' S3 1 384 28 14
             ∧ state_shapes σ' S4 1 384 14 7)
        ∧ (∃ f ft v wt bt,
             features ms = Some f
             ∧ floats σ' !! f = Some ft ∧ shape ft = [1; 384; 7; 7]
             ∧ floats σ' !! v = Some (Tensor [1; 384 * 7 * 7] (data ft))
             ∧ floats σ' !! fc_weight (fc m) = Some wt
             ∧ floats σ' !! fc_bias (fc m) = Some bt
             ∧ floats σ' !! logits ms
               = Some (Tensor [1; 1000]
                   (tabulate (1 * 1000)
                      (linear_at (Tensor [1; 384 * 7 * 7] (data ft)) wt bt)))).
Proof.
  exists (built_model 0 0 default_config), (built_state empty32 default_config).
  split; [exact (SimpleCNN_init_run default_config empty32)|].
  apply (forward_default_shapes _ _ 26 default_input 1).
  - eapply model_ok_ext; [apply ext_alloc_float|].
    exact (built_model_ok default_config empty32).
  - by apply list_lookup_middle.
  - reflexivity.
  - lia.
Defined.

(** an empty batch of images *)
Definition empty_batch : tensor spec_float := Tensor [0; 3; 224; 224] [].

Definition raised {A} (o : outcome spec_float A) : option exn :=
  match o with Ok _ _ => None | Raise e _ => Some e end.

(** C6 as stated, refuted for an empty batch: on an input of shape
    (0,3,224,224) the four stages of the default network run, and
    [x.view(x.size(0), -1)] then raises [RuntimeError], since the [-1]
    cannot be inferred for a tensor without elements. *)
Lemma forward_default_empty_batch :
  ∃ m σ0 σ',
    SimpleCNN_init default_config empty32 = Ok m σ0
    ∧ SimpleCNN_forward m 26 (State (floats σ0 ++ [empty_batch]) (longs σ0) (modules σ0))
      = Raise (RuntimeError "cannot reshape tensor of 0 elements") σ'.
Proof.
  exists (built_model 0 0 default_config), (built_state empty32 default_config).
  set (σ := State _ _ _).
  assert (raised (SimpleCNN_forward (built_model 0 0 default_config) 26 σ)
          = Some (RuntimeError "cannot reshape tensor of 0 elements")) as Hr
    by (lazy; reflexivity).
  destruct (SimpleCNN_forward _ 26 σ) as [ms σ'|e σ'] eqn:Hrun; [discriminate Hr|].
  exists σ'. split; [exact (SimpleCNN_init_run default_config empty32)|].
  injection Hr as ->. reflexivity.
Qed.

(** ** The one-channel network *)

Lemma deconv_visualization_out_of_range_witness :
  ∃ m σ,
    SimpleCNN_init unit_config empty32 = Ok m σ
    ∧ (Z.of_nat (length (conv_layers m)) < 5)%Z
    ∧ deconv_visualization m 0 {| logits := 0; layer_states := []; features := None |} 5 σ
      = Raise (ValueError "Layer 5 not supported for visualization") σ.
Proof.
  eexists _, _. split; [vm_compute; reflexivity|]. split; [reflexivity|].
  apply (deconv_visualization_out_of_range _ 0 _ 5). right. reflexivity.
Defined.

Definition unit_input : tensor spec_float :=
  Tensor [1; 3; 224; 224] (replicate (1 * 3 * 224 * 224) fzero).

Definition returns {A} (o : outcome spec_float A) : bool :=
  match o with Ok _ _ => true | Raise _ _ => false end.

Lemma forward_states_witness :
  ∃ m σ0 ms σ',
    SimpleCNN_init unit_config empty32 = Ok m σ0
    ∧ SimpleCNN_forward m 26 (State (floats σ0 ++ [unit_input]) (longs σ0) (modules σ0))
      = Ok ms σ'
    ∧ ∃ tr xf σ2,
        stages m 1 (conv_layers m) 26
          (State (floats σ0 ++ [unit_input]) (longs σ0) (modules σ0)) tr xf σ2
        ∧ layer_states ms = tr.*2
        ∧ features ms = Some xf ∧ final_features ms = Some xf
        ∧ (∀ k xi lo ls xi' lo' ls',
             tr !! k = Some (xi, lo, ls) → tr !! S k = Some (xi', lo', ls') →
             ls = lo ∧ xi' = output ls)
        ∧ (∀ xi lo ls, last tr = Some (xi, lo, ls) →
             xf = output lo
             ∧ pre_pool ls = pre_pool lo ∧ pool_indices ls = pool_indices lo
             ∧ output ls ≠ output lo
             ∧ ∃ t, floats σ' !! output lo = Some t ∧ floats σ' !! output ls = Some t).
Proof.
  exists (built_model 0 0 unit_config), (built_state empty32 unit_config).
  set (σ := State _ _ _).
  assert (returns (SimpleCNN_forward (built_model 0 0 unit_config) 26 σ) = true) as Hok
    by (lazy; reflexivity).
  destruct (SimpleCNN_forward _ 26 σ) as [ms σ'|] eqn:Hrun; [|discriminate Hok].
  exists ms, σ'. split; [exact (SimpleCNN_init_run unit_config empty32)|].
  split; [reflexivity|]. exact (forward_states _ _ _ _ _ Hrun).
Defined.

(** a checkpoint with the weight of the second stage, a batch counter
    for the first stage saved as a 1-D tensor, an entry under a
    [deconv_layers] name whose shape fits no tensor, and an entry that
    names nothing in the network *)
Definition mixed_checkpoint : gmap string (entry spec_float) :=
  {[ "conv_layers.1.conv.weight" := FloatT (Tensor [1; 1; 1; 1] [Binary32.of_Z 3 0]);
     "conv_layers.0.bn.num_batches_tracked" := LongT (Tensor [1] [7%Z]);
     "deconv_layers.2.conv_layer.conv.weight" := FloatT (Tensor [5] []);
     "epoch" := LongT (Tensor [] [7%Z]) ]}.

Lemma load_state_dict_partial_witness :
  ∃ m σ ps,
    SimpleCNN_init unit_config empty32 = Ok m σ
    ∧ named_tensors m σ = Ok ps σ
    ∧ (∀ sd2, (∀ key, key ∈ ps.*1 → passes key → sd2 !! key = mixed_checkpoint !! key) →
         load_state_dict m sd2 σ = load_state_dict m mixed_checkpoint σ)
    ∧ ∃ σ',
        load_state_dict m mixed_checkpoint σ = Ok tt σ'
        ∧ modules σ' = modules σ
        ∧ (∀ q, param_shape σ' q = param_shape σ q)
        ∧ (∀ r, (∀ key, (key, PFloat r) ∈ ps → passes key → mixed_checkpoint !! key = None) →
             floats σ' !! r = floats σ !! r)
        ∧ (∀ r, (∀ key, (key, PLong r) ∈ ps → passes key → mixed_checkpoint !! key = None) →
             longs σ' !! r = longs σ !! r)
        ∧ (∀ key r e s, (key, PFloat r) ∈ ps → passes key → mixed_checkpoint !! key = Some e →
             param_shape σ (PFloat r) = Some s →
             (∀ key' e', (key', PFloat r) ∈ ps → passes key' →
                mixed_checkpoint !! key' = Some e' → e' = e) →
             floats σ' !! r = Some (as_float (unwrapped s e)))
        ∧ (∀ key r e s, (key, PLong r) ∈ ps → passes key → mixed_checkpoint !! key = Some e →
             param_shape σ (PLong r) = Some s →
             (∀ key' e', (key', PLong r) ∈ ps → passes key' →
                mixed_checkpoint !! key' = Some e' → e' = e) →
             longs σ' !! r = Some (as_long (unwrapped s e))).
Proof.
  eexists _, _, _. split; [vm_compute; reflexivity|]. split; [vm_compute; reflexivity|].
  split.
  - apply load_state_dict_partial. vm_compute. reflexivity.
  - apply load_state_dict_partial; [vm_compute; reflexivity|].
    apply entries_fit_sound. vm_compute. reflexivity.
Defined.

(** ** Exact arithmetic *)

(** kernels over the real numbers; the initialiser fills every weight
    with one half, so every filter starts with RMS one half *)
#[export] Instance half_kernels : Kernels R := {
  conv2d_at := λ x _ _ _ _ q, at_ (data x) q;
  batch_norm_at := λ x _ _ _ _ _ q, at_ (data x) q;
  running_mean_at := λ _ m q, at_ (data m) q;
  running_var_at := λ _ v q, at_ (data v) q;
  linear_at := λ _ _ _ _, 0%R;
  conv_transpose2d_at := λ x w _ _ _ _ q, (at_ (data x) q * at_ (data w) 0)%R;
  init_at := λ _ _ _, (1 / 2)%R;
  cast_float := IZR;
  cast_long := λ _, 0%Z
}.

Definition emptyR : state R := State [] [] [].

Lemma unit_layers_R :
  Forall2 (λ layer a, ∃ l, modules (built_state emptyR unit_config) !! layer = Some l
                           ∧ weight (conv l) = a)
          (conv_layers (built_model 0 0 unit_config)) [0; 6; 12; 18].
Proof. repeat constructor; eexists; split; reflexivity. Qed.

Lemma unit_cells_R :
  Forall (λ a, ∃ w, floats (built_state emptyR unit_config) !! a = Some w ∧ weight_wf w)
         [0; 6; 12; 18].
Proof.
  repeat constructor; eexists; (split; [reflexivity|]); eexists _, _, _, _; split; reflexivity.
Qed.

Lemma normalize_filters_idempotent_exact_witness :
  ∃ m σ info σ1,
    SimpleCNN_init unit_config emptyR = Ok m σ
    ∧ normalize_filters m σ = Ok info σ1
    ∧ normalize_filters m σ1 = Ok [] σ1.
Proof.
  exists (built_model 0 0 unit_config), (built_state emptyR unit_config).
  destruct (normalize_filters_idempotent_exact (built_model 0 0 unit_config)
              (built_state emptyR unit_config) [0; 6; 12; 18])
    as (info & σ1 & Hone & Htwo).
  - cbn [filter_radius built_model f1e_1 real_scalar]. lra.
  - exact unit_layers_R.
  - exact unit_cells_R.
  - exists info, σ1. split; [exact (SimpleCNN_init_run unit_config emptyR)|]. by split.
Defined.


(** * Further runs on concrete networks *)



(** a stage with a 2x2 kernel on a 3x3 image *)
Definition even_stage : state spec_float :=
  final_state (ConvLayer_init 1 1 2 1 empty32).

Definition image_3x3 : tensor spec_float :=
  Tensor [1; 1; 3; 3] (replicate 9 (Binary32.of_Z 1 0)).

Lemma ConvLayer_even_kernel_loses_one_witness :
  wp (ConvLayer_forward 0 6)
     (State (floats even_stage ++ [image_3x3]) (longs even_stage) (modules even_stage))
     (λ S σ',
        has_shape σ' (output S) [1; 1; (3 - 1) / 2; (3 - 1) / 2]
        ∧ ∃ pre ix it,
            pre_pool S = Some pre ∧ pool_indices S = Some ix
            ∧ has_shape σ' pre [1; 1; 3 - 1; 3 - 1]
            ∧ longs σ' !! ix = Some it ∧ shape it = [1; 1; (3 - 1) / 2; (3 - 1) / 2]).
Proof.
  apply (ConvLayer_even_kernel_loses_one 1 1 2 empty32 _ 6 image_3x3 1 3 3).
  - by exists 1.
  - lia.
  - apply ext_alloc_float.
  - reflexivity.
  - reflexivity.
  - lia.
  - lia.
Defined.

(** a stage with a 3x3 kernel and stride 2 on a 5x5 image *)
Definition strided_stage : state spec_float :=
  final_state (ConvLayer_init 1 1 3 2 empty32).

Definition image_5x5 : tensor spec_float :=
  Tensor [1; 1; 5; 5] (replicate 25 (Binary32.of_Z 1 0)).

Lemma ConvLayer_stride_two_halves_witness :
  wp (ConvLayer_forward 0 6)
     (State (floats strided_stage ++ [image_5x5]) (longs strided_stage)
            (modules strided_stage))
     (λ S σ',
        has_shape σ' (output S) [1; 1; (5 + 1) / 2 / 2; (5 + 1) / 2 / 2]
        ∧ ∃ pre ix it,
            pre_pool S = Some pre ∧ pool_indices S = Some ix
            ∧ has_shape σ' pre [1; 1; (5 + 1) / 2; (5 + 1) / 2]
            ∧ longs σ' !! ix = Some it
            ∧ shape it = [1; 1; (5 + 1) / 2 / 2; (5 + 1) / 2 / 2]).
Proof.
  apply (ConvLayer_stride_two_halves 1 1 3 empty32 _ 6 image_5x5 1 5 5).
  - by exists 1.
  - apply ext_alloc_float.
  - reflexivity.
  - reflexivity.
  - lia.
  - lia.
Defined.

Lemma deconv_visualization_short_state_witness :
  ∃ m σ,
    SimpleCNN_init unit_config empty32 = Ok m σ
    ∧ deconv_visualization m 0 {| logits := 0; layer_states := []; features := None |} 1 σ
      = Raise IndexError σ.
Proof.
  eexists _, _. split; [vm_compute; reflexivity|].
  eapply (deconv_visualization_short_state unit_config empty32); [vm_compute; reflexivity|lia|].
  cbn. lia.
Defined.

Lemma deconv_visualization_no_pre_pool_witness :
  ∃ m σ,
    SimpleCNN_init unit_config empty32 = Ok m σ
    ∧ deconv_visualization m 0
        {| logits := 0;
           layer_states := [{| output := 0; pre_pool := None; pool_indices := None |}];
           features := None |} 1 σ
      = Raise AttributeError σ.
Proof.
  eexists _, _. split; [vm_compute; reflexivity|].
  eapply (deconv_visualization_no_pre_pool unit_config empty32);
    [vm_compute; reflexivity|lia|reflexivity|reflexivity].
Defined.

Lemma forward_counts_batches_witness :
  ∃ m σ0 ms σ',
    SimpleCNN_init unit_config empty32 = Ok m σ0
    ∧ SimpleCNN_forward m 26 (State (floats σ0 ++ [unit_input]) (longs σ0) (modules σ0))
      = Ok ms σ'
    ∧ ∀ l t, l ∈ built_layers 0 0 unit_config →
        longs σ0 !! num_batches_tracked (bn l) = Some t →
        longs σ' !! num_batches_tracked (bn l) = Some (incremented t).
Proof.
  exists (built_model 0 0 unit_config), (built_state empty32 unit_config).
  set (σ := State _ _ _).
  assert (returns (SimpleCNN_forward (built_model 0 0 unit_config) 26 σ) = true) as Hok
    by (lazy; reflexivity).
  destruct (SimpleCNN_forward _ 26 σ) as [ms σ'|] eqn:Hrun; [|discriminate Hok].
  exists ms, σ'. split; [exact (SimpleCNN_init_run unit_config empty32)|].
  split; [reflexivity|].
  apply (forward_counts_batches _ _ _ _ _ (built_layers 0 0 unit_config) Hrun).
  - repeat constructor.
  - by apply (bool_decide_unpack (NoDup [0; 1; 2; 3])).
Defined.

Lemma deconv_visualization_input_shape_witness :
  ∃ m σ0,
    SimpleCNN_init default_config empty32 = Ok m σ0
    ∧ ∃ ms σ',
        SimpleCNN_forward m 26 (State (floats σ0 ++ [default_input]) (longs σ0) (modules σ0))
        = Ok ms σ'
        ∧ ∀ (L : nat) st σ2 fm ft,
            1 ≤ L ≤ 4 → layer_states ms !! (L - 1) = Some st →
            grows σ' σ2 →
            floats σ2 !! fm = Some ft → has_shape σ' (output st) (shape ft) →
            length (data ft) = numel (shape ft) →
            ∃ out σ3,
              deconv_visualization m fm ms (Z.of_nat L) σ2 = Ok out σ3
              ∧ has_shape σ3 out [1; 3; 224; 224].
Proof.
  exists (built_model 0 0 default_config), (built_state empty32 default_config).
  split; [exact (SimpleCNN_init_run default_config empty32)|].
  apply (deconv_visualization_input_shape _ _ 26 default_input 1).
  - eapply model_ok_ext; [apply ext_alloc_float|].
    exact (built_model_ok default_config empty32).
  - reflexivity.
  - by apply list_lookup_middle.
  - reflexivity.
  - lia.
Defined.

Definition small_input : tensor spec_float :=
  Tensor [1; 3; 32; 32] (replicate (1 * 3 * 32 * 32) fzero).

Lemma forward_default_input_sizes_witness :
  ∃ m σ0,
    SimpleCNN_init default_config empty32 = Ok m σ0
    ∧ (223 ≤ 32 ≤ 254 →
         ∃ ms σ',
           SimpleCNN_forward m 26 (State (floats σ0 ++ [small_input]) (longs σ0) (modules σ0))
           = Ok ms σ'
           ∧ has_shape σ' (logits ms) [1; 1000])
    ∧ (¬ (223 ≤ 32 ≤ 254) →
         ∃ σ',
           SimpleCNN_forward m 26 (State (floats σ0 ++ [small_input]) (longs σ0) (modules σ0))
           = Raise (RuntimeError "mat1 and mat2 shapes cannot be multiplied") σ').
Proof.
  exists (built_model 0 0 default_config), (built_state empty32 default_config).
  split; [exact (SimpleCNN_init_run default_config empty32)|].
  apply (forward_default_input_sizes _ _ 26 small_input 1 32).
  - eapply model_ok_ext; [apply ext_alloc_float|].
    exact (built_model_ok default_config empty32).
  - by apply list_lookup_middle.
  - reflexivity.
  - lia.
  - lia.
Defined.

Lemma ConvLayer_forward_indices_witness :
  ∃ l σ0 st σ1,
    tiny_stage empty32 = Ok (0, 6) σ0
    ∧ modules σ0 !! 0 = Some l ∧ pool_kernel_size (pool l) = 2
    ∧ ConvLayer_forward 0 6 σ0 = Ok st σ1
    ∧ ∃ pre ix pt it ot n ch h w,
        pre_pool st = Some pre ∧ pool_indices st = Some ix
        ∧ floats σ1 !! pre = Some pt ∧ shape pt = [n; ch; h; w]
        ∧ longs σ1 !! ix = Some it ∧ floats σ1 !! output st = Some ot
        ∧ shape it = [n; ch; h / 2; w / 2] ∧ shape ot = [n; ch; h / 2; w / 2]
        ∧ length (data it) = n * ch * (h / 2 * (w / 2))
        ∧ length (data ot) = n * ch * (h / 2 * (w / 2))
        ∧ ∀ q z, data it !! q = Some z →
            let pl := q / (h / 2 * (w / 2)) in
            let i := (q `mod` (h / 2 * (w / 2))) / (w / 2) in
            let j := (q `mod` (h / 2 * (w / 2))) `mod` (w / 2) in
            (0 ≤ z < Z.of_nat (h * w))%Z
            ∧ Z.to_nat z / w / 2 = i ∧ (Z.to_nat z `mod` w) / 2 = j
            ∧ data ot !! q = Some (at_ (data pt) (pl * (h * w) + Z.to_nat z)).
Proof.
  exists (new_layer 0 0 1 1 1 1), (final_state (tiny_stage empty32)).
  eexists _, _. split; [vm_compute; reflexivity|].
  split; [vm_compute; reflexivity|]. split; [reflexivity|].
  split; [vm_compute; reflexivity|].
  eapply (ConvLayer_forward_indices 0 (new_layer 0 0 1 1 1 1) 6
            (final_state (tiny_stage empty32)));
    [vm_compute; reflexivity|reflexivity|].
  vm_compute. reflexivity.
Defined.

Lemma unpool_keeps_maxima_witness :
  ∃ l σ0 st σ1,
    tiny_stage empty32 = Ok (0, 6) σ0
    ∧ modules σ0 !! 0 = Some l ∧ pool_kernel_size (pool l) = 2
    ∧ ConvLayer_forward 0 6 σ0 = Ok st σ1
    ∧ ∃ pre ix pt it n ch h w,
        pre_pool st = Some pre ∧ pool_indices st = Some ix
        ∧ floats σ1 !! pre = Some pt ∧ shape pt = [n; ch; h; w]
        ∧ longs σ1 !! ix = Some it
        ∧ ∀ σ, grows σ1 σ →
            ∃ ut,
              max_unpool2d (unpool (DeconvLayer_init 0)) (output st) ix (shape pt) σ
              = Ok (length (floats σ)) (State (floats σ ++ [ut]) (longs σ) (modules σ))
              ∧ shape ut = shape pt
              ∧ length (data ut) = n * ch * (h * w)
              ∧ (∀ q z, data it !! q = Some z →
                   let p := q / (h / 2 * (w / 2)) * (h * w) + Z.to_nat z in
                   data ut !! p = Some (at_ (data pt) p))
              ∧ (∀ o, o < n * ch * (h * w) →
                   (∀ q z, data it !! q = Some z →
                           o ≠ q / (h / 2 * (w / 2)) * (h * w) + Z.to_nat z) →
                   data ut !! o = Some fzero).
Proof.
  exists (new_layer 0 0 1 1 1 1), (final_state (tiny_stage empty32)).
  eexists _, _. split; [vm_compute; reflexivity|].
  split; [vm_compute; reflexivity|]. split; [reflexivity|].
  split; [vm_compute; reflexivity|].
  eapply (unpool_keeps_maxima 0 (new_layer 0 0 1 1 1 1) 6
            (final_state (tiny_stage empty32)));
    [vm_compute; reflexivity|reflexivity|].
  vm_compute. reflexivity.
Defined.

(** a stage with a 1x1 kernel on a single pixel *)
Definition pixel_stage : state spec_float :=
  final_state (ConvLayer_init 1 1 1 1 empty32).

Definition pixel : tensor spec_float := Tensor [1; 1; 1; 1] [Binary32.of_Z 1 0].

Lemma ConvLayer_forward_single_value_witness :
  ∃ σ',
    ConvLayer_forward 0 6
      (State (floats pixel_stage ++ [pixel]) (longs pixel_stage) (modules pixel_stage))
    = Raise (ValueError "Expected more than 1 value per channel when training") σ'
    ∧ longs σ' = <[0 := incremented (Tensor [] [0%Z])]> (longs pixel_stage)
    ∧ length (floats σ') = S (length (floats pixel_stage ++ [pixel]))
    ∧ modules σ' = modules pixel_stage.
Proof.
  apply (ConvLayer_forward_single_value 1 1 1 1 empty32
           (State (floats pixel_stage ++ [pixel]) (longs pixel_stage) (modules pixel_stage))
           6 pixel 1 1 1 (Tensor [] [0%Z])).
  - apply ext_alloc_float.
  - reflexivity.
  - reflexivity.
  - lia.
  - cbn. lia.
  - cbn. lia.
  - reflexivity.
  - reflexivity.
Defined.

Lemma forward_empty_batch_raises_witness :
  ∃ m σ0,
    SimpleCNN_init default_config empty32 = Ok m σ0
    ∧ ∃ σ',
        SimpleCNN_forward m 26 (State (floats σ0 ++ [empty_batch]) (longs σ0) (modules σ0))
        = Raise (RuntimeError "cannot reshape tensor of 0 elements") σ'
        ∧ ext (State (floats σ0 ++ [empty_batch]) (longs σ0) (modules σ0)) σ'.
Proof.
  exists (built_model 0 0 default_config), (built_state empty32 default_config).
  split; [exact (SimpleCNN_init_run default_config empty32)|].
  apply (forward_empty_batch_raises _ _ 26 empty_batch 224).
  - eapply model_ok_ext; [apply ext_alloc_float|].
    exact (built_model_ok default_config empty32).
  - by apply list_lookup_middle.
  - reflexivity.
  - lia.
Defined.

(** a checkpoint whose classifier bias has two elements *)
Definition wide_bias : gmap string (entry spec_float) :=
  {[ "fc.bias" := FloatT (Tensor [2] [fzero; fzero]) ]}.

Lemma load_state_dict_shape_mismatch_witness :
  ∃ m σ ps,
    SimpleCNN_init unit_config empty32 = Ok m σ
    ∧ named_tensors m σ = Ok ps σ
    ∧ ∃ σ',
        load_state_dict m wide_bias σ
        = Raise (RuntimeError "Error(s) in loading state_dict") σ'
        ∧ modules σ' = modules σ
        ∧ (∀ q, param_shape σ' q = param_shape σ q).
Proof.
  eexists _, _, _. split; [vm_compute; reflexivity|]. split; [vm_compute; reflexivity|].
  eapply (load_state_dict_shape_mismatch _ _ _ wide_bias "fc.bias" (PFloat 25)
            (FloatT (Tensor [2] [fzero; fzero])) [1]).
  - vm_compute. reflexivity.
  - apply indexable_sound. vm_compute. reflexivity.
  - apply (list_elem_of_lookup_2 _ 57). reflexivity.
  - reflexivity.
  - vm_compute. reflexivity.
  - reflexivity.
  - intros [Hs|[Hs _]]; discriminate Hs.
Defined.

(** a checkpoint whose batch counter of the first stage is an empty 1-D
    tensor *)
Definition empty_counter : gmap string (entry spec_float) :=
  {[ "conv_layers.0.bn.num_batches_tracked" := LongT (Tensor [0] []) ]}.

Lemma load_state_dict_empty_scalar_witness :
  ∃ m σ ps,
    SimpleCNN_init unit_config empty32 = Ok m σ
    ∧ named_tensors m σ = Ok ps σ
    ∧ ∃ σ',
        load_state_dict m empty_counter σ = Raise IndexError σ'
        ∧ modules σ' = modules σ
        ∧ (∀ q, param_shape σ' q = param_shape σ q).
Proof.
  eexists _, _, _. split; [vm_compute; reflexivity|]. split; [vm_compute; reflexivity|].
  eapply (load_state_dict_empty_scalar _ _ _ empty_counter
            "conv_layers.0.bn.num_batches_tracked" (PLong 0) (LongT (Tensor [0] []))).
  - vm_compute. reflexivity.
  - apply params_exist_sound. vm_compute. reflexivity.
  - apply (list_elem_of_lookup_2 _ 6). reflexivity.
  - reflexivity.
  - vm_compute. reflexivity.
  - reflexivity.
  - reflexivity.
Defined.
